(** * anycable-client: the ActionCable protocol and the cable factory

    A shallow embedding of
      - [packages/core/action_cable/index.js]  (class ActionCableProtocol)
      - [packages/core/create-cable/index.js]  (createCable,
        watchForExpiredToken, ActionCableChannel, ActionCableSubscriptions)
    together with the fragment of JavaScript these two files rely on:
    values, [typeof], truthiness, [===] against a literal, [ToString],
    ordinary objects with their property order and the members they inherit
    from [Object.prototype], [Object.assign] and [JSON.stringify]. *)

From Stdlib Require Import ZArith NArith List String Ascii Bool Lia.
From Stdlib Require Import DecimalString DecimalZ DecimalPos.
Import ListNotations.

Local Open Scope list_scope.
Local Open Scope string_scope.

(** ** JavaScript values *)

Module Js.

(** *** Strings

    A JavaScript string is a sequence of 16-bit code units.  The model holds
    it as the bytes of its UTF-8 form, where a surrogate that has no partner
    is written as the three bytes that the UTF-8 scheme gives its code unit.
    A string of ASCII characters is itself, two strings are the same exactly
    when their bytes are ([StringFacts.of_code_units_inj]), and putting a
    string after an ASCII one is putting the bytes after its bytes. *)

(** The bytes of a code point. *)
Definition utf8 (cp : N) : string :=
  let byte (n : N) := String (ascii_of_N n) "" in
  if (cp <? 128)%N then byte cp
  else if (cp <? 2048)%N then
    byte (192 + cp / 64)%N ++ byte (128 + cp mod 64)%N
  else if (cp <? 65536)%N then
    byte (224 + cp / 4096)%N ++ byte (128 + (cp / 64) mod 64)%N ++
    byte (128 + cp mod 64)%N
  else
    byte (240 + cp / 262144)%N ++ byte (128 + (cp / 4096) mod 64)%N ++
    byte (128 + (cp / 64) mod 64)%N ++ byte (128 + cp mod 64)%N.

Definition leading_surrogate (u : N) : bool :=
  (55296 <=? u)%N && (u <? 56320)%N.

Definition trailing_surrogate (u : N) : bool :=
  (56320 <=? u)%N && (u <? 57344)%N.

(** The string of the model for a sequence of code units: a leading
    surrogate and the trailing one after it are one code point. *)
Fixpoint of_code_units (l : list N) : string :=
  match l with
  | [] => ""
  | u :: r =>
      match r with
      | v :: r' =>
          if leading_surrogate u && trailing_surrogate v
          then utf8 (65536 + (u - 55296) * 1024 + (v - 56320))%N ++
               of_code_units r'
          else utf8 u ++ of_code_units r
      | [] => utf8 u
      end
  end.

(** *** Numbers

    A Number is a double.  A finite one other than zero is held as the
    decimal that [Number::toString] takes from it (ECMA-262, 6.1.6.1.20,
    step 5): its sign, the digits [s] and the exponent [n], where [s] has
    [k] digits, the last of them not zero, and the value is
    [s * 10 ^ (n - k)]: 1.5 is [NFinite false 15 1], 1200 is
    [NFinite false 12 4] and 0.001 is [NFinite false 1 (-2)].  Two Numbers
    are the same exactly when these agree.  The program does no arithmetic:
    it compares Numbers, tests them and prints them. *)
Inductive JsNumber : Type :=
| NFinite (negative : bool) (s : positive) (n : Z)
| NZero (negative : bool)
| NNaN
| NInfinity
| NNegInfinity.

(** The decimal digits of [s]. *)
Definition digits_of (s : positive) : string :=
  NilEmpty.string_of_uint (Pos.to_uint s).

(** [p] without its trailing zeros, and [e] plus their number. *)
Fixpoint strip (fuel : nat) (p : positive) (e : Z) : positive * Z :=
  match fuel with
  | O => (p, e)
  | S fuel' =>
      match (Z.pos p mod 10)%Z, (Z.pos p / 10)%Z with
      | Z0, Zpos q => strip fuel' q (e + 1)%Z
      | _, _ => (p, e)
      end
  end.

Definition of_integer (negative : bool) (p : positive) : JsNumber :=
  let '(s, zeros) := strip (Pos.size_nat p) p 0 in
  NFinite negative s (Z.of_nat (String.length (digits_of s)) + zeros).

(** The Number of an integer that a double holds and that is written with
    at most seventeen significant digits: a safe integer
    (|z| <= 2^53 - 1), a power of ten up to 10^22. *)
Definition NInt (z : Z) : JsNumber :=
  match z with
  | Z0 => NZero false
  | Zpos p => of_integer false p
  | Zneg p => of_integer true p
  end.

(** Values: primitives, arrays and ordinary objects.  An object is the list
    of its own enumerable properties in the order [OrdinaryOwnPropertyKeys]
    lists them: array-index keys in ascending order, then the other keys in
    insertion order.  Its prototype is [Object.prototype], that of an array
    is [Array.prototype], none of its properties is a function or an
    accessor, and no key is a symbol: the values that [JSON.parse] and the
    other decoders make, and [undefined]. *)
#[local] Unset Elimination Schemes.
Inductive JsValue : Type :=
| JUndefined
| JNull
| JBool (b : bool)
| JNum (n : JsNumber)
| JStr (s : string)
| JArr (elems : list JsValue)
| JObj (props : list (string * JsValue)).
#[local] Set Elimination Schemes.

(** An ordinary object whose property values have type [A]. *)
Definition JsObject (A : Type) : Type := list (string * A).

(** [typeof v] *)
Definition typeof (v : JsValue) : string :=
  match v with
  | JUndefined => "undefined"
  | JNull => "object"
  | JBool _ => "boolean"
  | JNum _ => "number"
  | JStr _ => "string"
  | JArr _ => "object"
  | JObj _ => "object"
  end.

(** [ToBoolean v]: what [if (v)], [!v] and [v || w] test. *)
Definition truthy (v : JsValue) : bool :=
  match v with
  | JUndefined | JNull => false
  | JBool b => b
  | JNum (NZero _) | JNum NNaN => false
  | JNum _ => true
  | JStr s => negb (s =? "")
  | JArr _ | JObj _ => true
  end.

(** [v === lit] where [lit] is a primitive literal of the source text.  An
    array or an object is never identical to a literal. *)
Definition strict_eq (v lit : JsValue) : bool :=
  match v, lit with
  | JUndefined, JUndefined => true
  | JNull, JNull => true
  | JBool a, JBool b => Bool.eqb a b
  | JNum (NFinite a s n), JNum (NFinite b s' n') =>
      Bool.eqb a b && (s =? s')%positive && (n =? n')%Z
  | JNum (NZero _), JNum (NZero _) => true
  | JNum NInfinity, JNum NInfinity => true
  | JNum NNegInfinity, JNum NNegInfinity => true
  | JStr a, JStr b => (a =? b)
  | _, _ => false
  end.

(** *** Ordinary objects *)

(** An array index is a canonical numeric string below 2^32 - 1. *)
Definition array_index (k : string) : option N :=
  match NilEmpty.uint_of_string k with
  | Some d =>
      let n := N.of_uint d in
      if (NilZero.string_of_uint (N.to_uint n) =? k) && (n <? 4294967295)%N
      then Some n else None
  | None => None
  end.

(** The names every ordinary object inherits from [Object.prototype]. *)
Definition Object_prototype : list string :=
  ["constructor"; "__defineGetter__"; "__defineSetter__"; "hasOwnProperty";
   "__lookupGetter__"; "__lookupSetter__"; "isPrototypeOf";
   "propertyIsEnumerable"; "toString"; "valueOf"; "__proto__";
   "toLocaleString"].

Definition inherited (k : string) : bool :=
  existsb (String.eqb k) Object_prototype.

(** What [o[k]] finds. *)
Inductive Property (A : Type) : Type :=
| OwnProperty (a : A)
| InheritedMember
| NoProperty.
Arguments OwnProperty {A} a.
Arguments InheritedMember {A}.
Arguments NoProperty {A}.

Section Objects.
Context {A : Type}.

(** The own property [k] of [o], if there is one. *)
Fixpoint obj_get (k : string) (o : JsObject A) : option A :=
  match o with
  | [] => None
  | (k', v) :: r => if k' =? k then Some v else obj_get k r
  end.

Definition obj_has (k : string) (o : JsObject A) : bool :=
  match obj_get k o with Some _ => true | None => false end.

(** [o[k]]: an own property, else a member of [Object.prototype] (a
    function, or the prototype itself under [__proto__]), else
    [undefined]. *)
Definition obj_lookup (k : string) (o : JsObject A) : Property A :=
  match obj_get k o with
  | Some a => OwnProperty a
  | None => if inherited k then InheritedMember else NoProperty
  end.

(** Assignment to an existing property keeps its place. *)
Fixpoint obj_replace (k : string) (v : A) (o : JsObject A) : JsObject A :=
  match o with
  | [] => []
  | (k', v') :: r =>
      if k' =? k then (k, v) :: r else (k', v') :: obj_replace k v r
  end.

(** A new array-index key goes among the index keys, in ascending order. *)
Fixpoint obj_insert_index (n : N) (k : string) (v : A) (o : JsObject A)
  : JsObject A :=
  match o with
  | [] => [(k, v)]
  | (k', v') :: r =>
      match array_index k' with
      | Some n' =>
          if (n' <? n)%N then (k', v') :: obj_insert_index n k v r
          else (k, v) :: o
      | None => (k, v) :: o
      end
  end.

(** [o[k] = v], which is [Set(o, k, v)].  A key the object has not and
    that is [__proto__] reaches the setter of [Object.prototype]: no
    property is added.  (The setter makes an object or [null] the new
    prototype; nothing in the two files reads an inherited member from an
    object that was assigned to in this way.) *)
Definition obj_set (k : string) (v : A) (o : JsObject A) : JsObject A :=
  if obj_has k o then obj_replace k v o
  else if k =? "__proto__" then o
  else match array_index k with
       | Some n => obj_insert_index n k v o
       | None => (o ++ [(k, v)])%list
       end.

(** [Object.assign(target, source)]: [Set] for each own property of the
    source, in order. *)
Definition obj_assign (target source : JsObject A) : JsObject A :=
  fold_left (fun t kv => obj_set (fst kv) (snd kv) t) source target.

Definition obj_keys (o : JsObject A) : list string := map fst o.

End Objects.

(** [v[k]] for a value [v] that is neither [undefined] nor [null] and a key
    that neither [Object.prototype] nor [Array.prototype] has; the two files
    read [type], [identifier], [message], [reason], [reconnect] and
    [channel]. *)
Definition get_prop (v : JsValue) (k : string) : JsValue :=
  match v with
  | JObj ps => match obj_get k ps with Some x => x | None => JUndefined end
  | JArr l =>
      if k =? "length" then JNum (NInt (Z.of_nat (List.length l)))
      else match array_index k with
           | Some n => nth (N.to_nat n) l JUndefined
           | None => JUndefined
           end
  | _ => JUndefined
  end.

(** *** Printing numbers *)

(** Decimal digits of an integer, with a leading minus sign when negative. *)
Definition decimal (z : Z) : string :=
  NilZero.string_of_int (Z.to_int z).

Fixpoint zeros (n : nat) : string :=
  match n with
  | O => ""
  | S m => String "0" (zeros m)
  end.

Fixpoint take (n : nat) (s : string) : string :=
  match n, s with
  | S m, String c r => String c (take m r)
  | _, _ => ""
  end.

Fixpoint drop (n : nat) (s : string) : string :=
  match n, s with
  | S m, String c r => drop m r
  | _, _ => s
  end.

(** The exponent of the scientific notation: [e], a sign, the digits. *)
Definition exponent_part (e : Z) : string :=
  String "e" ((if (e <? 0)%Z then "-" else "+") ++ decimal (Z.abs e)).

(** [Number::toString] for the value [s * 10 ^ (n - k)], steps 6 to 11. *)
Definition unsigned_to_string (s : positive) (n : Z) : string :=
  let d := digits_of s in
  let k := Z.of_nat (String.length d) in
  if (k <=? n)%Z && (n <=? 21)%Z then d ++ zeros (Z.to_nat (n - k))
  else if (0 <? n)%Z && (n <=? 21)%Z then
    take (Z.to_nat n) d ++ "." ++ drop (Z.to_nat n) d
  else if (-6 <? n)%Z && (n <=? 0)%Z then
    "0." ++ zeros (Z.to_nat (- n)) ++ d
  else
    match d with
    | EmptyString => ""
    | String c EmptyString => String c (exponent_part (n - 1))
    | String c r => String c ("." ++ r ++ exponent_part (n - 1))
    end.

(** [Number::toString] *)
Definition number_to_string (n : JsNumber) : string :=
  match n with
  | NFinite false s n => unsigned_to_string s n
  | NFinite true s n => String "-" (unsigned_to_string s n)
  | NZero _ => "0"
  | NNaN => "NaN"
  | NInfinity => "Infinity"
  | NNegInfinity => "-Infinity"
  end.

Definition join (sep : string) : list string -> string :=
  fix go (l : list string) : string :=
    match l with
    | [] => ""
    | x :: r => match r with
                | [] => x
                | _ :: _ => x ++ sep ++ go r
                end
    end.

(** All of them, or none. *)
Fixpoint sequence {A} (l : list (option A)) : option (list A) :=
  match l with
  | [] => Some []
  | Some x :: r => option_map (cons x) (sequence r)
  | None :: _ => None
  end.

(** [ToString v]; [None] when it throws a [TypeError].  An array prints as
    [Array.prototype.join] does (an [undefined] or [null] element prints as
    the empty string).  An ordinary object prints as
    [Object.prototype.toString] does, unless it has a property [toString] of
    its own: that is no function, [valueOf] is none or gives the object
    back, and [OrdinaryToPrimitive] throws. *)
Fixpoint to_string (v : JsValue) : option string :=
  match v with
  | JUndefined => Some "undefined"
  | JNull => Some "null"
  | JBool true => Some "true"
  | JBool false => Some "false"
  | JNum n => Some (number_to_string n)
  | JStr s => Some s
  | JArr l =>
      option_map (join ",")
        (sequence (map (fun e => match e with
                                 | JUndefined | JNull => Some ""
                                 | _ => to_string e
                                 end) l))
  | JObj ps => if obj_has "toString" ps then None else Some "[object Object]"
  end.

(** [ToPropertyKey v] for the values of the model (there are no symbols). *)
Definition to_property_key (v : JsValue) : option string := to_string v.

(** *** JSON.stringify *)

Definition dquote : ascii := "034"%char.
Definition backslash : ascii := "092"%char.

Definition hex_digit (n : N) : ascii :=
  ascii_of_N (if (n <? 10)%N then 48 + n else 87 + n).

(** One code unit of [QuoteJSONString] that is no surrogate. *)
Definition quote_char (c : ascii) : string :=
  let n := N_of_ascii c in
  if (c =? dquote)%char then String backslash (String dquote "")
  else if (c =? backslash)%char then String backslash (String backslash "")
  else if (n =? 8)%N then String backslash "b"
  else if (n =? 12)%N then String backslash "f"
  else if (n =? 10)%N then String backslash "n"
  else if (n =? 13)%N then String backslash "r"
  else if (n =? 9)%N then String backslash "t"
  else if (n <? 32)%N then
    String backslash
      (String "u" (String "0" (String "0"
         (String (hex_digit (n / 16)) (String (hex_digit (n mod 16)) "")))))
  else String c "".

Definition nibble (b3 b2 b1 b0 : bool) : N :=
  (8 * N.b2n b3 + 4 * N.b2n b2 + 2 * N.b2n b1 + N.b2n b0)%N.

(** The three bytes of a surrogate that has no partner, [1110 1101],
    [101x xxxx] and [10yy yyyy], hold the code unit
    [1101 1xxx xxyy yyyy]: its last three hexadecimal digits. *)
Definition lone_surrogate (c1 c2 c3 : ascii) : option (N * N * N) :=
  match c1, c2, c3 with
  | Ascii true false true true false true true true,
    Ascii x0 x1 x2 x3 x4 true false true,
    Ascii y0 y1 y2 y3 y4 y5 false true =>
      Some (nibble true x4 x3 x2, nibble x1 x0 y5 y4, nibble y3 y2 y1 y0)
  | _, _, _ => None
  end.

(** [UnicodeEscape] of the surrogate [0xD h2 h1 h0]. *)
Definition surrogate_escape (h : N * N * N) : string :=
  let '(h2, h1, h0) := h in
  String backslash
    (String "u" (String "d"
       (String (hex_digit h2) (String (hex_digit h1)
          (String (hex_digit h0) ""))))).

(** The code points of a string, one after the other: a surrogate without
    a partner is escaped, every other code point goes through
    [quote_char] byte by byte (a byte above 127 is written as it is). *)
Fixpoint quote_body (s : string) : string :=
  match s with
  | EmptyString => ""
  | String c r =>
      match r with
      | String c2 (String c3 r') =>
          match lone_surrogate c c2 c3 with
          | Some h => surrogate_escape h ++ quote_body r'
          | None => quote_char c ++ quote_body r
          end
      | _ => quote_char c ++ quote_body r
      end
  end.

(** [QuoteJSONString] *)
Definition quote (s : string) : string :=
  String dquote (quote_body s ++ String dquote "").

(** [QuoteJSONString] as ECMA-262 words it (25.5.2.3), on the code units
    of a string: a code point that is a code unit of the table, below the
    space, or a surrogate without its partner is escaped, the others are
    copied. *)
Definition hex4 (u : N) : list N :=
  map (fun d => N_of_ascii (hex_digit d))
    [(u / 4096)%N; ((u / 256) mod 16)%N; ((u / 16) mod 16)%N; (u mod 16)%N].

Definition quote_unit (u : N) : list N :=
  if (u =? 8)%N then [92; 98]%N
  else if (u =? 9)%N then [92; 116]%N
  else if (u =? 10)%N then [92; 110]%N
  else if (u =? 12)%N then [92; 102]%N
  else if (u =? 13)%N then [92; 114]%N
  else if (u =? 34)%N then [92; 34]%N
  else if (u =? 92)%N then [92; 92]%N
  else if (u <? 32)%N || leading_surrogate u || trailing_surrogate u
  then (92 :: 117 :: hex4 u)%N
  else [u].

Fixpoint quote_units (l : list N) : list N :=
  match l with
  | [] => []
  | u :: r =>
      match r with
      | v :: r' =>
          if leading_surrogate u && trailing_surrogate v
          then u :: v :: quote_units r'
          else (quote_unit u ++ quote_units r)%list
      | [] => quote_unit u
      end
  end.

(** [SerializeJSONProperty]: [None] is [undefined] (the property is left
    out of an object and written [null] in an array).  No value of the
    model has a callable [toJSON]. *)
Fixpoint serialize (v : JsValue) : option string :=
  match v with
  | JUndefined => None
  | JNull => Some "null"
  | JBool true => Some "true"
  | JBool false => Some "false"
  | JNum (NFinite negative s n) => Some (number_to_string (NFinite negative s n))
  | JNum (NZero _) => Some "0"
  | JNum _ => Some "null"
  | JStr s => Some (quote s)
  | JArr l =>
      Some ("[" ++ join "," (map (fun e => match serialize e with
                                           | Some t => t
                                           | None => "null"
                                           end) l) ++ "]")
  | JObj ps =>
      Some ("{" ++ join ","
              ((fix members (ps : list (string * JsValue)) : list string :=
                  match ps with
                  | [] => []
                  | (k, x) :: r =>
                      match serialize x with
                      | Some t => (quote k ++ ":" ++ t) :: members r
                      | None => members r
                      end
                  end) ps) ++ "}")
  end.

(** [JSON.stringify(v)] *)
Definition JSON_stringify (v : JsValue) : option string := serialize v.

(** [JSON.stringify(o)] for an ordinary object [o]: always a string. *)
Definition JSON_stringify_object (o : JsObject JsValue) : string :=
  match serialize (JObj o) with
  | Some s => s
  | None => ""
  end.

Fixpoint last_char (s : string) : option ascii :=
  match s with
  | EmptyString => None
  | String c EmptyString => Some c
  | String _ r => last_char r
  end.

(** The digits of a Number end in a digit that is not zero. *)
Definition no_trailing_zero (s : positive) : bool :=
  match last_char (digits_of s) with
  | Some c => negb (c =? "0")%char
  | None => false
  end.

(** The values [JSON.stringify] writes without loss: [null], booleans,
    finite numbers, strings, and arrays and objects of these.  Left out are
    [undefined] (dropped from objects, written [null] in arrays), [NaN] and
    the infinities (written [null]) and the negative zero (written [0]). *)
Fixpoint json_data (v : JsValue) : bool :=
  match v with
  | JUndefined => false
  | JNull => true
  | JBool _ => true
  | JNum (NFinite _ s _) => no_trailing_zero s
  | JNum (NZero negative) => negb negative
  | JNum _ => false
  | JStr _ => true
  | JArr l => forallb json_data l
  | JObj ps => forallb (fun kv => json_data (snd kv)) ps
  end.

End Js.

(** ** The protocol: [packages/core/action_cable/index.js] *)

Module ActionCable.
Import Js.

(** The errors of the model.  [DisconnectedError] and
    [SubscriptionRejectedError] come from [../protocol/index.js]; a
    [TypeError] is raised by the language itself. *)
Inductive JsError : Type :=
| DisconnectedError (reason : JsValue)
| SubscriptionRejectedError
| TypeError (message : string)
| Error (message : string).

(** A promise is named by the order in which it was created. *)
Definition PromiseId : Type := nat.

Inductive PromiseState : Type :=
| Pending
| Fulfilled (v : JsValue)
| Rejected (e : JsError).

(** What the protocol does to the outside, in the order it does it: calls
    on [this.cable], calls on [this.logger], and calls of the [resolve] and
    [reject] functions of the promises [subscribe] created.  The cable and
    the logger are not part of these files: [attached(cable)] has set
    [this.cable], and the methods of both are taken to return normally and
    not to call back into the protocol. *)
Inductive Effect : Type :=
| CableSend (command : JsObject JsValue)
| CableKeepalive (arg : JsValue)
| CableConnected
| CableClose (err : JsError)
| CableDisconnected (err : JsError)
| LoggerError (msg : string) (details : JsObject JsValue)
| LoggerWarn (msg : string) (details : JsObject JsValue)
| Resolve (p : PromiseId) (v : JsValue)
| Reject (p : PromiseId) (e : JsError).

(** [pendingSubscriptions] is the field of the class: identifier to the
    [{ resolve, reject }] pair of a promise.  [promises] counts the promises
    created so far and [effects] is the chronological trace. *)
Record State : Type := mkState {
  pendingSubscriptions : JsObject PromiseId;
  promises : nat;
  effects : list Effect
}.

(** [new ActionCableProtocol(opts)] *)
Definition constructor : State :=
  {| pendingSubscriptions := []; promises := 0; effects := [] |}.

(** The state of promise [p] after the trace [es]: the first call of its
    [resolve] or [reject] settles it, later calls do nothing. *)
Fixpoint promise_state (p : PromiseId) (es : list Effect) : PromiseState :=
  match es with
  | [] => Pending
  | Resolve q v :: r => if Nat.eqb q p then Fulfilled v else promise_state p r
  | Reject q e :: r => if Nat.eqb q p then Rejected e else promise_state p r
  | _ :: r => promise_state p r
  end.

(** *** A state monad with exceptions *)

Inductive Completion (A : Type) : Type :=
| Normal (a : A)
| Throw (e : JsError).
Arguments Normal {A} a.
Arguments Throw {A} e.

Definition M (A : Type) : Type := State -> Completion A * State.

Definition ret {A} (a : A) : M A := fun s => (Normal a, s).

Definition bind {A B} (m : M A) (f : A -> M B) : M B :=
  fun s => match m s with
           | (Normal a, s') => f a s'
           | (Throw e, s') => (Throw e, s')
           end.

Definition throw {A} (e : JsError) : M A := fun s => (Throw e, s).

Notation "x <- m ;; k" := (bind m (fun x => k))
  (at level 61, m at next level, right associativity).
Notation "m ;; k" := (bind m (fun _ => k))
  (at level 61, right associativity).

Definition emit (e : Effect) : M unit :=
  fun s => (Normal tt,
            {| pendingSubscriptions := pendingSubscriptions s;
               promises := promises s;
               effects := (effects s ++ [e])%list |}).

Definition get_pending : M (JsObject PromiseId) :=
  fun s => (Normal (pendingSubscriptions s), s).

Definition put_pending (t : JsObject PromiseId) : M unit :=
  fun s => (Normal tt,
            {| pendingSubscriptions := t;
               promises := promises s;
               effects := effects s |}).

(** [new Promise(...)]: the next promise, pending. *)
Definition new_promise : M PromiseId :=
  fun s => (Normal (promises s),
            {| pendingSubscriptions := pendingSubscriptions s;
               promises := S (promises s);
               effects := effects s |}).

(** *** The methods *)

(** What [receive] returns. *)
Inductive Returned : Type :=
| RUndefined
| RRouted (identifier message : JsValue)
| RResultOf (call : Effect).

(** A call on the cable or the logger whose result the method returns. *)
Definition tail_call (e : Effect) : M Returned :=
  emit e ;; ret (RResultOf e).

(** The object [subscribe] serializes: [{ channel }] with [params] assigned
    over it when [params] is given ([None] is [undefined] or [null]). *)
Definition subscriptionPayload (channel : string)
  (params : option (JsObject JsValue)) : JsObject JsValue :=
  let payload := [("channel", JStr channel)] in
  match params with
  | Some ps => obj_assign payload ps
  | None => payload
  end.

Definition subscription_identifier (channel : string)
  (params : option (JsObject JsValue)) : string :=
  JSON_stringify_object (subscriptionPayload channel params).

(** [subscribe(channel, params)] returns the promise it created. *)
Definition subscribe (channel : string) (params : option (JsObject JsValue))
  : M PromiseId :=
  let payload := subscriptionPayload channel params in
  p <- new_promise ;;
  let identifier := JSON_stringify_object payload in
  table <- get_pending ;;
  put_pending (obj_set identifier p table) ;;
  emit (CableSend [("command", JStr "subscribe");
                   ("identifier", JStr identifier)]) ;;
  ret p.

(** [unsubscribe(identifier)] returns [Promise.resolve()]. *)
Definition unsubscribe (identifier : JsValue) : M PromiseState :=
  emit (CableSend [("command", JStr "unsubscribe");
                   ("identifier", identifier)]) ;;
  ret (Fulfilled JUndefined).

(** The payload [perform] serializes. *)
Definition performPayload (action : JsValue)
  (payload : option (JsObject JsValue)) : JsObject JsValue :=
  let payload := match payload with Some p => p | None => [] end in
  obj_set "action" action payload.

(** [perform(identifier, action, payload)] returns [Promise.resolve()]. *)
Definition perform (identifier action : JsValue)
  (payload : option (JsObject JsValue)) : M PromiseState :=
  let payload := performPayload action payload in
  emit (CableSend [("command", JStr "message");
                   ("identifier", identifier);
                   ("data", JStr (JSON_stringify_object payload))]) ;;
  ret (Fulfilled JUndefined).

(** The [for ... in] loop of [reset]. *)
Fixpoint reject_each (err : JsError) (table : JsObject PromiseId) : M unit :=
  match table with
  | [] => ret tt
  | (_, p) :: r => emit (Reject p err) ;; reject_each err r
  end.

(** [reset(err)] *)
Definition reset (err : JsError) : M unit :=
  table <- get_pending ;;
  reject_each err table ;;
  put_pending [].

(** [let { type, identifier, message, reason, reconnect } = msg] *)
Definition destructure (msg : JsValue)
  : M (JsValue * JsValue * JsValue * JsValue * JsValue) :=
  match msg with
  | JUndefined =>
      throw (TypeError
               "Cannot destructure property 'type' of 'msg' as it is undefined.")
  | JNull =>
      throw (TypeError
               "Cannot destructure property 'type' of 'msg' as it is null.")
  | _ => ret (get_prop msg "type", get_prop msg "identifier",
              get_prop msg "message", get_prop msg "reason",
              get_prop msg "reconnect")
  end.

(** What [ToString] and [ToPropertyKey] throw. *)
Definition not_primitive : JsError :=
  TypeError "Cannot convert object to primitive value".

(** [this.pendingSubscriptions[identifier]]: the identifier is made a
    property key, which may throw, and the key is looked up in the table,
    a plain object. *)
Definition lookup_subscription (identifier : JsValue)
  : M (Property PromiseId) :=
  match to_property_key identifier with
  | None => throw not_primitive
  | Some key =>
      table <- get_pending ;;
      ret (obj_lookup key table)
  end.

(** [subscription.resolve(...)] and [subscription.reject(...)] on a member
    of [Object.prototype]: it has no such method. *)
Definition not_a_function (method : string) : JsError :=
  TypeError ("subscription." ++ method ++ " is not a function").

(** [receive(msg)] *)
Definition receive (msg : JsValue) : M Returned :=
  if negb (typeof msg =? "object") then
    emit (LoggerError "unsupported message format" [("message", msg)]) ;;
    ret RUndefined
  else
    fields <- destructure msg ;;
    let '(type, identifier, message, reason, reconnect) := fields in
    if strict_eq type (JStr "ping") then
      tail_call (CableKeepalive (get_prop msg "message"))
    else if strict_eq type (JStr "welcome") then
      tail_call CableConnected
    else if strict_eq type (JStr "disconnect") then
      let err := DisconnectedError reason in
      reset err ;;
      (if strict_eq reconnect (JBool false)
       then emit (CableClose err)
       else emit (CableDisconnected err)) ;;
      ret RUndefined
    else if strict_eq type (JStr "confirm_subscription") then
      subscription <- lookup_subscription identifier ;;
      match subscription with
      | NoProperty =>
          tail_call (LoggerError "subscription not found"
                       [("identifier", identifier)])
      | OwnProperty p => emit (Resolve p identifier) ;; ret RUndefined
      | InheritedMember => throw (not_a_function "resolve")
      end
    else if strict_eq type (JStr "reject_subscription") then
      subscription <- lookup_subscription identifier ;;
      match subscription with
      | NoProperty =>
          tail_call (LoggerError "subscription not found"
                       [("identifier", identifier)])
      | OwnProperty p =>
          emit (Reject p SubscriptionRejectedError) ;; ret RUndefined
      | InheritedMember => throw (not_a_function "reject")
      end
    else if truthy message then
      ret (RRouted identifier message)
    else
      match to_string type with
      | None => throw not_primitive
      | Some name =>
          emit (LoggerWarn ("unknown message type: " ++ name)
                  [("message", msg)]) ;;
          ret RUndefined
      end.

(** [recoverableClosure()] *)
Definition recoverableClosure : bool := false.

(** *** Sequences of calls on one protocol object *)

Inductive Call : Type :=
| CallSubscribe (channel : string) (params : option (JsObject JsValue))
| CallUnsubscribe (identifier : JsValue)
| CallPerform (identifier action : JsValue)
    (payload : option (JsObject JsValue))
| CallReceive (msg : JsValue)
| CallReset (err : JsError).

Definition call (c : Call) (s : State) : State :=
  match c with
  | CallSubscribe ch ps => snd (subscribe ch ps s)
  | CallUnsubscribe i => snd (unsubscribe i s)
  | CallPerform i a p => snd (perform i a p s)
  | CallReceive m => snd (receive m s)
  | CallReset e => snd (reset e s)
  end.

Definition run (cs : list Call) (s : State) : State :=
  fold_left (fun s c => call c s) cs s.

End ActionCable.

(** ** The factory: [packages/core/create-cable/index.js] *)

Module CreateCable.
Import Js.
Import ActionCable.

(** An object or a function the caller hands in (a transport, an encoder, a
    logger, a monitor, a protocol, a reconnect strategy, a token refresher):
    opaque and truthy. *)
Definition Host : Type := nat.

(** A key of the options object: absent, present with the value
    [undefined], or present with a value. *)
Inductive Field (A : Type) : Type :=
| Absent
| Undefined
| Given (a : A).
Arguments Absent {A}.
Arguments Undefined {A}.
Arguments Given {A} a.

Inductive ProtocolValue : Type :=
| ProtocolId (name : string)
| ProtocolInstance (h : Host).

Inductive MonitorValue : Type :=
| MonitorFalse
| MonitorInstance (h : Host).

(** The options object: its own properties under the fifteen names that
    [createCable] reads.  It inherits from [Object.prototype] and has no
    property [__proto__] of its own. *)
Record Options : Type := mkOptions {
  protocol : Field ProtocolValue;
  websocketImplementation : Field Host;
  websocketFormat : Field string;
  logLevel : Field string;
  logger : Field Host;
  transport : Field Host;
  encoder : Field Host;
  lazy : Field bool;
  monitor : Field MonitorValue;
  pingInterval : Field JsNumber;
  reconnectStrategy : Field Host;
  maxMissingPings : Field JsNumber;
  maxReconnectAttempts : Field JsNumber;
  subprotocol : Field string;
  tokenRefresher : Field Host
}.

(** [{}] *)
Definition no_options : Options :=
  mkOptions Absent Absent Absent Absent Absent Absent Absent Absent
            Absent Absent Absent Absent Absent Absent Absent.

(** The first argument of [createCable]. *)
Inductive UrlArg : Type :=
| UrlUndefined
| UrlString (s : string)
| UrlObject (o : Options).

Definition url_truthy (u : UrlArg) : bool :=
  match u with
  | UrlUndefined => false
  | UrlString s => negb (s =? "")
  | UrlObject _ => true
  end.

(** The value of a key, [None] being [undefined]. *)
Definition value {A} (f : Field A) : option A :=
  match f with
  | Given a => Some a
  | _ => None
  end.

(** A key copied over its default by [Object.assign]: a key that is present
    wins, also when its value is [undefined]. *)
Definition over {A} (default : A) (f : Field A) : option A :=
  match f with
  | Absent => Some default
  | Undefined => None
  | Given a => Some a
  end.

(** [s || d] on strings that may be [undefined]. *)
Definition string_or (s : option string) (d : option string) : option string :=
  match s with
  | Some t => if t =? "" then d else Some t
  | None => d
  end.

(** [DEFAULT_OPTIONS] *)
Definition DEFAULT_protocol : ProtocolValue := ProtocolId "actioncable-v1-json".
Definition DEFAULT_pingInterval : JsNumber := NInt 3000.
Definition DEFAULT_maxReconnectAttempts : JsNumber := NInfinity.
Definition DEFAULT_maxMissingPings : JsNumber := NInt 2.
Definition DEFAULT_logLevel : string := "warn".
Definition DEFAULT_lazy : bool := true.

(** The parts of a cable. *)
Inductive CableProtocol : Type :=
| NewActionCableProtocol
| GivenProtocol (h : Host).

Inductive CableEncoder : Type :=
| NewJSONEncoder
| GivenEncoder (h : Host).

Inductive CableTransport : Type :=
| GivenTransport (h : Host)
| NewWebSocketTransport (url : UrlArg) (websocketImplementation : option Host)
    (subprotocol : option string) (format : option string).

Inductive CableLogger : Type :=
| GivenLogger (h : Host)
| NewNoopLogger (logLevel : option string).

Inductive ReconnectStrategy : Type :=
| GivenStrategy (h : Host)
| BackoffWithJitter (pingInterval : option JsNumber).

Inductive CableMonitor : Type :=
| GivenMonitor (h : Host)
| NewMonitor (pingInterval : option JsNumber) (strategy : ReconnectStrategy)
    (maxMissingPings maxReconnectAttempts : option JsNumber)
    (logger : CableLogger).

(** What [createCable] returns: the arguments of [new Cable], the monitor
    that watches it, and the refresher whose workflow listens to its [close]
    events. *)
Record Cable : Type := mkCable {
  cable_protocol : CableProtocol;
  cable_transport : CableTransport;
  cable_encoder : option CableEncoder;
  cable_logger : CableLogger;
  cable_lazy : option bool;
  cable_monitor : option CableMonitor;
  cable_tokenRefresher : option Host
}.

(** What [createCable] imports and does not define: the constructors of
    the logger, the encoder, the transport, the monitor and the cable, the
    function [backoffWithJitter], and the two methods it calls on what they
    made.  Their code is not part of the two files.  Each is given by what
    a call with these arguments throws, [None] when it returns. *)
Record Imports : Type := mkImports {
  new_NoopLogger : option string -> option JsError;
  new_JSONEncoder : option JsError;
  new_WebSocketTransport :
    UrlArg -> option Host -> option string -> option string -> option JsError;
  call_backoffWithJitter : option JsNumber -> option JsError;
  new_Monitor :
    option JsNumber -> ReconnectStrategy -> option JsNumber ->
    option JsNumber -> CableLogger -> option JsError;
  new_Cable :
    CableProtocol -> CableTransport -> option CableEncoder -> CableLogger ->
    option bool -> option JsError;
  monitor_watch : CableMonitor -> option JsError;
  cable_on_close : option JsError
}.

(** A call that throws, or returns and lets [k] go on. *)
Definition calling {A} (thrown : option JsError) (k : Completion A)
  : Completion A :=
  match thrown with
  | Some e => Throw e
  | None => k
  end.

(** [new ActionCableProtocol()]: without options the constructor makes a
    [NoopLogger] of its own ([action_cable/index.js], line 10). *)
Definition new_ActionCableProtocol (env : Imports) : option JsError :=
  new_NoopLogger env None.

(** The branch on [protocol]: the protocol object, the encoder and the
    websocket format, or the error thrown. *)
Definition select_protocol (env : Imports) (protocol : option ProtocolValue)
  (encoder : option Host) (websocketFormat : option string)
  : Completion (option CableProtocol * option CableEncoder * option string) :=
  let given := option_map GivenEncoder encoder in
  match protocol with
  | Some (ProtocolId name) =>
      if name =? "actioncable-v1-json" then
        calling (new_ActionCableProtocol env)
          (match encoder with
          | Some e =>
              Normal (Some NewActionCableProtocol, given,
                      string_or websocketFormat (Some "text"))
          | None =>
              calling (new_JSONEncoder env)
                (Normal (Some NewActionCableProtocol, Some NewJSONEncoder,
                         string_or websocketFormat (Some "text")))
          end)
      else if name =? "actioncable-v1-msgpack" then
        calling (new_ActionCableProtocol env)
          (match encoder with
          | Some e =>
              Normal (Some NewActionCableProtocol, given, Some "binary")
          | None =>
              Throw (Error "Msgpack encoder must be specified explicitly. Use `@anycable/msgpack-encoder` package or build your own")
          end)
      else if name =? "actioncable-v1-protobuf" then
        calling (new_ActionCableProtocol env)
          (match encoder with
          | Some e =>
              Normal (Some NewActionCableProtocol, given,
                      string_or websocketFormat (Some "binary"))
          | None =>
              Throw (Error "Protobuf encoder must be specified explicitly. Use `@anycable/protobuf-encoder` package or build your own")
          end)
      else Throw (Error ("Protocol is not supported yet: " ++ name))
  | Some (ProtocolInstance h) =>
      Normal (Some (GivenProtocol h), given, websocketFormat)
  | None => Normal (None, given, websocketFormat)
  end.

(** [createCable(url, opts)] with the imports [env]. *)
Definition createCable (env : Imports) (url : UrlArg) (opts : option Options)
  : Completion Cable :=
  let '(url, opts) :=
    match url, opts with
    | UrlObject o, None => (UrlUndefined, Some o)
    | _, _ => (url, opts)
    end in
  let opts := match opts with Some o => o | None => no_options end in
  if negb (url_truthy url) &&
     negb (match value (transport opts) with Some _ => true | None => false end)
  then Throw (Error "URL or transport must be specified")
  else
    let protocol := over DEFAULT_protocol (protocol opts) in
    let pingInterval := over DEFAULT_pingInterval (pingInterval opts) in
    let maxReconnectAttempts :=
      over DEFAULT_maxReconnectAttempts (maxReconnectAttempts opts) in
    let maxMissingPings :=
      over DEFAULT_maxMissingPings (maxMissingPings opts) in
    let logLevel := over DEFAULT_logLevel (logLevel opts) in
    let lazy := over DEFAULT_lazy (lazy opts) in
    let subprotocol :=
      match protocol with
      | Some (ProtocolId name) =>
          string_or (value (subprotocol opts)) (Some name)
      | _ => value (subprotocol opts)
      end in
    match select_protocol env protocol (value (encoder opts))
            (value (websocketFormat opts)) with
    | Throw e => Throw e
    | Normal (None, _, _) => Throw (Error "Protocol must be specified")
    | Normal (Some protocol, encoder, websocketFormat) =>
        calling
          (match value (transport opts) with
           | Some _ => None
           | None =>
               new_WebSocketTransport env url
                 (value (websocketImplementation opts))
                 subprotocol websocketFormat
           end)
        (let transport :=
           match value (transport opts) with
           | Some t => GivenTransport t
           | None =>
               NewWebSocketTransport url
                 (value (websocketImplementation opts))
                 subprotocol websocketFormat
           end in
         calling
           (match value (logger opts) with
            | Some _ => None
            | None => new_NoopLogger env logLevel
            end)
         (let logger :=
            match value (logger opts) with
            | Some l => GivenLogger l
            | None => NewNoopLogger logLevel
            end in
          calling
            (match value (reconnectStrategy opts) with
             | Some _ => None
             | None => call_backoffWithJitter env pingInterval
             end)
          (let reconnectStrategy :=
             match value (reconnectStrategy opts) with
             | Some r => GivenStrategy r
             | None => BackoffWithJitter pingInterval
             end in
           calling
             (match value (monitor opts) with
              | Some _ => None
              | None =>
                  new_Monitor env pingInterval reconnectStrategy
                    maxMissingPings maxReconnectAttempts logger
              end)
           (let monitor :=
              match value (monitor opts) with
              | Some MonitorFalse => None
              | Some (MonitorInstance m) => Some (GivenMonitor m)
              | None =>
                  Some (NewMonitor pingInterval reconnectStrategy
                          maxMissingPings maxReconnectAttempts logger)
              end in
            calling (new_Cable env protocol transport encoder logger lazy)
            (calling
               (match monitor with
                | Some m => monitor_watch env m
                | None => None
                end)
            (calling
               (match value (tokenRefresher opts) with
                | Some _ => cable_on_close env
                | None => None
                end)
            (Normal {| cable_protocol := protocol;
                       cable_transport := transport;
                       cable_encoder := encoder;
                       cable_logger := logger;
                       cable_lazy := lazy;
                       cable_monitor := monitor;
                       cable_tokenRefresher := value (tokenRefresher opts) |}
            )))))))
    end.

(** *** The token-refresh workflow

    [watchForExpiredToken(cable, callback)] with the callback [createCable]
    passes.  The listener and the callback are [async] functions: each runs
    until its next [await] and is resumed when the awaited promise settles. *)

(** How an awaited promise settles; a rejection carries [String(err)]. *)
Inductive Outcome : Type :=
| Settled
| Failed (err : string).

Inductive Watch : Type :=
| Listening
    (* the listener is bound to [close] *)
| AwaitingRefresher
    (* unbound; the callback waits at [await tokenRefresher(transport)] *)
| AwaitingConnect
    (* unbound; the callback waits at [await cable.connect()] *)
| AwaitingCallback (result : bool)
    (* unbound; the callback returned, the listener waits at
       [await callback()] *)
| Stopped.
    (* unbound, and nothing is waiting *)

Inductive Event : Type :=
| Close (reason : JsValue)          (* the cable emits [close], [ev.reason] *)
| RefresherDone (o : Outcome)       (* the refresher's promise settles *)
| ConnectDone (o : Outcome)         (* the promise of [cable.connect()] settles *)
| CallbackDone.                     (* the listener is resumed *)

Inductive Action : Type :=
| Unbind
| CallTokenRefresher
| CallConnect
| LoggerInfo (msg : string)
| Bind.

(** The [catch] branch of the callback. *)
Definition failed (err : string) : Watch * list Action :=
  (AwaitingCallback false,
   [LoggerInfo ("Failed to refresh authentication token: " ++ err)]).

(** One event.  An event nothing waits for changes nothing. *)
Definition step (w : Watch) (ev : Event) : Watch * list Action :=
  match w, ev with
  | Listening, Close reason =>
      if strict_eq reason (JStr "token_expired")
      then (AwaitingRefresher, [Unbind; CallTokenRefresher])
      else (Listening, [])
  | AwaitingRefresher, RefresherDone Settled => (AwaitingConnect, [CallConnect])
  | AwaitingRefresher, RefresherDone (Failed err) => failed err
  | AwaitingConnect, ConnectDone Settled => (AwaitingCallback true, [])
  | AwaitingConnect, ConnectDone (Failed err) => failed err
  | AwaitingCallback true, CallbackDone => (Listening, [Bind])
  | AwaitingCallback false, CallbackDone => (Stopped, [])
  | _, _ => (w, [])
  end.

(** [watchForExpiredToken(cable, callback)] binds the listener. *)
Definition watchForExpiredToken : Watch := Listening.

Fixpoint run (w : Watch) (evs : list Event) : Watch * list Action :=
  match evs with
  | [] => (w, [])
  | ev :: r =>
      let '(w1, a1) := step w ev in
      let '(w2, a2) := run w1 r in
      (w2, (a1 ++ a2)%list)
  end.

(** The callback has been called and the listener has not been resumed. *)
Definition pending (w : Watch) : bool :=
  match w with
  | AwaitingRefresher | AwaitingConnect | AwaitingCallback _ => true
  | Listening | Stopped => false
  end.

Definition is_refresher_call (a : Action) : bool :=
  match a with CallTokenRefresher => true | _ => false end.

Definition is_connect_call (a : Action) : bool :=
  match a with CallConnect => true | _ => false end.

Definition is_bind (a : Action) : bool :=
  match a with Bind => true | _ => false end.

Definition is_log (a : Action) : bool :=
  match a with LoggerInfo _ => true | _ => false end.

Definition count (f : Action -> bool) (l : list Action) : nat :=
  List.length (filter f l).

End CreateCable.

(** ** The consumer: the rest of [packages/core/create-cable/index.js] *)

Module Consumer.
Import Js.
Import ActionCable.
Import CreateCable.

(** [delete o[k]] *)
Definition obj_delete {A} (k : string) (o : JsObject A) : JsObject A :=
  filter (fun kv => negb (fst kv =? k)) o.

(** A value of a mixin: a function, or anything else. *)
Inductive Member : Type :=
| Fn (h : Host)
| Value (v : JsValue).

(** A call of a function of the mixin, with the channel as [this]. *)
Inductive Invocation : Type :=
| Invoke (h : Host) (args : list JsValue).

(** An [ActionCableChannel]: the arguments handed to [GhostChannel] and the
    properties the constructor adds.  What [GhostChannel] itself puts on the
    object is not part of this file; no name of it starts with [_ac_]. *)
Record ActionCableChannel : Type := mkChannel {
  channelName : JsValue;
  params : JsValue;
  members : JsObject Member
}.

(** The [for ... in] loop of the constructor: [this[`_ac_${key}`] = value]. *)
Definition install (mixin : JsObject Member) : JsObject Member :=
  fold_left (fun this kv => obj_set ("_ac_" ++ fst kv) (snd kv) this) mixin [].

(** [new ActionCableChannel(channelName, params, mixin)] *)
Definition new_channel (channelName params : JsValue)
  (mixin : JsObject Member) : ActionCableChannel :=
  {| channelName := channelName; params := params; members := install mixin |}.

(** [notify(callback, ...args)] *)
Definition notify (this : ActionCableChannel) (callback : string)
  (args : list JsValue) : list Invocation :=
  match obj_get callback (members this) with
  | Some (Fn h) => [Invoke h args]
  | _ => []
  end.

(** The events the constructor listens to.  [close] carries [err]: [None]
    is [undefined]. *)
Inductive ChannelEvent : Type :=
| OnConnect
| OnDisconnect
| OnMessage (val : JsValue)
| OnClose (err : option JsError).

Definition allowReconnect (b : bool) : JsValue :=
  JObj [("allowReconnect", JBool b)].

(** The four listeners. *)
Definition on_event (this : ActionCableChannel) (ev : ChannelEvent)
  : list Invocation :=
  match ev with
  | OnConnect => notify this "_ac_connected" []
  | OnDisconnect => notify this "_ac_disconnected" [allowReconnect true]
  | OnMessage val => notify this "_ac_received" [val]
  | OnClose (Some SubscriptionRejectedError) => notify this "_ac_rejected" []
  | OnClose _ => notify this "_ac_disconnected" [allowReconnect false]
  end.



End Consumer.

(** ** Facts about ordinary objects *)

Module ObjectFacts.
Import Js.

Section Objects.
Context {A : Type}.
Implicit Types (o : JsObject A) (k : string) (v : A).

Lemma obj_get_none_keys k o :
  obj_get k o = None <-> ~ In k (obj_keys o).
Proof.
  induction o as [|[k' v'] r IH]; simpl.
  - tauto.
  - destruct (String.eqb_spec k' k) as [->|Hne].
    + split; [discriminate | intros H; exfalso; apply H; now left].
    + rewrite IH. split.
      * intros H [E|I]; [congruence | tauto].
      * tauto.
Qed.

Lemma obj_keys_replace k v o :
  obj_keys (obj_replace k v o) = obj_keys o.
Proof.
  induction o as [|[k' v'] r IH]; simpl; [reflexivity|].
  destruct (String.eqb_spec k' k) as [->|Hne]; simpl.
  - reflexivity.
  - now rewrite IH.
Qed.

Lemma obj_get_replace_same k v o :
  obj_get k o <> None -> obj_get k (obj_replace k v o) = Some v.
Proof.
  induction o as [|[k' v'] r IH]; simpl; [congruence|].
  destruct (String.eqb_spec k' k) as [->|Hne]; simpl.
  - now rewrite String.eqb_refl.
  - intros H. destruct (String.eqb_spec k' k); [contradiction | auto].
Qed.

Lemma obj_get_replace_other k k' v o :
  k' <> k -> obj_get k' (obj_replace k v o) = obj_get k' o.
Proof.
  intros Hne. induction o as [|[k0 v0] r IH]; simpl; [reflexivity|].
  destruct (String.eqb_spec k0 k) as [->|H0]; simpl.
  - destruct (String.eqb_spec k k'); [congruence|].
    reflexivity.
  - now rewrite IH.
Qed.

Lemma obj_keys_insert_index n k v o x :
  In x (obj_keys (obj_insert_index n k v o)) <-> x = k \/ In x (obj_keys o).
Proof.
  induction o as [|[k' v'] r IH]; simpl.
  - intuition congruence.
  - destruct (array_index k') as [n'|]; [destruct (n' <? n)%N|]; simpl;
      try rewrite IH; intuition congruence.
Qed.

Lemma obj_keys_insert_index_nodup n k v o :
  ~ In k (obj_keys o) -> NoDup (obj_keys o) ->
  NoDup (obj_keys (obj_insert_index n k v o)).
Proof.
  induction o as [|[k' v'] r IH]; simpl; intros Hk Hnd.
  - constructor; [tauto | constructor].
  - assert (Hnew : NoDup (k :: k' :: obj_keys r)) by (constructor; assumption).
    destruct (array_index k') as [n'|]; [destruct (n' <? n)%N|]; simpl;
      try exact Hnew.
    inversion Hnd as [|? ? Hk' Hr]; subst.
    constructor.
    + rewrite obj_keys_insert_index. intros [E|I]; [|contradiction].
      apply Hk. now left.
    + apply IH; [tauto | assumption].
Qed.

Lemma obj_get_insert_index_same n k v o :
  obj_get k o = None -> obj_get k (obj_insert_index n k v o) = Some v.
Proof.
  induction o as [|[k' v'] r IH]; simpl.
  - now rewrite String.eqb_refl.
  - destruct (String.eqb_spec k' k) as [->|Hne]; [discriminate|].
    intros Hr.
    destruct (array_index k') as [n'|]; [destruct (n' <? n)%N|]; simpl;
      rewrite ?String.eqb_refl; try reflexivity.
    destruct (String.eqb_spec k' k); [contradiction | auto].
Qed.

Lemma obj_get_insert_index_other n k k' v o :
  k' <> k -> obj_get k' (obj_insert_index n k v o) = obj_get k' o.
Proof.
  intros Hne. induction o as [|[k0 v0] r IH]; simpl.
  - destruct (String.eqb_spec k k'); [congruence | reflexivity].
  - destruct (array_index k0) as [n'|]; [destruct (n' <? n)%N|]; simpl;
      try rewrite IH; try reflexivity;
      destruct (String.eqb_spec k k'); congruence.
Qed.

Lemma obj_get_app k o1 o2 :
  obj_get k (o1 ++ o2)%list =
  match obj_get k o1 with Some x => Some x | None => obj_get k o2 end.
Proof.
  induction o1 as [|[k' v'] r IH]; simpl; [reflexivity|].
  destruct (k' =? k); auto.
Qed.

(** Reading back what was assigned. *)
Lemma obj_get_set_same k v o :
  k <> "__proto__" -> obj_get k (obj_set k v o) = Some v.
Proof.
  intros Hk. unfold obj_set, obj_has.
  destruct (obj_get k o) as [x|] eqn:E.
  - apply obj_get_replace_same. congruence.
  - destruct (String.eqb_spec k "__proto__") as [|_]; [contradiction|].
    destruct (array_index k) as [n|].
    + now apply obj_get_insert_index_same.
    + rewrite obj_get_app, E. simpl. now rewrite String.eqb_refl.
Qed.

(** The other properties keep their values. *)
Lemma obj_get_set_other k k' v o :
  k' <> k -> obj_get k' (obj_set k v o) = obj_get k' o.
Proof.
  intros Hne. unfold obj_set, obj_has.
  destruct (obj_get k o) as [x|] eqn:E.
  - now apply obj_get_replace_other.
  - destruct (k =? "__proto__"); [reflexivity|].
    destruct (array_index k) as [n|].
    + now apply obj_get_insert_index_other.
    + rewrite obj_get_app. simpl.
      destruct (String.eqb_spec k k'); [congruence|].
      now destruct (obj_get k' o).
Qed.

(** Assignment never duplicates a key. *)
Lemma obj_set_nodup k v o :
  NoDup (obj_keys o) -> NoDup (obj_keys (obj_set k v o)).
Proof.
  intros Hnd. unfold obj_set, obj_has.
  destruct (obj_get k o) as [x|] eqn:E.
  - now rewrite obj_keys_replace.
  - destruct (k =? "__proto__"); [assumption|].
    apply obj_get_none_keys in E.
    destruct (array_index k) as [n|].
    + now apply obj_keys_insert_index_nodup.
    + unfold obj_keys. rewrite map_app. simpl.
      apply NoDup_app; [assumption | repeat constructor; simpl; tauto |].
      intros x Hx [<-|[]]. exact (E Hx).
Qed.

(** Assignment to [__proto__] adds no property. *)
Lemma obj_set_proto v o :
  obj_get "__proto__" o = None -> obj_set "__proto__" v o = o.
Proof.
  intros H. unfold obj_set, obj_has. now rewrite H.
Qed.

(** Which keys an assignment leaves. *)
Lemma obj_keys_set k v o x :
  In x (obj_keys (obj_set k v o)) ->
  In x (obj_keys o) \/ (x = k /\ k <> "__proto__").
Proof.
  unfold obj_set, obj_has. destruct (obj_get k o) as [y|] eqn:E.
  - rewrite obj_keys_replace. tauto.
  - destruct (String.eqb_spec k "__proto__") as [|Hk]; [tauto|].
    destruct (array_index k) as [n|].
    + rewrite obj_keys_insert_index. tauto.
    + unfold obj_keys. rewrite map_app, in_app_iff. simpl.
      intros [H|[H|[]]]; [tauto | right; split; congruence].
Qed.

End Objects.

End ObjectFacts.

(** ** Facts about the protocol *)

Module ProtocolFacts.
Import Js.
Import ActionCable.
Import ObjectFacts.

(** The state [s] after the further effects [es]. *)
Definition after (s : State) (es : list Effect) : State :=
  {| pendingSubscriptions := pendingSubscriptions s;
     promises := promises s;
     effects := (effects s ++ es)%list |}.

(** The calls of [reject] that [reset(err)] makes on the table [t]. *)
Definition rejections (err : JsError) (t : JsObject PromiseId) : list Effect :=
  map (fun kv => Reject (snd kv) err) t.

(** The table is emptied: [this.pendingSubscriptions = {}]. *)
Definition cleared (s : State) : State :=
  {| pendingSubscriptions := [];
     promises := promises s;
     effects := effects s |}.

Lemma after_nil s : after s [] = s.
Proof.
  destruct s as [t n es]. unfold after. simpl. now rewrite List.app_nil_r.
Qed.

(** *** Promises *)

Lemma promise_state_app p es1 es2 :
  promise_state p (es1 ++ es2) =
  match promise_state p es1 with
  | Pending => promise_state p es2
  | settled => settled
  end.
Proof.
  induction es1 as [|e r IH]; simpl; [reflexivity|].
  destruct e; try exact IH; destruct (Nat.eqb _ p); auto.
Qed.

Lemma promise_state_rejections p err t :
  promise_state p (rejections err t) =
  if existsb (Nat.eqb p) (map snd t) then Rejected err else Pending.
Proof.
  induction t as [|[k q] r IH]; simpl; [reflexivity|].
  rewrite (Nat.eqb_sym p q). destruct (Nat.eqb q p); simpl; auto.
Qed.

Lemma existsb_eqb_In p l : existsb (Nat.eqb p) l = true <-> In p l.
Proof.
  rewrite existsb_exists. split.
  - intros (x & Hx & E). apply Nat.eqb_eq in E. now subst.
  - intros H. exists p. split; [assumption | apply Nat.eqb_refl].
Qed.

(** *** [reset] *)

Lemma reject_each_spec err t s :
  reject_each err t s = (Normal tt, after s (rejections err t)).
Proof.
  revert s. induction t as [|[k p] r IH]; intros s; simpl.
  - unfold ret. now rewrite after_nil.
  - unfold bind at 1. unfold emit at 1. rewrite IH.
    unfold after. simpl. now rewrite <- List.app_assoc.
Qed.

Lemma reset_spec err s :
  reset err s =
  (Normal tt, cleared (after s (rejections err (pendingSubscriptions s)))).
Proof.
  unfold reset, bind, get_pending. rewrite reject_each_spec. reflexivity.
Qed.

(** [reset(err)] returns normally, calls [reject(err)] on every
    continuation of the table, in the order of the table, and nothing else,
    and leaves the table empty.  A promise whose continuation is in the
    table is rejected with exactly [err] when it was pending and keeps its
    state when it was settled before; a promise whose continuation is not in
    the table keeps its state. *)
Lemma reset_rejects_table (err : JsError) (s : State) :
  reset err s =
    (Normal tt, cleared (after s (rejections err (pendingSubscriptions s)))) /\
  pendingSubscriptions (snd (reset err s)) = [] /\
  (forall p, In p (map snd (pendingSubscriptions s)) ->
     promise_state p (effects (snd (reset err s))) =
     match promise_state p (effects s) with
     | Pending => Rejected err
     | settled => settled
     end) /\
  (forall p, ~ In p (map snd (pendingSubscriptions s)) ->
     promise_state p (effects (snd (reset err s))) =
     promise_state p (effects s)).
Proof.
  rewrite reset_spec. simpl. repeat split.
  - intros p Hin. rewrite promise_state_app, promise_state_rejections.
    apply existsb_eqb_In in Hin. rewrite Hin.
    now destruct (promise_state p (effects s)).
  - intros p Hout. rewrite promise_state_app, promise_state_rejections.
    destruct (existsb (Nat.eqb p) (map snd (pendingSubscriptions s))) eqn:E.
    + apply existsb_eqb_In in E. contradiction.
    + now destruct (promise_state p (effects s)).
Qed.

(** Two subscriptions to the same channel share an identifier, the second
    replaces the continuation of the first, and [reset] never reaches the
    first promise. *)
Lemma reset_misses_replaced_subscription :
  fst (subscribe "chat" None constructor) = Normal 0 /\
  pendingSubscriptions
    (run [CallSubscribe "chat" None; CallSubscribe "chat" None;
          CallReset (DisconnectedError JUndefined)] constructor) = [] /\
  promise_state 0
    (effects
       (run [CallSubscribe "chat" None; CallSubscribe "chat" None;
             CallReset (DisconnectedError JUndefined)] constructor))
  = Pending.
Proof.
  repeat split; vm_compute; reflexivity.
Qed.

(** *** [receive] *)

(** What the connection is told after a [disconnect] frame. *)
Definition disconnect_signal (reconnect : JsValue) (err : JsError) : Effect :=
  match reconnect with
  | JBool false => CableClose err
  | _ => CableDisconnected err
  end.

Lemma disconnect_signal_spec reconnect err :
  (if strict_eq reconnect (JBool false)
   then emit (CableClose err) else emit (CableDisconnected err))
  = emit (disconnect_signal reconnect err).
Proof.
  destruct reconnect as [| |[]|[]| | |]; reflexivity.
Qed.

Lemma get_prop_some frame k v :
  obj_get k frame = Some v -> get_prop (JObj frame) k = v.
Proof.
  intros H. simpl. now rewrite H.
Qed.

(** Runs [receive] on an object frame up to the branch its [type] selects. *)
Ltac receive_frame H :=
  unfold receive;
  change (negb (typeof (JObj _) =? "object")) with false; cbv iota;
  unfold destructure; unfold bind at 1; unfold ret at 1; cbv iota beta;
  rewrite (get_prop_some _ _ _ H);
  cbn [strict_eq String.eqb Ascii.eqb Bool.eqb].

(** C3.  On a frame whose [type] is [disconnect], [receive] first rejects
    every continuation of the table with a [DisconnectedError] that carries
    the frame's [reason] and empties the table, and then tells the cable:
    [close(err)] when [reconnect] is [false], [disconnected(err)] for every
    other value of [reconnect], an absent one too.  It returns
    [undefined]. *)
Theorem receive_disconnect (frame : JsObject JsValue) (s : State) :
  obj_get "type" frame = Some (JStr "disconnect") ->
  receive (JObj frame) s =
  (Normal RUndefined,
   cleared
     (after s
        (rejections (DisconnectedError (get_prop (JObj frame) "reason"))
           (pendingSubscriptions s) ++
         [disconnect_signal (get_prop (JObj frame) "reconnect")
            (DisconnectedError (get_prop (JObj frame) "reason"))]))).
Proof.
  intros H. receive_frame H.
  rewrite disconnect_signal_spec.
  unfold bind. cbv beta. rewrite reset_spec.
  unfold emit, ret, cleared, after. simpl. now rewrite <- List.app_assoc.
Qed.

(** A server asks the client not to come back while one subscription is
    pending. *)
Definition goodbye : JsObject JsValue :=
  [("type", JStr "disconnect"); ("reason", JStr "unauthorized");
   ("reconnect", JBool false)].

Lemma receive_disconnect_witness :
  obj_get "type" goodbye = Some (JStr "disconnect") /\
  receive (JObj goodbye) (snd (subscribe "chat" None constructor))
  = (Normal RUndefined,
     {| pendingSubscriptions := [];
        promises := 1;
        effects :=
          [CableSend [("command", JStr "subscribe");
                      ("identifier", JStr (subscription_identifier "chat" None))];
           Reject 0 (DisconnectedError (JStr "unauthorized"));
           CableClose (DisconnectedError (JStr "unauthorized"))] |}).
Proof.
  split; [reflexivity|].
  rewrite (receive_disconnect goodbye
             (snd (subscribe "chat" None constructor)) eq_refl).
  reflexivity.
Defined.

(** The two replies to [subscribe]: what [receive] does to the promise of
    the entry it found. *)
Definition settle_with (type : string) (p : PromiseId) (identifier : JsValue)
  : Effect :=
  if type =? "confirm_subscription" then Resolve p identifier
  else Reject p SubscriptionRejectedError.

(** The method of the continuation that a reply calls. *)
Definition reply_method (type : string) : string :=
  if type =? "confirm_subscription" then "resolve" else "reject".

(** What a reply to [subscribe] does, by what the lookup of its
    identifier gives. *)
Definition reply (type : string) (identifier : JsValue) (s : State)
  : Completion Returned * State :=
  match to_property_key identifier with
  | None => (Throw not_primitive, s)
  | Some key =>
      match obj_lookup key (pendingSubscriptions s) with
      | OwnProperty p =>
          (Normal RUndefined, after s [settle_with type p identifier])
      | InheritedMember => (Throw (not_a_function (reply_method type)), s)
      | NoProperty =>
          (Normal
             (RResultOf
                (LoggerError "subscription not found"
                   [("identifier", identifier)])),
           after s
             [LoggerError "subscription not found"
                [("identifier", identifier)]])
      end
  end.

(** [receive] on an object or an array, with the monad run. *)
Definition frame_outcome (msg : JsValue) (s : State)
  : Completion Returned * State :=
  let type := get_prop msg "type" in
  let identifier := get_prop msg "identifier" in
  let message := get_prop msg "message" in
  let err := DisconnectedError (get_prop msg "reason") in
  if strict_eq type (JStr "ping") then
    (Normal (RResultOf (CableKeepalive message)),
     after s [CableKeepalive message])
  else if strict_eq type (JStr "welcome") then
    (Normal (RResultOf CableConnected), after s [CableConnected])
  else if strict_eq type (JStr "disconnect") then
    (Normal RUndefined,
     cleared
       (after s
          (rejections err (pendingSubscriptions s) ++
           [disconnect_signal (get_prop msg "reconnect") err])))
  else if strict_eq type (JStr "confirm_subscription") then
    reply "confirm_subscription" identifier s
  else if strict_eq type (JStr "reject_subscription") then
    reply "reject_subscription" identifier s
  else if truthy message then (Normal (RRouted identifier message), s)
  else
    match to_string type with
    | None => (Throw not_primitive, s)
    | Some name =>
        (Normal RUndefined,
         after s
           [LoggerWarn ("unknown message type: " ++ name) [("message", msg)]])
    end.

Lemma lookup_reply (type : string) (identifier : JsValue) (s : State) :
  type = "confirm_subscription" \/ type = "reject_subscription" ->
  (subscription <- lookup_subscription identifier ;;
   match subscription with
   | NoProperty =>
       tail_call (LoggerError "subscription not found"
                    [("identifier", identifier)])
   | OwnProperty p => emit (settle_with type p identifier) ;; ret RUndefined
   | InheritedMember => throw (not_a_function (reply_method type))
   end) s = reply type identifier s.
Proof.
  intros _. unfold reply, lookup_subscription, bind.
  destruct (to_property_key identifier) as [key|]; [|reflexivity].
  unfold get_pending, bind, ret. cbv beta iota.
  destruct (obj_lookup key (pendingSubscriptions s)); reflexivity.
Qed.

Lemma receive_outcome (msg : JsValue) (s : State) :
  typeof msg = "object" -> msg <> JNull ->
  receive msg s = frame_outcome msg s.
Proof.
  intros Hobj Hnull. unfold receive, frame_outcome. rewrite Hobj.
  change (negb ("object" =? "object")) with false. cbv iota zeta.
  assert (Hd : destructure msg =
               ret (get_prop msg "type", get_prop msg "identifier",
                    get_prop msg "message", get_prop msg "reason",
                    get_prop msg "reconnect")).
  { destruct msg; try reflexivity; [discriminate Hobj | congruence]. }
  rewrite Hd. unfold bind at 1, ret at 1. cbv iota beta.
  destruct (strict_eq (get_prop msg "type") (JStr "ping")); [reflexivity|].
  destruct (strict_eq (get_prop msg "type") (JStr "welcome")); [reflexivity|].
  destruct (strict_eq (get_prop msg "type") (JStr "disconnect")).
  { rewrite disconnect_signal_spec. unfold bind. cbv beta.
    rewrite reset_spec. unfold emit, ret, cleared, after. simpl.
    now rewrite <- List.app_assoc. }
  destruct (strict_eq (get_prop msg "type") (JStr "confirm_subscription")).
  { apply (lookup_reply "confirm_subscription"). now left. }
  destruct (strict_eq (get_prop msg "type") (JStr "reject_subscription")).
  { apply (lookup_reply "reject_subscription"). now right. }
  destruct (truthy (get_prop msg "message")); [reflexivity|].
  destruct (to_string (get_prop msg "type")); reflexivity.
Qed.

(** What [receive] does with a reply to [subscribe]. *)
Lemma receive_reply (frame : JsObject JsValue) (s : State) (type : string) :
  type = "confirm_subscription" \/ type = "reject_subscription" ->
  obj_get "type" frame = Some (JStr type) ->
  receive (JObj frame) s = reply type (get_prop (JObj frame) "identifier") s.
Proof.
  intros Htype H. rewrite receive_outcome by (reflexivity || discriminate).
  unfold frame_outcome. rewrite (get_prop_some _ _ _ H).
  destruct Htype as [-> | ->]; reflexivity.
Qed.

(** C6 at [null].  [typeof null] is ["object"], so [null] passes the guard
    of [receive] and the destructuring of [msg] throws a [TypeError]:
    nothing is logged and the state is as before. *)
Theorem receive_null_throws (s : State) :
  receive JNull s =
  (Throw (TypeError
            "Cannot destructure property 'type' of 'msg' as it is null."), s).
Proof.
  reflexivity.
Qed.

(** A value that is not an object is logged and dropped. *)
Lemma receive_non_object (msg : JsValue) (s : State) :
  typeof msg <> "object" ->
  receive msg s =
  (Normal RUndefined,
   after s [LoggerError "unsupported message format" [("message", msg)]]).
Proof.
  intros H. destruct msg; try reflexivity; now elim H.
Qed.

(** The frames [receive] logs as unknown: an object frame whose [type] is
    none of the five known ones and can be printed, and whose [message] is
    absent or falsy. *)
Lemma receive_unknown (frame : JsObject JsValue) (s : State) (name : string) :
  strict_eq (get_prop (JObj frame) "type") (JStr "ping") = false ->
  strict_eq (get_prop (JObj frame) "type") (JStr "welcome") = false ->
  strict_eq (get_prop (JObj frame) "type") (JStr "disconnect") = false ->
  strict_eq (get_prop (JObj frame) "type") (JStr "confirm_subscription")
    = false ->
  strict_eq (get_prop (JObj frame) "type") (JStr "reject_subscription")
    = false ->
  truthy (get_prop (JObj frame) "message") = false ->
  to_string (get_prop (JObj frame) "type") = Some name ->
  receive (JObj frame) s =
  (Normal RUndefined,
   after s
     [LoggerWarn ("unknown message type: " ++ name)
        [("message", JObj frame)]]).
Proof.
  intros H1 H2 H3 H4 H5 H6 H7.
  rewrite receive_outcome by (reflexivity || discriminate).
  unfold frame_outcome. now rewrite H1, H2, H3, H4, H5, H6, H7.
Qed.

(** *** The table of pending subscriptions *)

Lemma obj_get_In {A} (k : string) (v : A) (o : JsObject A) :
  obj_get k o = Some v -> In v (map snd o).
Proof.
  induction o as [|[k' v'] r IH]; simpl; [discriminate|].
  destruct (k' =? k); [intros [= ->]; now left | auto].
Qed.

(** A reply leaves the table alone and adds at most one effect. *)
Lemma reply_cases (type : string) (identifier : JsValue) (s : State) :
  snd (reply type identifier s) = s \/
  exists e, snd (reply type identifier s) = after s [e].
Proof.
  unfold reply. destruct (to_property_key identifier) as [key|]; [|now left].
  destruct (obj_lookup key (pendingSubscriptions s));
    [right | left | right]; try reflexivity; eexists; reflexivity.
Qed.

(** What a frame can do to the state: it adds effects, and either leaves
    the table alone or rejects all of it and empties it. *)
Lemma receive_cases (msg : JsValue) (s : State) :
  promises (snd (receive msg s)) = promises s /\
  ((pendingSubscriptions (snd (receive msg s)) = pendingSubscriptions s /\
    exists es, effects (snd (receive msg s)) = effects s ++ es) \/
   (pendingSubscriptions (snd (receive msg s)) = [] /\
    exists err es,
      effects (snd (receive msg s)) =
      effects s ++ rejections err (pendingSubscriptions s) ++ es))%list.
Proof.
  assert (Hsame : promises s = promises s /\
            ((pendingSubscriptions s = pendingSubscriptions s /\
              exists es, effects s = effects s ++ es) \/
             (pendingSubscriptions s = [] /\
              exists err es,
                effects s =
                effects s ++ rejections err (pendingSubscriptions s) ++ es))%list).
  { split; [reflexivity|]. left. split; [reflexivity|]. exists [].
    now rewrite List.app_nil_r. }
  assert (Hafter : forall es,
            promises (after s es) = promises s /\
            ((pendingSubscriptions (after s es) = pendingSubscriptions s /\
              exists es', effects (after s es) = effects s ++ es') \/
             (pendingSubscriptions (after s es) = [] /\
              exists err es',
                effects (after s es) =
                effects s ++ rejections err (pendingSubscriptions s) ++ es'))%list).
  { intros es. split; [reflexivity|]. left. split; [reflexivity|].
    now exists es. }
  assert (Hreply : forall type i,
            promises (snd (reply type i s)) = promises s /\
            ((pendingSubscriptions (snd (reply type i s))
              = pendingSubscriptions s /\
              exists es, effects (snd (reply type i s)) = effects s ++ es) \/
             (pendingSubscriptions (snd (reply type i s)) = [] /\
              exists err es,
                effects (snd (reply type i s)) =
                effects s ++ rejections err (pendingSubscriptions s) ++ es))%list).
  { intros type i. destruct (reply_cases type i s) as [-> | [e ->]];
      [exact Hsame | apply Hafter]. }
  destruct msg as [| |b|n|t|l|ps]; try apply Hafter; try exact Hsame.
  rewrite receive_outcome by (reflexivity || discriminate).
  unfold frame_outcome.
  repeat match goal with
         | |- context [if ?b then _ else _] => destruct b
         end;
    try apply Hafter; try apply Hreply; try exact Hsame.
  - simpl. split; [reflexivity|]. right. split; [reflexivity|].
    eexists. eexists. reflexivity.
  - destruct (to_string _); [apply Hafter | exact Hsame].
Qed.

(** An identifier is the text of an object: it starts with a brace, and so
    is no name that [Object.prototype] has. *)
Lemma JSON_stringify_object_head (o : JsObject JsValue) :
  exists t, JSON_stringify_object o = String "{" t.
Proof.
  unfold JSON_stringify_object. cbn [serialize]. eexists. reflexivity.
Qed.

Lemma subscription_identifier_head channel params :
  exists t, subscription_identifier channel params = String "{" t.
Proof.
  apply JSON_stringify_object_head.
Qed.

Lemma subscription_identifier_key channel params :
  subscription_identifier channel params <> "__proto__".
Proof.
  destruct (subscription_identifier_head channel params) as [t ->].
  discriminate.
Qed.

Lemma subscribe_spec (channel : string) (params : option (JsObject JsValue))
  (s : State) :
  subscribe channel params s =
  (Normal (promises s),
   {| pendingSubscriptions :=
        obj_set (subscription_identifier channel params) (promises s)
          (pendingSubscriptions s);
      promises := S (promises s);
      effects :=
        effects s ++
        [CableSend [("command", JStr "subscribe");
                    ("identifier",
                     JStr (subscription_identifier channel params))]] |}).
Proof.
  reflexivity.
Qed.





(** *** [unsubscribe] and [perform] *)



(** *** Promises that [reset] cannot reach *)

(** A [subscribe] whose identifier is in the table with a promise that is
    still pending: the call takes the place of that continuation. *)
Definition replaces_pending (c : Call) (s : State) : bool :=
  match c with
  | CallSubscribe channel params =>
      match obj_get (subscription_identifier channel params)
              (pendingSubscriptions s) with
      | Some p =>
          match promise_state p (effects s) with
          | Pending => true
          | _ => false
          end
      | None => false
      end
  | _ => false
  end.

(** No call of the sequence replaces a pending continuation. *)
Fixpoint no_replacement (cs : list Call) (s : State) : bool :=
  match cs with
  | [] => true
  | c :: r => negb (replaces_pending c s) && no_replacement r (call c s)
  end.

(** Every promise that is pending has its continuation in the table. *)
Definition tracked (s : State) : Prop :=
  forall p, p < promises s -> promise_state p (effects s) = Pending ->
            exists k, obj_get k (pendingSubscriptions s) = Some p.

Lemma promise_state_pending_app p es1 es2 :
  promise_state p (es1 ++ es2)%list = Pending ->
  promise_state p es1 = Pending /\ promise_state p es2 = Pending.
Proof.
  rewrite promise_state_app.
  destruct (promise_state p es1); [tauto | discriminate | discriminate].
Qed.

(** After the rejections of [reset], no tracked promise is pending. *)
Lemma tracked_rejected s err es p :
  tracked s -> p < promises s ->
  promise_state p
    (effects s ++ rejections err (pendingSubscriptions s) ++ es)%list
  <> Pending.
Proof.
  intros Ht Hp H.
  apply promise_state_pending_app in H. destruct H as [H1 H2].
  apply promise_state_pending_app in H2. destruct H2 as [H2 _].
  rewrite promise_state_rejections in H2.
  destruct (Ht p Hp H1) as [k Hk]. apply obj_get_In in Hk.
  apply existsb_eqb_In in Hk. rewrite Hk in H2. discriminate.
Qed.

Lemma call_tracked (c : Call) (s : State) :
  tracked s -> replaces_pending c s = false -> tracked (call c s).
Proof.
  intros Ht Hc. destruct c as [ch ps|i|i a pl|m|e]; unfold call.
  - rewrite subscribe_spec. intros p Hp Hpend. simpl in *.
    apply promise_state_pending_app in Hpend. destruct Hpend as [Hpend _].
    destruct (Nat.eq_dec p (promises s)) as [->|Hne].
    + exists (subscription_identifier ch ps).
      apply obj_get_set_same, subscription_identifier_key.
    + destruct (Ht p ltac:(lia) Hpend) as [k Hk].
      exists k. rewrite obj_get_set_other; [assumption|].
      intros ->. rewrite Hk, Hpend in Hc. discriminate.
  - intros p Hp Hpend. simpl in *.
    apply promise_state_pending_app in Hpend. now apply Ht.
  - intros p Hp Hpend. simpl in *.
    apply promise_state_pending_app in Hpend. now apply Ht.
  - intros p Hp Hpend.
    destruct (receive_cases m s) as [Hn [[Hsame [es Hes]]|[_ (err & es & Hes)]]];
      rewrite Hn in Hp; rewrite Hes in Hpend.
    + rewrite Hsame. apply promise_state_pending_app in Hpend.
      now apply Ht.
    + exfalso. exact (tracked_rejected s err es p Ht Hp Hpend).
  - intros p Hp Hpend. rewrite reset_spec in *. simpl in *.
    exfalso. apply (tracked_rejected s e [] p Ht Hp).
    now rewrite List.app_nil_r.
Qed.

Lemma run_tracked (cs : list Call) (s : State) :
  tracked s -> no_replacement cs s = true -> tracked (run cs s).
Proof.
  revert s. induction cs as [|c r IH]; intros s Ht Hcs; simpl in *.
  - assumption.
  - apply andb_true_iff in Hcs. destruct Hcs as [Hc Hr].
    apply negb_true_iff in Hc. apply IH; [now apply call_tracked | assumption].
Qed.

(** C7, as amended.  [reset(err)] returns normally, calls [reject(err)] on
    every continuation of the table, in the order of the table, and nothing
    else, and leaves the table empty: a pending promise whose continuation
    is in the table is rejected with exactly [err], every other promise
    keeps its state.  On a protocol object on which no [subscribe] took the
    place of a continuation whose promise was still pending, no promise that
    [subscribe] returned is pending after [reset]. *)
Theorem reset_settles_subscriptions (cs : list Call) (err : JsError) :
  no_replacement cs constructor = true ->
  reset err (run cs constructor) =
    (Normal tt,
     cleared
       (after (run cs constructor)
          (rejections err (pendingSubscriptions (run cs constructor))))) /\
  (forall p, In p (map snd (pendingSubscriptions (run cs constructor))) ->
     promise_state p (effects (run cs constructor)) = Pending ->
     promise_state p (effects (snd (reset err (run cs constructor))))
     = Rejected err) /\
  (forall p, ~ In p (map snd (pendingSubscriptions (run cs constructor))) ->
     promise_state p (effects (snd (reset err (run cs constructor)))) =
     promise_state p (effects (run cs constructor))) /\
  (forall p, p < promises (run cs constructor) ->
     promise_state p (effects (snd (reset err (run cs constructor))))
     <> Pending).
Proof.
  intros Hcs. set (s := run cs constructor).
  destruct (reset_rejects_table err s) as (Hreset & _ & Hin & Hout).
  split; [exact Hreset | split; [|split; [exact Hout|]]].
  - intros p Hp Hpend. rewrite (Hin p Hp), Hpend. reflexivity.
  - intros p Hp. rewrite Hreset. simpl.
    assert (Ht : tracked s).
    { apply run_tracked; [|assumption]. intros q Hq. inversion Hq. }
    intros H. apply (tracked_rejected s err [] p Ht Hp).
    now rewrite List.app_nil_r.
Qed.

(** Two channels, one of them confirmed and subscribed to again. *)
Definition two_channels : list Call :=
  [CallSubscribe "chat" None;
   CallSubscribe "news" None;
   CallReceive
     (JObj [("type", JStr "confirm_subscription");
            ("identifier", JStr (subscription_identifier "chat" None))]);
   CallSubscribe "chat" None].

Lemma reset_settles_subscriptions_witness :
  no_replacement two_channels constructor = true /\
  promise_state 2
    (effects
       (snd (reset (DisconnectedError (JStr "lost"))
               (run two_channels constructor))))
  = Rejected (DisconnectedError (JStr "lost")).
Proof.
  split; [reflexivity|].
  apply (proj1 (proj2
    (reset_settles_subscriptions two_channels
       (DisconnectedError (JStr "lost")) eq_refl))).
  - cbv. left. reflexivity.
  - reflexivity.
Defined.

(** *** Identifiers that name a member of [Object.prototype] *)

(** A key that starts with a brace. *)
Definition braced (k : string) : Prop := exists t, k = String "{" t.

(** On a protocol object every key of the table is an identifier that
    [subscribe] made. *)
Lemma call_braced (c : Call) (s : State) :
  Forall braced (obj_keys (pendingSubscriptions s)) ->
  Forall braced (obj_keys (pendingSubscriptions (call c s))).
Proof.
  intros Hs. destruct c as [ch ps|i|i a p|m|e]; simpl.
  - apply Forall_forall. intros k Hk. apply obj_keys_set in Hk.
    destruct Hk as [Hk | [-> _]].
    + rewrite Forall_forall in Hs. now apply Hs.
    + apply subscription_identifier_head.
  - assumption.
  - assumption.
  - destruct (receive_cases m s) as [_ [[-> _]|[-> _]]];
      [assumption | constructor].
  - rewrite reset_spec. constructor.
Qed.

Lemma run_braced (cs : list Call) (s : State) :
  Forall braced (obj_keys (pendingSubscriptions s)) ->
  Forall braced (obj_keys (pendingSubscriptions (run cs s))).
Proof.
  revert s. induction cs as [|c r IH]; intros s Hs; simpl.
  - assumption.
  - apply IH. now apply call_braced.
Qed.

Lemma inherited_not_braced (k : string) : inherited k = true -> ~ braced k.
Proof.
  unfold inherited. rewrite existsb_exists. intros (x & Hx & E) [t Ht].
  apply String.eqb_eq in E. subst x k.
  simpl in Hx. repeat (destruct Hx as [Hx|Hx]; [discriminate Hx|]).
  contradiction.
Qed.

(** So the table of a protocol object has no key that [Object.prototype]
    has: looking one up finds the inherited member. *)
Lemma lookup_inherited (cs : list Call) (k : string) :
  inherited k = true ->
  obj_lookup k (pendingSubscriptions (run cs constructor)) = InheritedMember.
Proof.
  intros Hk. unfold obj_lookup.
  destruct (obj_get k (pendingSubscriptions (run cs constructor))) as [p|] eqn:E.
  - exfalso. apply (inherited_not_braced k Hk).
    assert (Hin : In k (obj_keys (pendingSubscriptions (run cs constructor)))).
    { destruct (in_dec string_dec k
                  (obj_keys (pendingSubscriptions (run cs constructor))))
        as [Hin|Hout]; [assumption|].
      apply obj_get_none_keys in Hout. congruence. }
    pose proof (run_braced cs constructor (Forall_nil _)) as H.
    rewrite Forall_forall in H. now apply H.
  - now rewrite Hk.
Qed.

(** C8 at an identifier that names a member of [Object.prototype], such as
    [toString].  On a protocol object, whatever calls were made before, the
    table has no entry of that name, yet the lookup finds the member that an
    object inherits; it is truthy, so the guard for a missing entry lets it
    pass, and the call of its [resolve] or [reject] throws a [TypeError]:
    nothing is logged, and the state is as before. *)
Theorem receive_reply_inherited_name (cs : list Call) :
  Forall
    (fun name =>
       obj_get name (pendingSubscriptions (run cs constructor)) = None /\
       receive
         (JObj [("type", JStr "confirm_subscription");
                ("identifier", JStr name)]) (run cs constructor)
       = (Throw (TypeError "subscription.resolve is not a function"),
          run cs constructor) /\
       receive
         (JObj [("type", JStr "reject_subscription");
                ("identifier", JStr name)]) (run cs constructor)
       = (Throw (TypeError "subscription.reject is not a function"),
          run cs constructor))
    Object_prototype.
Proof.
  apply Forall_forall. intros name Hin.
  assert (Hk : inherited name = true).
  { unfold inherited. apply existsb_exists. exists name.
    split; [assumption | apply String.eqb_refl]. }
  pose proof (lookup_inherited cs name Hk) as Hl.
  split; [|split].
  - unfold obj_lookup in Hl.
    now destruct (obj_get name (pendingSubscriptions (run cs constructor))).
  - rewrite (receive_reply
               [("type", JStr "confirm_subscription");
                ("identifier", JStr name)] _ "confirm_subscription"
               (or_introl eq_refl) eq_refl).
    unfold reply. cbn [get_prop obj_get String.eqb Ascii.eqb Bool.eqb].
    cbn [to_property_key to_string]. now rewrite Hl.
  - rewrite (receive_reply
               [("type", JStr "reject_subscription");
                ("identifier", JStr name)] _ "reject_subscription"
               (or_intror eq_refl) eq_refl).
    unfold reply. cbn [get_prop obj_get String.eqb Ascii.eqb Bool.eqb].
    cbn [to_property_key to_string]. now rewrite Hl.
Qed.

End ProtocolFacts.
(** ** Facts about the factory *)

Module FactoryFacts.
Import Js.
Import ActionCable.
Import CreateCable.

(** *** Configuration errors *)

(** The URL and the options [createCable] works with: an object given in
    the place of the URL, with no second argument, is the options. *)
Definition arguments (url : UrlArg) (opts : option Options)
  : UrlArg * Options :=
  match url, opts with
  | UrlObject o, None => (UrlUndefined, o)
  | _, Some o => (url, o)
  | _, None => (url, no_options)
  end.

Definition known_protocol (name : string) : Prop :=
  name = "actioncable-v1-json" \/
  name = "actioncable-v1-msgpack" \/
  name = "actioncable-v1-protobuf".

Definition needs_encoder (name : string) : Prop :=
  name = "actioncable-v1-msgpack" \/ name = "actioncable-v1-protobuf".


Lemma createCable_arguments env url opts :
  createCable env url opts =
  createCable env (fst (arguments url opts)) (Some (snd (arguments url opts))).
Proof.
  destruct url as [|u|o], opts as [o'|]; reflexivity.
Qed.

Ltac protocol_name name :=
  let H1 := fresh "Hjson" in
  let H2 := fresh "Hmsgpack" in
  let H3 := fresh "Hprotobuf" in
  destruct (String.eqb_spec name "actioncable-v1-json") as [H1|H1];
  [subst name
  |destruct (String.eqb_spec name "actioncable-v1-msgpack") as [H2|H2];
    [subst name
    |destruct (String.eqb_spec name "actioncable-v1-protobuf") as [H3|H3];
      [subst name|]]].

(** Imports whose every call returns. *)
Definition returning : Imports :=
  {| new_NoopLogger := fun _ => None;
     new_JSONEncoder := None;
     new_WebSocketTransport := fun _ _ _ _ => None;
     call_backoffWithJitter := fun _ => None;
     new_Monitor := fun _ _ _ _ _ => None;
     new_Cable := fun _ _ _ _ _ => None;
     monitor_watch := fun _ => None;
     cable_on_close := None |}.

(** Some call of the imports throws [e]. *)
Definition thrown_by (env : Imports) (e : JsError) : Prop :=
  (exists level, new_NoopLogger env level = Some e) \/
  new_JSONEncoder env = Some e \/
  (exists url impl sub format,
     new_WebSocketTransport env url impl sub format = Some e) \/
  (exists ping, call_backoffWithJitter env ping = Some e) \/
  (exists ping strategy missing attempts logger,
     new_Monitor env ping strategy missing attempts logger = Some e) \/
  (exists protocol transport encoder logger lazy,
     new_Cable env protocol transport encoder logger lazy = Some e) \/
  (exists monitor, monitor_watch env monitor = Some e) \/
  cable_on_close env = Some e.

Lemma returning_throws_nothing e : ~ thrown_by returning e.
Proof.
  unfold thrown_by, returning. simpl.
  intros [[? H]|[H|[(? & ? & ? & ? & H)|[[? H]|[(? & ? & ? & ? & ? & H)|
          [(? & ? & ? & ? & ? & H)|[[? H]|H]]]]]]]; discriminate.
Qed.

(** The message of the error for a protocol that needs an encoder. *)
Definition encoder_error (name : string) : JsError :=
  if name =? "actioncable-v1-msgpack"
  then Error "Msgpack encoder must be specified explicitly. Use `@anycable/msgpack-encoder` package or build your own"
  else Error "Protobuf encoder must be specified explicitly. Use `@anycable/protobuf-encoder` package or build your own".

(** What [createCable] does once the protocol is chosen: the transport,
    the logger, the reconnect strategy, the monitor and the cable. *)
Definition assemble (env : Imports) (url : UrlArg) (opts : Options)
  (protocol : CableProtocol) (encoder : option CableEncoder)
  (websocketFormat : option string) : Completion Cable :=
  let pingInterval := over DEFAULT_pingInterval (pingInterval opts) in
  let maxReconnectAttempts :=
    over DEFAULT_maxReconnectAttempts (maxReconnectAttempts opts) in
  let maxMissingPings :=
    over DEFAULT_maxMissingPings (maxMissingPings opts) in
  let logLevel := over DEFAULT_logLevel (logLevel opts) in
  let lazy := over DEFAULT_lazy (lazy opts) in
  let subprotocol :=
    match over DEFAULT_protocol (CreateCable.protocol opts) with
    | Some (ProtocolId name) =>
        string_or (value (subprotocol opts)) (Some name)
    | _ => value (subprotocol opts)
    end in
  calling
    (match value (transport opts) with
     | Some _ => None
     | None =>
         new_WebSocketTransport env url
           (value (websocketImplementation opts))
           subprotocol websocketFormat
     end)
  (let transport :=
     match value (transport opts) with
     | Some t => GivenTransport t
     | None =>
         NewWebSocketTransport url
           (value (websocketImplementation opts))
           subprotocol websocketFormat
     end in
   calling
     (match value (logger opts) with
      | Some _ => None
      | None => new_NoopLogger env logLevel
      end)
   (let logger :=
      match value (logger opts) with
      | Some l => GivenLogger l
      | None => NewNoopLogger logLevel
      end in
    calling
      (match value (reconnectStrategy opts) with
       | Some _ => None
       | None => call_backoffWithJitter env pingInterval
       end)
    (let reconnectStrategy :=
       match value (reconnectStrategy opts) with
       | Some r => GivenStrategy r
       | None => BackoffWithJitter pingInterval
       end in
     calling
       (match value (monitor opts) with
        | Some _ => None
        | None =>
            new_Monitor env pingInterval reconnectStrategy
              maxMissingPings maxReconnectAttempts logger
        end)
     (let monitor :=
        match value (monitor opts) with
        | Some MonitorFalse => None
        | Some (MonitorInstance m) => Some (GivenMonitor m)
        | None =>
            Some (NewMonitor pingInterval reconnectStrategy
                    maxMissingPings maxReconnectAttempts logger)
        end in
      calling (new_Cable env protocol transport encoder logger lazy)
      (calling
         (match monitor with
          | Some m => monitor_watch env m
          | None => None
          end)
      (calling
         (match value (tokenRefresher opts) with
          | Some _ => cable_on_close env
          | None => None
          end)
      (Normal {| cable_protocol := protocol;
                 cable_transport := transport;
                 cable_encoder := encoder;
                 cable_logger := logger;
                 cable_lazy := lazy;
                 cable_monitor := monitor;
                 cable_tokenRefresher := value (tokenRefresher opts) |}
      ))))))).

(** [createCable] on a URL and options, in its three steps. *)
Lemma createCable_steps env (u : UrlArg) (o : Options) :
  createCable env u (Some o) =
  if negb (url_truthy u) &&
     negb (match value (transport o) with Some _ => true | None => false end)
  then Throw (Error "URL or transport must be specified")
  else
    match select_protocol env (over DEFAULT_protocol (protocol o))
            (value (encoder o)) (value (websocketFormat o)) with
    | Throw e => Throw e
    | Normal (None, _, _) => Throw (Error "Protocol must be specified")
    | Normal (Some p, enc, fmt) => assemble env u o p enc fmt
    end.
Proof.
  unfold createCable.
  replace (match u with
           | UrlObject _ => (u, Some o)
           | _ => (u, Some o)
           end) with (u, Some o) by now destruct u.
  reflexivity.
Qed.

(** The subprotocol handed to the websocket transport. *)
Definition websocket_subprotocol (o : Options) : option string :=
  match over DEFAULT_protocol (protocol o) with
  | Some (ProtocolId name) => string_or (value (subprotocol o)) (Some name)
  | _ => value (subprotocol o)
  end.

(** The logger of the cable. *)
Definition logger_of (o : Options) : CableLogger :=
  match value (logger o) with
  | Some l => GivenLogger l
  | None => NewNoopLogger (over DEFAULT_logLevel (logLevel o))
  end.

(** The cable that [assemble] returns. *)
Definition assembled (u : UrlArg) (o : Options)
  (p : CableProtocol) (enc : option CableEncoder) (fmt : option string)
  : Cable :=
  {| cable_protocol := p;
     cable_transport :=
       match value (transport o) with
       | Some t => GivenTransport t
       | None =>
           NewWebSocketTransport u (value (websocketImplementation o))
             (websocket_subprotocol o) fmt
       end;
     cable_encoder := enc;
     cable_logger := logger_of o;
     cable_lazy := over DEFAULT_lazy (lazy o);
     cable_monitor :=
       match value (monitor o) with
       | Some MonitorFalse => None
       | Some (MonitorInstance m) => Some (GivenMonitor m)
       | None =>
           Some (NewMonitor (over DEFAULT_pingInterval (pingInterval o))
                   match value (reconnectStrategy o) with
                   | Some r => GivenStrategy r
                   | None =>
                       BackoffWithJitter
                         (over DEFAULT_pingInterval (pingInterval o))
                   end
                   (over DEFAULT_maxMissingPings (maxMissingPings o))
                   (over DEFAULT_maxReconnectAttempts (maxReconnectAttempts o))
                   (logger_of o))
       end;
     cable_tokenRefresher := value (tokenRefresher o) |}.

Ltac step_calls :=
  repeat (cbv beta iota;
          match goal with
          | |- context [calling None _] => cbn [calling]
          | |- context [calling ?x _] =>
              let e := fresh "e" in
              let E := fresh "E" in
              destruct x as [e|] eqn:E; cbn [calling];
              [left; exists e; split;
               [reflexivity | unfold thrown_by; eauto 12]|]
          end).

(** [assemble] returns the cable, or throws what one of its calls throws. *)
Lemma assemble_cases env u o p enc fmt :
  (exists e, assemble env u o p enc fmt = Throw e /\ thrown_by env e) \/
  assemble env u o p enc fmt = Normal (assembled u o p enc fmt).
Proof.
  unfold assembled, assemble, websocket_subprotocol, logger_of. cbv zeta.
  destruct (value (transport o)) as [t|],
           (value (logger o)) as [l|],
           (value (reconnectStrategy o)) as [r|],
           (value (monitor o)) as [[|m]|],
           (value (tokenRefresher o)) as [f|];
    step_calls; right; reflexivity.
Qed.

(** The choice of the protocol throws one of its own errors, or what a
    constructor throws. *)
Lemma select_protocol_cases env protocol encoder format :
  match protocol with
  | Some (ProtocolId name) =>
      (~ known_protocol name /\
       select_protocol env protocol encoder format =
         Throw (Error ("Protocol is not supported yet: " ++ name))) \/
      (known_protocol name /\
       ((exists e, new_NoopLogger env None = Some e /\
                   select_protocol env protocol encoder format = Throw e) \/
        (new_NoopLogger env None = None /\
         ((needs_encoder name /\ encoder = None /\
           select_protocol env protocol encoder format =
             Throw (encoder_error name)) \/
          (name = "actioncable-v1-json" /\ encoder = None /\
           exists e, new_JSONEncoder env = Some e /\
                     select_protocol env protocol encoder format = Throw e) \/
          (~ (needs_encoder name /\ encoder = None) /\
           exists p enc fmt,
             select_protocol env protocol encoder format =
               Normal (Some p, enc, fmt))))))
  | Some (ProtocolInstance h) =>
      select_protocol env protocol encoder format =
        Normal (Some (GivenProtocol h), option_map GivenEncoder encoder, format)
  | None =>
      select_protocol env protocol encoder format =
        Normal (None, option_map GivenEncoder encoder, format)
  end.
Proof.
  destruct protocol as [[name|h]|]; [|reflexivity|reflexivity].
  unfold select_protocol, known_protocol, needs_encoder, encoder_error,
    new_ActionCableProtocol.
  protocol_name name; cbn [String.eqb Ascii.eqb Bool.eqb].
  - right. split; [tauto|].
    destruct (new_NoopLogger env None) as [e|]; cbn [calling];
      [left; eauto|right; split; [reflexivity|]].
    destruct encoder as [enc|].
    + right. right. split; [intros [_ H]; discriminate | eauto].
    + destruct (new_JSONEncoder env) as [e|]; cbn [calling].
      * right. left. eauto.
      * right. right. split; [intros [[H|H] _]; discriminate | eauto].
  - right. split; [tauto|].
    destruct (new_NoopLogger env None) as [e|]; cbn [calling];
      [left; eauto|right; split; [reflexivity|]].
    destruct encoder as [enc|].
    + right. right. split; [intros [_ H]; discriminate | eauto].
    + left. tauto.
  - right. split; [tauto|].
    destruct (new_NoopLogger env None) as [e|]; cbn [calling];
      [left; eauto|right; split; [reflexivity|]].
    destruct encoder as [enc|].
    + right. right. split; [intros [_ H]; discriminate | eauto].
    + left. tauto.
  - left. split; [tauto | reflexivity].
Qed.


















(** *** The token-refresh workflow *)

(** Whether the listener is unbound. *)
Definition unbound (w : Watch) : nat :=
  match w with
  | Listening => 0
  | _ => 1
  end.

Lemma count_app f (l1 l2 : list Action) :
  count f (l1 ++ l2)%list = count f l1 + count f l2.
Proof.
  unfold count. now rewrite filter_app, length_app.
Qed.

Lemma run_cons w ev evs :
  run w (ev :: evs) =
  (fst (run (fst (step w ev)) evs),
   (snd (step w ev) ++ snd (run (fst (step w ev)) evs))%list).
Proof.
  simpl. destruct (step w ev) as [w1 a1]. simpl.
  now destruct (run w1 evs) as [w2 a2].
Qed.

Lemma run_app w evs1 evs2 :
  run w (evs1 ++ evs2)%list =
  (fst (run (fst (run w evs1)) evs2),
   (snd (run w evs1) ++ snd (run (fst (run w evs1)) evs2))%list).
Proof.
  revert w. induction evs1 as [|ev r IH]; intros w.
  - simpl. now destruct (run w evs2).
  - rewrite <- List.app_comm_cons, !run_cons, IH. simpl.
    now rewrite List.app_assoc.
Qed.

(** Every call of the refresher unbinds the listener, and only a [Bind]
    brings it back. *)
Lemma step_balance w ev :
  count is_refresher_call (snd (step w ev)) + unbound w =
  count is_bind (snd (step w ev)) + unbound (fst (step w ev)).
Proof.
  destruct w as [| | |[]|], ev as [reason|[|err]|[|err]|]; try reflexivity.
  simpl. now destruct (strict_eq reason (JStr "token_expired")).
Qed.

Lemma run_balance evs w :
  count is_refresher_call (snd (run w evs)) + unbound w =
  count is_bind (snd (run w evs)) + unbound (fst (run w evs)).
Proof.
  revert w. induction evs as [|ev r IH]; intros w.
  - reflexivity.
  - rewrite run_cons. simpl fst. simpl snd. rewrite !count_app.
    pose proof (step_balance w ev). pose proof (IH (fst (step w ev))). lia.
Qed.

(** Once stopped, the workflow stays stopped and does nothing. *)
Lemma run_stopped evs : run Stopped evs = (Stopped, []).
Proof.
  induction evs as [|ev r IH]; [reflexivity|].
  rewrite run_cons. destruct ev as [reason|[|err]|[|err]|]; simpl; now rewrite IH.
Qed.

(** The events of a refresh that fails: the refresher rejects, or it
    resolves and [cable.connect()] rejects; then the listener is resumed. *)
Definition failed_refresh (at_connect : bool) (err : string) : list Event :=
  if at_connect
  then [RefresherDone Settled; ConnectDone (Failed err); CallbackDone]
  else [RefresherDone (Failed err); CallbackDone].

(** A close, whatever its reason, that arrives while the callback is
    pending. *)
Lemma run_closes_pending (w : Watch) (reasons : list JsValue) :
  pending w = true -> run w (map Close reasons) = (w, []).
Proof.
  intros Hw. induction reasons as [|reason r IH]; [reflexivity|].
  cbn [map]. rewrite run_cons.
  assert (Hs : step w (Close reason) = (w, []))
    by (destruct w as [| | |[]|]; try discriminate; reflexivity).
  rewrite Hs. cbn [fst snd]. now rewrite IH.
Qed.

(** One refresh that succeeds: the expiry, the refresher resolves,
    [connect()] resolves, the listener is resumed; with the closes that
    arrive during each of the three waits. *)
Definition successful_refresh (during : list JsValue * list JsValue * list JsValue)
  : list Event :=
  let '(r1, r2, r3) := during in
  (Close (JStr "token_expired") :: map Close r1 ++
   RefresherDone Settled :: map Close r2 ++
   ConnectDone Settled :: map Close r3 ++ [CallbackDone])%list.

Lemma run_successful_refresh during :
  run Listening (successful_refresh during)
  = (Listening, [Unbind; CallTokenRefresher; CallConnect; Bind]).
Proof.
  destruct during as [[r1 r2] r3]. unfold successful_refresh.
  rewrite run_cons. cbn [step strict_eq String.eqb Ascii.eqb Bool.eqb fst snd].
  rewrite run_app, (run_closes_pending AwaitingRefresher r1 eq_refl).
  cbn [fst snd]. rewrite run_cons. cbn [step fst snd].
  rewrite run_app, (run_closes_pending AwaitingConnect r2 eq_refl).
  cbn [fst snd]. rewrite run_cons. cbn [step fst snd].
  rewrite run_app, (run_closes_pending (AwaitingCallback true) r3 eq_refl).
  reflexivity.
Qed.

(** What the workflow does for one refresh that succeeds. *)
Definition refreshed : list Action :=
  [Unbind; CallTokenRefresher; CallConnect; Bind].

Lemma run_successful_refreshes rounds :
  run Listening (List.concat (map successful_refresh rounds))
  = (Listening, List.concat (map (fun _ => refreshed) rounds)).
Proof.
  induction rounds as [|r rounds IH]; [reflexivity|].
  cbn [map List.concat]. rewrite run_app, run_successful_refresh.
  cbn [fst snd]. now rewrite IH.
Qed.

Lemma count_refreshed (rounds : list (list JsValue * list JsValue * list JsValue)) :
  count is_refresher_call (List.concat (map (fun _ => refreshed) rounds))
  = List.length rounds /\
  count is_connect_call (List.concat (map (fun _ => refreshed) rounds))
  = List.length rounds.
Proof.
  induction rounds as [|r rounds [IH1 IH2]]; [now split|].
  cbn [map List.concat]. rewrite !count_app, IH1, IH2. now split.
Qed.

(** C4, as amended.  While the callback is pending, a [close] event,
    whatever its reason, changes nothing and calls nothing.  A [close] with
    the reason [token_expired] that reaches the bound listener calls the
    refresher once, and the refresher is called in no other situation, so
    never while a callback is pending.  When the refresher's promise
    resolves, [cable.connect()] is called once, and in no other situation.
    Over any sequence of events, each call of the refresher but the last
    has been followed by a new binding of the listener, and the listener is
    bound when and only when that holds for the last one too.  So the
    refresher and [connect()] are called once for each expiry that finds
    the listener bound: in a run of refreshes that succeed, once each,
    whatever closes arrive in between; and when the next refresh fails,
    once more and then never again. *)
Theorem token_refresh_single_flight :
  (forall w reason, pending w = true -> step w (Close reason) = (w, [])) /\
  step watchForExpiredToken (Close (JStr "token_expired"))
    = (AwaitingRefresher, [Unbind; CallTokenRefresher]) /\
  (forall w ev,
     count is_refresher_call (snd (step w ev)) <= 1 /\
     (In CallTokenRefresher (snd (step w ev)) ->
      w = Listening /\ ev = Close (JStr "token_expired"))) /\
  step AwaitingRefresher (RefresherDone Settled)
    = (AwaitingConnect, [CallConnect]) /\
  (forall w ev,
     count is_connect_call (snd (step w ev)) <= 1 /\
     (In CallConnect (snd (step w ev)) ->
      w = AwaitingRefresher /\ ev = RefresherDone Settled)) /\
  (forall evs,
     count is_refresher_call (snd (run watchForExpiredToken evs)) =
     count is_bind (snd (run watchForExpiredToken evs)) +
     unbound (fst (run watchForExpiredToken evs))) /\
  (forall rounds,
     run watchForExpiredToken (List.concat (map successful_refresh rounds))
     = (Listening, List.concat (map (fun _ => refreshed) rounds))) /\
  (forall rounds at_connect err evs,
     count is_refresher_call
       (snd (run watchForExpiredToken
               (List.concat (map successful_refresh rounds) ++
                Close (JStr "token_expired") ::
                failed_refresh at_connect err ++ evs)%list))
     = S (List.length rounds) /\
     count is_connect_call
       (snd (run watchForExpiredToken
               (List.concat (map successful_refresh rounds) ++
                Close (JStr "token_expired") ::
                failed_refresh at_connect err ++ evs)%list))
     = List.length rounds + (if at_connect then 1 else 0)).
Proof.
  split; [|split; [|split; [|split; [|split; [|split; [|split]]]]]].
  - intros w reason H. destruct w as [| | |[]|]; try discriminate; reflexivity.
  - reflexivity.
  - intros w ev. split.
    + unfold count.
      destruct w as [| | |[]|], ev as [reason|[|err]|[|err]|]; simpl;
        try destruct (strict_eq reason (JStr "token_expired")); simpl; lia.
    + destruct w as [| | |[]|], ev as [reason|[|err]|[|err]|]; simpl;
        try tauto;
        try (intros [H|H]; (discriminate || contradiction)).
      destruct (strict_eq reason (JStr "token_expired")) eqn:E; simpl;
        [|tauto].
      intros _. split; [reflexivity|]. f_equal.
      destruct reason as [| |b|[]|t| |]; simpl in E; try discriminate.
      apply String.eqb_eq in E. now subst.
  - reflexivity.
  - intros w ev. split.
    + unfold count.
      destruct w as [| | |[]|], ev as [reason|[|err]|[|err]|]; simpl;
        try destruct (strict_eq reason (JStr "token_expired")); simpl; lia.
    + destruct w as [| | |[]|], ev as [reason|[|err]|[|err]|]; simpl;
        try destruct (strict_eq reason (JStr "token_expired")); simpl;
        intros Hin; repeat destruct Hin as [Hin|Hin];
        try discriminate; try contradiction; now split.
  - intros evs. pose proof (run_balance evs watchForExpiredToken) as H.
    simpl unbound in H at 1. lia.
  - apply run_successful_refreshes.
  - intros rounds at_connect err evs. unfold watchForExpiredToken.
    rewrite run_app, run_successful_refreshes. cbn [fst snd].
    rewrite run_cons.
    cbn [step strict_eq String.eqb Ascii.eqb Bool.eqb fst snd].
    rewrite run_app.
    assert (H : run AwaitingRefresher (failed_refresh at_connect err) =
                (Stopped,
                 ((if at_connect then [CallConnect] else []) ++
                  [LoggerInfo
                     ("Failed to refresh authentication token: " ++ err)])%list))
      by now destruct at_connect.
    rewrite H. cbn [fst snd]. rewrite run_stopped, List.app_nil_r.
    rewrite !count_app.
    destruct (count_refreshed rounds) as [-> ->].
    destruct at_connect; unfold count; simpl; lia.
Qed.

(** Two expiries, the second long after the refresh for the first has
    failed: nothing is pending when it arrives, and the refresher is not
    called for it. *)
Lemma expiry_after_failed_refresh_ignored :
  fst (run watchForExpiredToken
         [Close (JStr "token_expired"); RefresherDone Settled;
          ConnectDone (Failed "offline"); CallbackDone]) = Stopped /\
  pending Stopped = false /\
  count is_refresher_call
    (snd (run watchForExpiredToken
            [Close (JStr "token_expired"); RefresherDone Settled;
             ConnectDone (Failed "offline"); CallbackDone;
             Close (JStr "token_expired")]))
  = 1.
Proof.
  repeat split.
Qed.

(** C5, as amended.  When the refresher rejects, or it resolves and
    [cable.connect()] rejects, the failure is caught and reported with one
    call of [logger.info]; [cable.connect()] is not called after the
    refresher rejected and not called again after it rejected itself.  When
    the listener is resumed the workflow is over: the listener is not bound
    again, and whatever events follow, further [token_expired] closes
    included, nothing is called. *)
Theorem token_refresh_failure_stops (at_connect : bool) (err : string)
  (evs : list Event) :
  run watchForExpiredToken
    (Close (JStr "token_expired") :: failed_refresh at_connect err ++ evs)%list
  = (Stopped,
     [Unbind; CallTokenRefresher] ++
     (if at_connect then [CallConnect] else []) ++
     [LoggerInfo ("Failed to refresh authentication token: " ++ err)])%list.
Proof.
  rewrite run_cons. simpl step. simpl fst. simpl snd.
  rewrite run_app.
  assert (H : run AwaitingRefresher (failed_refresh at_connect err) =
              (Stopped,
               ((if at_connect then [CallConnect] else []) ++
                [LoggerInfo
                   ("Failed to refresh authentication token: " ++ err)])%list))
    by now destruct at_connect.
  rewrite H. simpl fst. simpl snd. rewrite run_stopped.
  now rewrite List.app_nil_r.
Qed.

(** After a refresher that rejected, the next [token_expired] close does
    not call the refresher again. *)
Lemma token_refresh_not_rearmed :
  run watchForExpiredToken
    [Close (JStr "token_expired"); RefresherDone (Failed "no token");
     CallbackDone; Close (JStr "token_expired")]
  = (Stopped,
     [Unbind; CallTokenRefresher;
      LoggerInfo "Failed to refresh authentication token: no token"]) /\
  count is_refresher_call
    (snd (run watchForExpiredToken
            [Close (JStr "token_expired"); RefresherDone (Failed "no token");
             CallbackDone; Close (JStr "token_expired")]))
  = 1.
Proof.
  split; reflexivity.
Qed.

End FactoryFacts.

(** ** Facts about [JSON.stringify] and the identifier of a subscription *)

Module JsonFacts.
Import Js.
Import ActionCable.

(** *** Strings *)

Lemma append_assoc (a b c : string) : (a ++ b) ++ c = a ++ (b ++ c).
Proof.
  induction a as [|x a IH]; simpl; [reflexivity | now rewrite IH].
Qed.

Lemma append_nil_r (a : string) : a ++ "" = a.
Proof.
  induction a as [|x a IH]; simpl; [reflexivity | now rewrite IH].
Qed.

Lemma length_append (a b : string) :
  String.length (a ++ b) = String.length a + String.length b.
Proof.
  induction a as [|x a IH]; simpl; [reflexivity | now rewrite IH].
Qed.

(** Every character of [s] passes [f]. *)
Fixpoint all (f : ascii -> bool) (s : string) : bool :=
  match s with
  | EmptyString => true
  | String c r => f c && all f r
  end.

(** [r] is empty or starts with a character that fails [f]. *)
Definition stops (f : ascii -> bool) (r : string) : bool :=
  match r with
  | EmptyString => true
  | String c _ => negb (f c)
  end.

Lemma all_app f a b : all f (a ++ b) = all f a && all f b.
Proof.
  induction a as [|x a IH]; simpl; [reflexivity|].
  now rewrite IH, andb_assoc.
Qed.

Lemma all_weaken (f g : ascii -> bool) s :
  (forall c, f c = true -> g c = true) -> all f s = true -> all g s = true.
Proof.
  intros H. induction s as [|c r IH]; simpl; [reflexivity|].
  intros E. apply andb_true_iff in E. destruct E as [E1 E2].
  now rewrite (H c E1), IH.
Qed.

(** A run of characters that pass [f] ends where the first character that
    fails it stands. *)
Lemma run_split f s1 s2 r1 r2 :
  all f s1 = true -> all f s2 = true ->
  stops f r1 = true -> stops f r2 = true ->
  s1 ++ r1 = s2 ++ r2 -> s1 = s2 /\ r1 = r2.
Proof.
  revert s2. induction s1 as [|c s1 IH]; intros [|c' s2]; simpl;
    intros D1 D2 N1 N2 E.
  - now split.
  - subst r1. simpl in N1. apply andb_true_iff in D2.
    destruct D2 as [D2 _]. rewrite D2 in N1. discriminate.
  - subst r2. simpl in N2. apply andb_true_iff in D1.
    destruct D1 as [D1 _]. rewrite D1 in N2. discriminate.
  - injection E as <- E.
    apply andb_true_iff in D1. apply andb_true_iff in D2.
    destruct (IH s2) as [-> ->]; tauto.
Qed.

(** Two texts that agree up to the first [c] agree before and after it. *)
Lemma split_at (c : ascii) a b x y :
  all (fun d => negb (d =? c)%char) a = true ->
  all (fun d => negb (d =? c)%char) b = true ->
  a ++ String c x = b ++ String c y -> a = b /\ x = y.
Proof.
  intros Ha Hb E.
  destruct (run_split _ a b (String c x) (String c y) Ha Hb) as [-> E'];
    try assumption; try (simpl; now rewrite Ascii.eqb_refl).
  now injection E' as ->.
Qed.

Definition is_digit (c : ascii) : bool :=
  (48 <=? N_of_ascii c)%N && (N_of_ascii c <=? 57)%N.

Lemma all_digits_uint d : all is_digit (NilEmpty.string_of_uint d) = true.
Proof.
  induction d; simpl; auto.
Qed.

Lemma all_zeros n : all is_digit (zeros n) = true.
Proof.
  induction n; simpl; auto.
Qed.

Lemma all_take f n s : all f s = true -> all f (take n s) = true.
Proof.
  revert s. induction n as [|n IH]; intros [|c r]; simpl; try reflexivity.
  intros H. apply andb_true_iff in H. destruct H as [H1 H2].
  now rewrite H1, IH.
Qed.

Lemma all_drop f n s : all f s = true -> all f (drop n s) = true.
Proof.
  revert s. induction n as [|n IH]; intros [|c r]; simpl; try tauto.
  intros H. apply andb_true_iff in H. destruct H as [H1 H2]. now apply IH.
Qed.

Lemma take_drop n s : take n s ++ drop n s = s.
Proof.
  revert s. induction n as [|n IH]; intros [|c r]; simpl; try reflexivity.
  now rewrite IH.
Qed.

Lemma length_take n s :
  n <= String.length s -> String.length (take n s) = n.
Proof.
  revert s. induction n as [|n IH]; intros [|c r]; simpl; try lia.
  intros H. rewrite IH; lia.
Qed.

Lemma length_zeros n : String.length (zeros n) = n.
Proof.
  induction n; simpl; congruence.
Qed.

(** *** The digits of a Number *)

Lemma nzhead_no_zero d x : Decimal.nzhead d <> Decimal.D0 x.
Proof.
  induction d; simpl; try discriminate. exact IHd.
Qed.

Lemma to_uint_unorm p : Decimal.unorm (Pos.to_uint p) = Pos.to_uint p.
Proof.
  pose proof (DecimalPos.Unsigned.to_of (Pos.to_uint p)) as H.
  rewrite DecimalPos.Unsigned.of_to in H. simpl in H. now symmetry.
Qed.

Definition nonzero_digit (c : ascii) : bool :=
  is_digit c && negb (c =? "0")%char.

(** The digits of [s] start with a digit that is not zero. *)
Lemma digits_head s :
  exists c t, digits_of s = String c t /\ nonzero_digit c = true.
Proof.
  unfold digits_of.
  pose proof (to_uint_unorm s) as Hn.
  pose proof (DecimalPos.Unsigned.to_uint_nonzero s) as Hz.
  destruct (Pos.to_uint s) as [|d|d|d|d|d|d|d|d|d|d] eqn:E;
    try (simpl; eexists; eexists; split; reflexivity).
  - discriminate Hn.
  - exfalso. unfold Decimal.unorm in Hn. simpl in Hn.
    destruct (Decimal.nzhead d) eqn:Hd; try discriminate Hn.
    + injection Hn as <-. now apply Hz.
    + exact (nzhead_no_zero d _ Hd).
Qed.

Lemma digits_of_inj s s' : digits_of s = digits_of s' -> s = s'.
Proof.
  unfold digits_of. intros E.
  apply DecimalPos.Unsigned.to_uint_inj.
  pose proof (NilEmpty.usu (Pos.to_uint s)) as H.
  rewrite E, NilEmpty.usu in H. congruence.
Qed.

Lemma all_digits_of s : all is_digit (digits_of s) = true.
Proof.
  apply all_digits_uint.
Qed.

(** *** Numbers in decimal *)

(** Decimal digits of a natural number. *)
Lemma decimal_shape z :
  exists d, d <> Decimal.Nil /\
    (((0 <= z)%Z /\ decimal z = NilEmpty.string_of_uint d /\
        Z.to_int z = Decimal.Pos d) \/
     ((z < 0)%Z /\ decimal z = String "-" (NilEmpty.string_of_uint d) /\
        Z.to_int z = Decimal.Neg d)).
Proof.
  destruct z as [|p|p]; unfold decimal; simpl.
  - exists (Decimal.D0 Decimal.Nil). split; [discriminate|].
    left. split; [lia | split; reflexivity].
  - exists (Pos.to_uint p).
    pose proof (DecimalPos.Unsigned.to_uint_nonnil p) as H. split; [assumption|].
    left. split; [lia | split; [|reflexivity]].
    unfold NilZero.string_of_uint. destruct (Pos.to_uint p); congruence.
  - exists (Pos.to_uint p).
    pose proof (DecimalPos.Unsigned.to_uint_nonnil p) as H. split; [assumption|].
    right. split; [lia | split; [|reflexivity]].
    unfold NilZero.string_of_uint. destruct (Pos.to_uint p); congruence.
Qed.

Lemma string_of_uint_inj d d' :
  NilEmpty.string_of_uint d = NilEmpty.string_of_uint d' -> d = d'.
Proof.
  intros E. pose proof (NilEmpty.usu d) as H. rewrite E, NilEmpty.usu in H.
  congruence.
Qed.

(** The digits of a number that is not negative. *)
Lemma decimal_digits z : (0 <= z)%Z -> all is_digit (decimal z) = true.
Proof.
  intros Hz. destruct (decimal_shape z) as (d & _ & [(_ & -> & _)|(H & _)]);
    [apply all_digits_uint | lia].
Qed.

Lemma decimal_inj z z' :
  (0 <= z)%Z -> (0 <= z')%Z -> decimal z = decimal z' -> z = z'.
Proof.
  intros Hz Hz' E.
  destruct (decimal_shape z) as (d & _ & [(_ & S & T)|(H & _)]); [|lia].
  destruct (decimal_shape z') as (d' & _ & [(_ & S' & T')|(H & _)]); [|lia].
  rewrite S, S' in E. apply string_of_uint_inj in E. subst d'.
  apply to_int_inj. congruence.
Qed.

(** *** The notations of [Number::toString] *)

Fixpoint mem (c : ascii) (s : string) : bool :=
  match s with
  | EmptyString => false
  | String x r => (x =? c)%char || mem c r
  end.

Lemma mem_app c a b : mem c (a ++ b) = mem c a || mem c b.
Proof.
  induction a as [|x a IH]; simpl; [reflexivity|].
  now rewrite IH, orb_assoc.
Qed.

Lemma mem_all f c s : all f s = true -> f c = false -> mem c s = false.
Proof.
  intros Hs Hc. induction s as [|x r IH]; simpl; [reflexivity|].
  simpl in Hs. apply andb_true_iff in Hs. destruct Hs as [Hx Hr].
  rewrite (IH Hr). destruct (Ascii.eqb_spec x c) as [->|]; [|reflexivity].
  congruence.
Qed.

Lemma all_mem f c s :
  all f s = true -> f c = false ->
  all (fun d => negb (d =? c)%char) s = true.
Proof.
  intros Hs Hc. induction s as [|x r IH]; simpl; [reflexivity|].
  simpl in Hs. apply andb_true_iff in Hs. destruct Hs as [Hx Hr].
  rewrite (IH Hr). destruct (Ascii.eqb_spec x c) as [->|]; [|reflexivity].
  congruence.
Qed.

Definition starts_with (h : ascii) (s : string) : bool :=
  match s with
  | EmptyString => false
  | String c _ => (c =? h)%char
  end.

Definition ends_nonzero (d : string) : bool :=
  match last_char d with
  | Some c => negb (c =? "0")%char
  | None => false
  end.

Definition is_zero (c : ascii) : bool := (c =? "0")%char.

Lemma zeros_all_zero n : all is_zero (zeros n) = true.
Proof.
  induction n; simpl; auto.
Qed.

Lemma ends_nonzero_cons c x r :
  ends_nonzero (String c (String x r)) = ends_nonzero (String x r).
Proof.
  reflexivity.
Qed.

Lemma ends_nonzero_some_nonzero d :
  ends_nonzero d = true -> all is_zero d = false.
Proof.
  induction d as [|c [|x r] IH].
  - discriminate.
  - unfold ends_nonzero, is_zero. simpl.
    intros H. apply negb_true_iff in H. now rewrite H.
  - rewrite ends_nonzero_cons. intros H.
    change (all is_zero (String c (String x r)))
      with (is_zero c && all is_zero (String x r)).
    rewrite (IH H). apply andb_false_r.
Qed.

Lemma zeros_inj a a' : zeros a = zeros a' -> a = a'.
Proof.
  intros E. apply (f_equal String.length) in E.
  now rewrite !length_zeros in E.
Qed.

(** Digits that end in a digit other than zero, followed by zeros: the
    digits and the number of zeros can be read off. *)
Lemma trailing_zeros_unique d d' a a' :
  ends_nonzero d = true -> ends_nonzero d' = true ->
  d ++ zeros a = d' ++ zeros a' -> d = d' /\ a = a'.
Proof.
  revert d'. induction d as [|c t IH]; intros d' Hd Hd' E;
    [discriminate Hd|].
  destruct d' as [|c' t']; [discriminate Hd'|].
  simpl in E. injection E as <- E.
  destruct t as [|x t], t' as [|x' t'].
  - simpl in E. apply zeros_inj in E. now subst.
  - exfalso. rewrite ends_nonzero_cons in Hd'.
    apply ends_nonzero_some_nonzero in Hd'.
    pose proof (zeros_all_zero a) as Hz. simpl append in E at 1.
    rewrite E, all_app, Hd' in Hz. discriminate.
  - exfalso. rewrite ends_nonzero_cons in Hd.
    apply ends_nonzero_some_nonzero in Hd.
    pose proof (zeros_all_zero a') as Hz. simpl append in E at 2.
    rewrite <- E, all_app, Hd in Hz. discriminate.
  - rewrite ends_nonzero_cons in Hd, Hd'.
    destruct (IH (String x' t') Hd Hd' E) as [-> ->]. now split.
Qed.

(** Zeros followed by digits that start with a digit other than zero. *)
Lemma leading_zeros_unique d d' a a' :
  starts_with "0" d = false -> starts_with "0" d' = false ->
  d <> "" -> d' <> "" ->
  zeros a ++ d = zeros a' ++ d' -> a = a' /\ d = d'.
Proof.
  revert a'. induction a as [|a IH]; intros [|a'] Hd Hd' Hn Hn' E; simpl in E.
  - now split.
  - exfalso. subst d. simpl in Hd. discriminate.
  - exfalso. subst d'. simpl in Hd'. discriminate.
  - injection E as E. destruct (IH a' Hd Hd' Hn Hn' E) as [-> ->].
    now split.
Qed.

(** Which of the four notations a text is in: digits only, digits with a
    point, a fraction that starts with [0.], or the scientific one. *)
Definition shape (t : string) : nat :=
  if mem "e" t then 3
  else if mem "." t then (if starts_with "0" t then 2 else 1)
  else 0.

(** Which notation [Number::toString] takes for [k] digits and the
    exponent [n]. *)
Definition notation (k n : Z) : nat :=
  if (k <=? n)%Z && (n <=? 21)%Z then 0
  else if (0 <? n)%Z && (n <=? 21)%Z then 1
  else if (-6 <? n)%Z && (n <=? 0)%Z then 2
  else 3.

Lemma digit_not_e c : is_digit c = true -> (c =? "e")%char = false.
Proof.
  destruct (Ascii.eqb_spec c "e") as [->|]; [discriminate | reflexivity].
Qed.

Lemma digit_not_point c : is_digit c = true -> (c =? ".")%char = false.
Proof.
  destruct (Ascii.eqb_spec c ".") as [->|]; [discriminate | reflexivity].
Qed.

Lemma nonzero_digit_spec c :
  nonzero_digit c = true -> is_digit c = true /\ (c =? "0")%char = false.
Proof.
  unfold nonzero_digit. intros H. apply andb_true_iff in H.
  destruct H as [H1 H2]. apply negb_true_iff in H2. now split.
Qed.

Lemma shape_unsigned s n :
  shape (unsigned_to_string s n)
  = notation (Z.of_nat (String.length (digits_of s))) n.
Proof.
  unfold unsigned_to_string, notation. cbv zeta.
  pose proof (all_digits_of s) as Hd.
  destruct (digits_head s) as (c & t & E & Hc). rewrite E in *.
  apply nonzero_digit_spec in Hc. destruct Hc as [Hc Hc0].
  set (d := String c t) in *.
  assert (He : mem "e" d = false) by (apply (mem_all is_digit); auto).
  assert (Hp : mem "." d = false) by (apply (mem_all is_digit); auto).
  destruct ((Z.of_nat (String.length d) <=? n)%Z && (n <=? 21)%Z) eqn:A.
  { unfold shape. rewrite !mem_app, He, Hp.
    rewrite !(mem_all is_digit _ (zeros _)); auto using all_zeros. }
  destruct ((0 <? n)%Z && (n <=? 21)%Z) eqn:B.
  { apply andb_true_iff in B. destruct B as [B _]. apply Z.ltb_lt in B.
    destruct (Z.to_nat n) as [|m] eqn:Em; [lia|].
    unfold shape. rewrite !mem_app.
    rewrite !(mem_all is_digit _ (take _ d)), !(mem_all is_digit _ (drop _ d));
      auto using all_take, all_drop.
    simpl. now rewrite Hc0. }
  destruct ((-6 <? n)%Z && (n <=? 0)%Z) eqn:C.
  { unfold shape. rewrite !mem_app, He, Hp.
    rewrite !(mem_all is_digit _ (zeros _)); auto using all_zeros. }
  unfold d, shape, exponent_part. simpl in Hd.
  apply andb_true_iff in Hd. destruct Hd as [_ Ht].
  destruct t as [|x t]; simpl; rewrite (digit_not_e c Hc); simpl.
  - reflexivity.
  - rewrite !mem_app. cbn [mem]. rewrite Ascii.eqb_refl. cbn [orb].
    now rewrite !orb_true_r.
Qed.

(** The exponent can be read off its text. *)
Lemma exponent_inj e e' x x' :
  (if (e <? 0)%Z then "-" else "+") ++ decimal (Z.abs e) ++ x =
  (if (e' <? 0)%Z then "-" else "+") ++ decimal (Z.abs e') ++ x' ->
  x = "" -> x' = "" -> e = e'.
Proof.
  intros E -> ->. rewrite !append_nil_r in E.
  destruct (Z.ltb_spec e 0), (Z.ltb_spec e' 0); simpl in E;
    try discriminate; injection E as E;
    apply decimal_inj in E; lia.
Qed.

(** The digits and the exponent of a Number can be read off the text
    [Number::toString] writes. *)
Lemma unsigned_to_string_inj s n s' n' :
  no_trailing_zero s = true -> no_trailing_zero s' = true ->
  unsigned_to_string s n = unsigned_to_string s' n' -> s = s' /\ n = n'.
Proof.
  intros Hs Hs' E.
  pose proof (f_equal shape E) as K. rewrite !shape_unsigned in K.
  revert E K. unfold unsigned_to_string, notation, no_trailing_zero in *.
  cbv zeta.
  change (match last_char (digits_of s) with
          | Some c => negb (c =? "0")%char
          | None => false
          end) with (ends_nonzero (digits_of s)) in Hs.
  change (match last_char (digits_of s') with
          | Some c => negb (c =? "0")%char
          | None => false
          end) with (ends_nonzero (digits_of s')) in Hs'.
  pose proof (all_digits_of s) as Hd. pose proof (all_digits_of s') as Hd'.
  destruct (digits_head s) as (c & t & Ed & Hc).
  destruct (digits_head s') as (c' & t' & Ed' & Hc').
  apply nonzero_digit_spec in Hc, Hc'.
  destruct Hc as [Hc Hc0], Hc' as [Hc' Hc0'].
  assert (Hinj : digits_of s = digits_of s' -> s = s') by apply digits_of_inj.
  revert Hinj. generalize dependent (digits_of s').
  generalize dependent (digits_of s). intros d Hs Hd Ed d' Hs' Hd' Ed' Hinj.
  set (k := Z.of_nat (String.length d)). set (k' := Z.of_nat (String.length d')).
  destruct ((k <=? n)%Z && (n <=? 21)%Z) eqn:A;
    [|destruct ((0 <? n)%Z && (n <=? 21)%Z) eqn:B;
      [|destruct ((-6 <? n)%Z && (n <=? 0)%Z) eqn:C]];
    (destruct ((k' <=? n')%Z && (n' <=? 21)%Z) eqn:A';
     [|destruct ((0 <? n')%Z && (n' <=? 21)%Z) eqn:B';
       [|destruct ((-6 <? n')%Z && (n' <=? 0)%Z) eqn:C']]);
    intros E K; try discriminate K; clear K.
  - (* digits followed by zeros *)
    destruct (trailing_zeros_unique d d' _ _ Hs Hs' E) as [-> Ea].
    split; [now apply Hinj|].
    apply andb_true_iff in A, A'. destruct A as [A _], A' as [A' _].
    apply Z.leb_le in A, A'. subst k k'. lia.
  - (* digits around a point *)
    apply andb_true_iff in B, B'. destruct B as [B B2], B' as [B' B2'].
    apply Z.ltb_lt in B, B'. apply Z.leb_le in B2, B2'.
    apply andb_false_iff in A, A'.
    assert (Hn : (n < k)%Z)
      by (destruct A as [A|A]; [apply Z.leb_gt in A | apply Z.leb_gt in A];
          lia).
    assert (Hn' : (n' < k')%Z)
      by (destruct A' as [A'|A']; [apply Z.leb_gt in A' | apply Z.leb_gt in A'];
          lia).
    change ("." ++ drop (Z.to_nat n) d) with (String "." (drop (Z.to_nat n) d)) in E.
    change ("." ++ drop (Z.to_nat n') d')
      with (String "." (drop (Z.to_nat n') d')) in E.
    apply split_at in E;
      try (apply (all_mem is_digit); [now apply all_take | reflexivity]).
    destruct E as [Et Edrop].
    assert (Edd : d = d').
    { rewrite <- (take_drop (Z.to_nat n) d), <- (take_drop (Z.to_nat n') d').
      now rewrite Et, Edrop. }
    subst d'. split; [now apply Hinj|].
    apply (f_equal String.length) in Et.
    rewrite !length_take in Et by (subst k k'; lia). lia.
  - (* a fraction *)
    simpl in E. injection E as E.
    apply leading_zeros_unique in E;
      try (rewrite ?Ed, ?Ed'; simpl; assumption);
      try (rewrite ?Ed, ?Ed'; discriminate).
    destruct E as [Ea ->]. split; [now apply Hinj|].
    apply andb_true_iff in C, C'. destruct C as [_ C], C' as [_ C'].
    apply Z.leb_le in C, C'. lia.
  - (* the scientific notation *)
    subst d d'. simpl in Hd, Hd'.
    apply andb_true_iff in Hd, Hd'. destruct Hd as [_ Ht], Hd' as [_ Ht'].
    unfold exponent_part in E.
    assert (Hm : forall (x : ascii) (u : string),
               is_digit x = true -> all is_digit u = true ->
               all (fun a => negb (a =? "e")%char) (String x ("." ++ u)) = true).
    { intros x u Hx Hu. simpl. rewrite (digit_not_e x Hx). simpl.
      apply (all_mem is_digit); [assumption | reflexivity]. }
    assert (Hm1 : forall (x : ascii),
               is_digit x = true ->
               all (fun a => negb (a =? "e")%char) (String x "") = true).
    { intros x Hx. simpl. now rewrite (digit_not_e x Hx). }
    destruct t as [|x t], t' as [|x' t'].
    + change (String c (String "e" ?z)) with (String c "" ++ String "e" z) in E.
      change (String c' (String "e" ?z)) with (String c' "" ++ String "e" z) in E.
      apply split_at in E; auto.
      destruct E as [Em Ex]. injection Em as <-.
      split; [now apply Hinj|].
      assert (H1 : (n - 1 = n' - 1)%Z).
      { apply (exponent_inj _ _ "" ""); [|reflexivity|reflexivity].
        now rewrite !append_nil_r. }
      lia.
    + exfalso.
      change (String c (String "e" ?z)) with (String c "" ++ String "e" z) in E.
      change (String c' ("." ++ String x' t' ++ String "e" ?z))
        with (String c' ("." ++ String x' t') ++ String "e" z) in E.
      apply split_at in E; auto. destruct E as [Em _]. discriminate Em.
    + exfalso.
      change (String c' (String "e" ?z)) with (String c' "" ++ String "e" z) in E.
      change (String c ("." ++ String x t ++ String "e" ?z))
        with (String c ("." ++ String x t) ++ String "e" z) in E.
      apply split_at in E; auto. destruct E as [Em _]. discriminate Em.
    + change (String c ("." ++ String x t ++ String "e" ?z))
        with (String c ("." ++ String x t) ++ String "e" z) in E.
      change (String c' ("." ++ String x' t' ++ String "e" ?z))
        with (String c' ("." ++ String x' t') ++ String "e" z) in E.
      apply split_at in E; auto.
      destruct E as [Em Ex]. injection Em as <- <- <-.
      split; [now apply Hinj|].
      assert (H1 : (n - 1 = n' - 1)%Z).
      { apply (exponent_inj _ _ "" ""); [|reflexivity|reflexivity].
        now rewrite !append_nil_r. }
      lia.
Qed.

(** The characters of a number. *)
Definition number_char (c : ascii) : bool :=
  is_digit c || (c =? ".")%char || (c =? "e")%char || (c =? "+")%char ||
  (c =? "-")%char.

Lemma digit_number_char c : is_digit c = true -> number_char c = true.
Proof.
  unfold number_char. now intros ->.
Qed.

Lemma all_number_digits s : all is_digit s = true -> all number_char s = true.
Proof.
  apply all_weaken, digit_number_char.
Qed.

Lemma exponent_chars e : all number_char (exponent_part e) = true.
Proof.
  unfold exponent_part.
  change (String "e" ?x) with ("e" ++ x). rewrite !all_app.
  rewrite (all_number_digits (decimal (Z.abs e)))
    by (apply decimal_digits; lia).
  now destruct (e <? 0)%Z.
Qed.

Lemma unsigned_chars s n : all number_char (unsigned_to_string s n) = true.
Proof.
  unfold unsigned_to_string. cbv zeta.
  pose proof (all_number_digits _ (all_digits_of s)) as Hd.
  destruct ((Z.of_nat (String.length (digits_of s)) <=? n)%Z && (n <=? 21)%Z).
  { rewrite all_app, Hd. apply all_number_digits, all_zeros. }
  destruct ((0 <? n)%Z && (n <=? 21)%Z).
  { rewrite !all_app. rewrite all_take, all_drop by assumption. reflexivity. }
  destruct ((-6 <? n)%Z && (n <=? 0)%Z).
  { rewrite !all_app, Hd.
    rewrite (all_number_digits (zeros _)) by apply all_zeros. reflexivity. }
  destruct (digits_of s) as [|c [|x t]]; [reflexivity| |].
  - change (String c ?x) with (String c "" ++ x). rewrite all_app.
    rewrite exponent_chars. cbn [all] in Hd |- *.
    apply andb_true_iff in Hd. destruct Hd as [-> _]. reflexivity.
  - change (String c ("." ++ String x t ++ ?y))
      with (String c "" ++ "." ++ String x t ++ y).
    rewrite !all_app, exponent_chars.
    cbn [all] in Hd. apply andb_true_iff in Hd. destruct Hd as [Hc Ht].
    cbn [all]. now rewrite Hc, Ht.
Qed.

(** The text of a Number starts with a digit. *)
Lemma unsigned_head s n :
  exists c t, unsigned_to_string s n = String c t /\ is_digit c = true.
Proof.
  unfold unsigned_to_string. cbv zeta.
  destruct (digits_head s) as (c & t & E & Hc). rewrite E.
  apply nonzero_digit_spec in Hc. destruct Hc as [Hc _].
  destruct ((Z.of_nat (String.length (String c t)) <=? n)%Z && (n <=? 21)%Z);
    [simpl; eauto|].
  destruct ((0 <? n)%Z && (n <=? 21)%Z) eqn:B.
  { apply andb_true_iff in B. destruct B as [B _]. apply Z.ltb_lt in B.
    destruct (Z.to_nat n) as [|m] eqn:Em; [lia|]. simpl. eauto. }
  destruct ((-6 <? n)%Z && (n <=? 0)%Z); [simpl; eauto|].
  destruct t; eauto.
Qed.

Lemma unsigned_not_zero s n : unsigned_to_string s n <> "0".
Proof.
  intros E. pose proof (f_equal shape E) as K.
  rewrite shape_unsigned in K. revert E.
  unfold unsigned_to_string, notation in *. cbv zeta.
  destruct (digits_head s) as (c & t & Ed & Hc). rewrite Ed in *.
  apply nonzero_digit_spec in Hc. destruct Hc as [_ Hc].
  destruct ((Z.of_nat (String.length (String c t)) <=? n)%Z && (n <=? 21)%Z);
    [|destruct ((0 <? n)%Z && (n <=? 21)%Z);
      [|destruct ((-6 <? n)%Z && (n <=? 0)%Z)]];
    try discriminate K.
  simpl. intros [= -> _]. discriminate.
Qed.

Definition json_number (n : JsNumber) : bool := json_data (JNum n).

(** [Number::toString] is injective on the numbers of the data fragment. *)
Lemma number_to_string_inj n n' :
  json_number n = true -> json_number n' = true ->
  number_to_string n = number_to_string n' -> n = n'.
Proof.
  unfold json_number. simpl.
  destruct n as [b s e|b| | |], n' as [b' s' e'|b'| | |];
    try discriminate; intros H H' E.
  - destruct b, b'; simpl in E.
    + injection E as E. now destruct (unsigned_to_string_inj _ _ _ _ H H' E) as [-> ->].
    + exfalso. destruct (unsigned_head s' e') as (c & t & Ec & Hc).
      rewrite Ec in E. injection E as <- _. discriminate.
    + exfalso. destruct (unsigned_head s e) as (c & t & Ec & Hc).
      rewrite Ec in E. injection E as -> _. discriminate.
    + now destruct (unsigned_to_string_inj _ _ _ _ H H' E) as [-> ->].
  - exfalso. destruct b; simpl in E; [discriminate|].
    exact (unsigned_not_zero s e E).
  - exfalso. destruct b'; simpl in E; [discriminate|].
    exact (unsigned_not_zero s' e' (eq_sym E)).
  - destruct b, b'; try discriminate. reflexivity.
Qed.

Lemma number_chars n :
  json_number n = true -> all number_char (number_to_string n) = true.
Proof.
  destruct n as [[] s e|b| | |]; try discriminate; intros _; simpl.
  - apply unsigned_chars.
  - apply unsigned_chars.
  - reflexivity.
Qed.

(** The first character of a number is a digit or the minus sign. *)
Lemma number_head n r :
  json_number n = true ->
  exists c t, number_to_string n ++ r = String c t /\
              (is_digit c || (c =? "-")%char) = true.
Proof.
  destruct n as [[] s e|b| | |]; try discriminate; intros _; simpl.
  - eexists. eexists. split; reflexivity.
  - destruct (unsigned_head s e) as (c & t & -> & Hc).
    exists c, (t ++ r). split; [reflexivity | now rewrite Hc].
  - eexists. eexists. split; reflexivity.
Qed.

(** What may follow a value inside a JSON text: nothing, or one of
    [,], []] and [}]. *)
Definition delimited (r : string) : bool :=
  match r with
  | EmptyString => true
  | String c _ => (c =? ",")%char || (c =? "]")%char || (c =? "}")%char
  end.

Lemma delimited_stops r : delimited r = true -> stops number_char r = true.
Proof.
  destruct r as [|c r]; [reflexivity|]. simpl. intros H.
  apply orb_true_iff in H. destruct H as [H|H];
    [apply orb_true_iff in H; destruct H as [H|H]|];
    apply Ascii.eqb_eq in H; subst c; reflexivity.
Qed.

(** Where a number ends, and which number it is, can be read off the
    text. *)
Lemma number_split n n' r r' :
  json_number n = true -> json_number n' = true ->
  delimited r = true -> delimited r' = true ->
  number_to_string n ++ r = number_to_string n' ++ r' -> n = n' /\ r = r'.
Proof.
  intros Hn Hn' Hr Hr' E.
  apply run_split with (f := number_char) in E;
    auto using number_chars, delimited_stops.
  destruct E as [E ->]. split; [|reflexivity].
  now apply number_to_string_inj.
Qed.

(** *** Quoted strings *)

Definition hex_value (c : ascii) : N :=
  let n := N_of_ascii c in
  if (n <? 58)%N then n - 48 else n - 87.

(** The three bytes of the surrogate [0xD h2 h1 h0]. *)
Definition surrogate_bytes (h2 h1 h0 : N) : string :=
  String "237"
    (String (ascii_of_N (160 + (h2 - 8) * 4 + h1 / 4))
       (String (ascii_of_N (128 + (h1 mod 4) * 16 + h0)) "")).

(** Reads back, from the front of a quoted text, the bytes of one code
    unit. *)
Definition unquote_unit (s : string) : option (string * string) :=
  match s with
  | EmptyString => None
  | String c r =>
      if (c =? backslash)%char then
        match r with
        | EmptyString => None
        | String e r' =>
            if (e =? "u")%char then
              match r' with
              | String a (String b (String h (String l r''))) =>
                  if (a =? "d")%char
                  then Some (surrogate_bytes (hex_value b) (hex_value h)
                               (hex_value l), r'')
                  else Some (String (ascii_of_N (16 * hex_value h
                                                 + hex_value l)) "", r'')
              | _ => None
              end
            else if (e =? "b")%char then Some (String "008" "", r')
            else if (e =? "f")%char then Some (String "012" "", r')
            else if (e =? "n")%char then Some (String "010" "", r')
            else if (e =? "r")%char then Some (String "013" "", r')
            else if (e =? "t")%char then Some (String "009" "", r')
            else Some (String e "", r')
        end
      else Some (String c "", r)
  end.

Lemma unquote_quote_char c x :
  unquote_unit (quote_char c ++ x) = Some (String c "", x).
Proof.
  destruct c as [[] [] [] [] [] [] [] []]; reflexivity.
Qed.

Lemma quote_char_head c x : starts_with dquote (quote_char c ++ x) = false.
Proof.
  destruct c as [[] [] [] [] [] [] [] []]; reflexivity.
Qed.

Lemma unquote_surrogate c c2 c3 h x :
  lone_surrogate c c2 c3 = Some h ->
  unquote_unit (surrogate_escape h ++ x)
  = Some (String c (String c2 (String c3 "")), x).
Proof.
  intros H.
  destruct c as [[] [] [] [] [] [] [] []]; try discriminate H.
  destruct c2 as [x0 x1 x2 x3 x4 [] [] []]; try discriminate H.
  destruct c3 as [y0 y1 y2 y3 y4 y5 [] []]; try discriminate H.
  injection H as <-.
  destruct x0, x1, x2, x3, x4, y0, y1, y2, y3, y4, y5; reflexivity.
Qed.

Lemma surrogate_escape_head h x :
  starts_with dquote (surrogate_escape h ++ x) = false.
Proof.
  destruct h as [[h2 h1] h0]. reflexivity.
Qed.

(** The first code unit of a string that is not empty: its bytes [u], the
    rest [s1] of the string, and what [quote_body] writes for it. *)
Lemma quote_body_unit c r :
  exists u s1 q,
    String c r = u ++ s1 /\
    String.length s1 <= String.length r /\
    quote_body (String c r) = q ++ quote_body s1 /\
    (forall x, unquote_unit (q ++ x) = Some (u, x)) /\
    (forall x, starts_with dquote (q ++ x) = false).
Proof.
  assert (Hplain : exists u s1 q,
             String c r = u ++ s1 /\
             String.length s1 <= String.length r /\
             quote_char c ++ quote_body r = q ++ quote_body s1 /\
             (forall x, unquote_unit (q ++ x) = Some (u, x)) /\
             (forall x, starts_with dquote (q ++ x) = false)).
  { exists (String c ""), r, (quote_char c).
    split; [reflexivity|]. split; [lia|]. split; [reflexivity|].
    split; [apply unquote_quote_char | apply quote_char_head]. }
  destruct r as [|c2 [|c3 r']]; try exact Hplain.
  change (quote_body (String c (String c2 (String c3 r'))))
    with (match lone_surrogate c c2 c3 with
          | Some h => surrogate_escape h ++ quote_body r'
          | None => quote_char c ++ quote_body (String c2 (String c3 r'))
          end).
  destruct (lone_surrogate c c2 c3) as [h|] eqn:H; [|exact Hplain].
  exists (String c (String c2 (String c3 ""))), r', (surrogate_escape h).
  split; [reflexivity|]. split; [simpl; lia|]. split; [reflexivity|].
  split; [intros x; now apply unquote_surrogate|].
  apply surrogate_escape_head.
Qed.

(** The closing quote is the first quote that no backslash announces. *)
Lemma quote_body_split_upto n s s' r r' :
  String.length s <= n ->
  quote_body s ++ String dquote r = quote_body s' ++ String dquote r' ->
  s = s' /\ r = r'.
Proof.
  revert s s'. induction n as [|n IH]; intros s s' Hn E.
  - destruct s; [|simpl in Hn; lia]. destruct s' as [|c' t'].
    + simpl in E. injection E as ->. now split.
    + exfalso.
      destruct (quote_body_unit c' t') as (u & s1 & q & _ & _ & Eq & _ & Hh).
      rewrite Eq, append_assoc in E. simpl in E.
      pose proof (Hh (quote_body s1 ++ String dquote r')) as H.
      rewrite <- E in H. simpl in H. discriminate H.
  - destruct s as [|c t], s' as [|c' t'].
    + simpl in E. injection E as ->. now split.
    + exfalso.
      destruct (quote_body_unit c' t') as (u & s1 & q & _ & _ & Eq & _ & Hh).
      rewrite Eq, append_assoc in E. simpl in E.
      pose proof (Hh (quote_body s1 ++ String dquote r')) as H.
      rewrite <- E in H. simpl in H. discriminate H.
    + exfalso.
      destruct (quote_body_unit c t) as (u & s1 & q & _ & _ & Eq & _ & Hh).
      rewrite Eq, append_assoc in E. simpl in E.
      pose proof (Hh (quote_body s1 ++ String dquote r)) as H.
      rewrite E in H. simpl in H. discriminate H.
    + destruct (quote_body_unit c t) as (u & s1 & q & Es & Hl & Eq & Hu & _).
      destruct (quote_body_unit c' t')
        as (u' & s1' & q' & Es' & _ & Eq' & Hu' & _).
      rewrite Eq, Eq', !append_assoc in E.
      pose proof (Hu (quote_body s1 ++ String dquote r)) as H.
      rewrite E, Hu' in H. injection H as <- E1.
      destruct (IH s1 s1') as [<- <-];
        [simpl in Hn; lia | now symmetry |].
      split; [congruence | reflexivity].
Qed.

Lemma quote_split s s' r r' :
  quote s ++ r = quote s' ++ r' -> s = s' /\ r = r'.
Proof.
  unfold quote. simpl. intros E. injection E as E.
  rewrite !append_assoc in E. simpl in E.
  now apply (quote_body_split_upto (String.length s) s s').
Qed.

(** *** Lists of members *)

Lemma join_cons sep x (t : list string) :
  join sep (x :: t) =
  x ++ match t with [] => "" | _ :: _ => sep ++ join sep t end.
Proof.
  destruct t; simpl; [now rewrite append_nil_r | reflexivity].
Qed.

Section Sequences.

(** The members of an array or of an object: [item] writes one, [closing]
    ends the list.  Each member of the first list can be told from what
    follows it, and no member starts with the closing bracket. *)
Context {A : Type} (item : A -> string) (closing : ascii) (good : A -> Prop).

Definition splits (x : A) : Prop :=
  forall y r r', good y ->
    delimited r = true -> delimited r' = true ->
    item x ++ r = item y ++ r' -> x = y /\ r = r'.

Hypothesis closing_delimits : forall r, delimited (String closing r) = true.
Hypothesis closing_not_comma : closing <> ","%char.
Hypothesis item_head :
  forall x r, good x -> starts_with closing (item x ++ r) = false.

Lemma join_split (l l' : list A) (r r' : string) :
  Forall splits l -> Forall good l -> Forall good l' ->
  join "," (map item l) ++ String closing r =
  join "," (map item l') ++ String closing r' ->
  l = l' /\ r = r'.
Proof.
  revert l'. induction l as [|x t IH]; intros [|y t'] Hs Hl Hl' E.
  - simpl in E. injection E as ->. now split.
  - exfalso. simpl map in E. rewrite join_cons, append_assoc in E.
    inversion Hl' as [|? ? Hy _]; subst.
    match type of E with
    | _ = item y ++ ?rest =>
        pose proof (item_head y rest Hy) as H; rewrite <- E in H
    end.
    simpl in H. now rewrite Ascii.eqb_refl in H.
  - exfalso. simpl map in E. rewrite join_cons, append_assoc in E.
    inversion Hl as [|? ? Hx _]; subst.
    match type of E with
    | item x ++ ?rest = _ =>
        pose proof (item_head x rest Hx) as H; rewrite E in H
    end.
    simpl in H. now rewrite Ascii.eqb_refl in H.
  - simpl map in E. rewrite !join_cons, !append_assoc in E.
    inversion Hs as [|? ? Hsx Hst]; subst.
    inversion Hl as [|? ? Hx Ht]; subst.
    inversion Hl' as [|? ? Hy Ht']; subst.
    apply (Hsx y) in E; [| assumption | |].
    + destruct E as [-> E].
      destruct t as [|x2 t], t' as [|y2 t'].
      * simpl in E. injection E as ->. now split.
      * exfalso. simpl in E. injection E as E _. congruence.
      * exfalso. simpl in E. injection E as E _. congruence.
      * cbn [map append] in E. injection E as E.
        destruct (IH (y2 :: t') Hst Ht Ht' E) as [-> ->]. now split.
    + destruct t; cbn [map append]; [apply closing_delimits | reflexivity].
    + destruct t'; cbn [map append]; [apply closing_delimits | reflexivity].
Qed.

End Sequences.

(** *** Values *)

(** Induction on values, with the hypothesis for every element of an array
    and every property value of an object. *)
Section ValueInduction.
Variable P : JsValue -> Prop.
Hypothesis Hundefined : P JUndefined.
Hypothesis Hnull : P JNull.
Hypothesis Hbool : forall b, P (JBool b).
Hypothesis Hnum : forall n, P (JNum n).
Hypothesis Hstr : forall s, P (JStr s).
Hypothesis Harr : forall l, Forall P l -> P (JArr l).
Hypothesis Hobj : forall ps, Forall (fun kv => P (snd kv)) ps -> P (JObj ps).

Fixpoint JsValue_ind (v : JsValue) : P v :=
  match v with
  | JUndefined => Hundefined
  | JNull => Hnull
  | JBool b => Hbool b
  | JNum n => Hnum n
  | JStr s => Hstr s
  | JArr l =>
      Harr l ((fix elements (l : list JsValue) : Forall P l :=
                 match l with
                 | [] => Forall_nil P
                 | x :: r => Forall_cons x (JsValue_ind x) (elements r)
                 end) l)
  | JObj ps =>
      Hobj ps
        ((fix properties (ps : list (string * JsValue))
            : Forall (fun kv => P (snd kv)) ps :=
            match ps with
            | [] => Forall_nil _
            | kv :: r =>
                Forall_cons kv (JsValue_ind (snd kv)) (properties r)
            end) ps)
  end.

End ValueInduction.

(** How a value is written as an element of an array. *)
Definition text (v : JsValue) : string :=
  match serialize v with
  | Some t => t
  | None => "null"
  end.

(** How a property is written. *)
Definition member (kv : string * JsValue) : string :=
  quote (fst kv) ++ ":" ++ text (snd kv).

Lemma text_array l : text (JArr l) = "[" ++ join "," (map text l) ++ "]".
Proof.
  reflexivity.
Qed.

Lemma json_data_serialize v :
  json_data v = true -> serialize v = Some (text v).
Proof.
  unfold text. destruct v as [| |[]|[| | | |]| | |]; simpl; congruence.
Qed.

(** A number of the data fragment is written as [Number::toString]
    prints it. *)
Lemma text_number n :
  json_number n = true -> text (JNum n) = number_to_string n.
Proof.
  destruct n as [b s e|[]| | |]; try discriminate; reflexivity.
Qed.

Lemma text_object ps :
  json_data (JObj ps) = true ->
  text (JObj ps) = "{" ++ join "," (map member ps) ++ "}".
Proof.
  intros H. unfold text. cbn [serialize]. do 3 f_equal.
  simpl in H. induction ps as [|[k x] r IH]; [reflexivity|].
  simpl in H. apply andb_true_iff in H. destruct H as [Hx Hr].
  cbn [map]. rewrite (json_data_serialize x Hx), (IH Hr). reflexivity.
Qed.

(** The first character tells what sort of value follows. *)
Definition head_kind (s : string) : nat :=
  match s with
  | EmptyString => 0
  | String c _ =>
      if is_digit c || (c =? "-")%char then 4
      else if (c =? "n")%char then 1
      else if (c =? "t")%char then 2
      else if (c =? "f")%char then 3
      else if (c =? dquote)%char then 5
      else if (c =? "[")%char then 6
      else if (c =? "{")%char then 7
      else 0
  end.

Definition kind (v : JsValue) : nat :=
  match v with
  | JUndefined => 0
  | JNull => 1
  | JBool true => 2
  | JBool false => 3
  | JNum _ => 4
  | JStr _ => 5
  | JArr _ => 6
  | JObj _ => 7
  end.

Lemma text_kind v r : json_data v = true -> head_kind (text v ++ r) = kind v.
Proof.
  destruct v as [| |[]|n|s|l|ps]; try discriminate;
    try (intros _; reflexivity).
  intros Hn. rewrite (text_number n Hn).
  destruct (number_head n r Hn) as (c & t & -> & H).
  simpl. now rewrite H.
Qed.

Lemma text_head v r (c : ascii) :
  json_data v = true -> head_kind (String c "") = 0 ->
  starts_with c (text v ++ r) = false.
Proof.
  intros Hv Hc. pose proof (text_kind v r Hv) as H.
  destruct (text v ++ r) as [|h t]; [reflexivity|]. simpl.
  destruct (Ascii.eqb_spec h c) as [->|]; [|reflexivity].
  simpl in H, Hc. rewrite Hc in H.
  destruct v as [| |[]| | | |]; simpl in H; discriminate.
Qed.

Definition is_data (v : JsValue) : Prop := json_data v = true.

Definition property_is_data (kv : string * JsValue) : Prop :=
  json_data (snd kv) = true.

Lemma forallb_Forall {A} (f : A -> bool) (l : list A) :
  forallb f l = true -> Forall (fun x => f x = true) l.
Proof.
  intros H. apply Forall_forall. now apply forallb_forall.
Qed.

Lemma Forall_modus {A} (P Q : A -> Prop) (l : list A) :
  Forall (fun x => P x -> Q x) l -> Forall P l -> Forall Q l.
Proof.
  induction 1 as [|x l Hx _ IH]; intros H; inversion H; subst;
    constructor; auto.
Qed.

(** A property can be told from what follows it when its value can. *)
Lemma member_splits kv :
  splits text is_data (snd kv) -> splits member property_is_data kv.
Proof.
  intros Hv [k' x'] r r' Hx' Hr Hr' E. destruct kv as [k x].
  unfold member in E. simpl fst in E. simpl snd in *.
  rewrite !append_assoc in E. apply quote_split in E.
  destruct E as [-> E]. simpl in E. injection E as E.
  destruct (Hv x' r r' Hx' Hr Hr' E) as [-> ->]. now split.
Qed.

(** Reading a value off the front of a JSON text: two values of the data
    fragment whose texts, each followed by a delimiter or by nothing,
    agree, are the same value followed by the same rest. *)
Lemma text_split v : is_data v -> splits text is_data v.
Proof.
  induction v as [| |b|n|s|l IH|ps IH] using JsValue_ind;
    intros Hv v' r r' Hv' Hr Hr' E;
    pose proof (f_equal head_kind E) as K;
    rewrite (text_kind _ r Hv), (text_kind v' r' Hv') in K.
  - discriminate Hv.
  - destruct v' as [| |[]| | | |]; try discriminate K.
    simpl in E. injection E as ->. now split.
  - destruct b, v' as [| |[]| | | |]; try discriminate K;
      simpl in E; injection E as ->; now split.
  - destruct v' as [| |[]|n'| | |]; try discriminate K.
    rewrite (text_number n Hv), (text_number n' Hv') in E.
    destruct (number_split n n' r r' Hv Hv' Hr Hr' E) as [-> ->]. now split.
  - destruct v' as [| |[]| |s'| |]; try discriminate K.
    unfold text in E. cbn [serialize] in E.
    destruct (quote_split s s' r r' E) as [-> ->]. now split.
  - destruct v' as [| |[]| | |l'|]; try discriminate K.
    rewrite !text_array in E. simpl in E. injection E as E.
    rewrite !append_assoc in E. simpl in E.
    unfold is_data in Hv, Hv'. simpl in Hv, Hv'.
    apply forallb_Forall in Hv. apply forallb_Forall in Hv'.
    assert (Hd : forall t, delimited (String "]" t) = true) by reflexivity.
    assert (Hc : "]"%char <> ","%char) by discriminate.
    assert (Hh : forall x t, is_data x -> starts_with "]" (text x ++ t) = false)
      by (intros x t Hx; now apply text_head).
    destruct (join_split text "]"%char is_data Hd Hc Hh l l' r r'
                (Forall_modus _ _ _ IH Hv) Hv Hv' E) as [-> ->].
    now split.
  - destruct v' as [| |[]| | | |ps']; try discriminate K.
    rewrite (text_object ps Hv), (text_object ps' Hv') in E.
    simpl in E. injection E as E.
    rewrite !append_assoc in E. simpl in E.
    unfold is_data in Hv, Hv'. simpl in Hv, Hv'.
    apply forallb_Forall in Hv. apply forallb_Forall in Hv'.
    assert (Hd : forall t, delimited (String "}" t) = true) by reflexivity.
    assert (Hc : "}"%char <> ","%char) by discriminate.
    assert (Hh : forall x t,
               property_is_data x -> starts_with "}" (member x ++ t) = false)
      by reflexivity.
    assert (Hs : Forall (splits member property_is_data) ps).
    { apply Forall_forall. intros kv Hin. apply member_splits.
      rewrite Forall_forall in IH, Hv. apply IH; [assumption|].
      now apply Hv. }
    destruct (join_split member "}"%char property_is_data Hd Hc Hh ps ps' r r'
                Hs Hv Hv' E) as [-> ->].
    now split.
Qed.

(** [JSON.stringify] is injective on the data fragment. *)
Lemma JSON_stringify_object_inj (o o' : JsObject JsValue) :
  json_data (JObj o) = true -> json_data (JObj o') = true ->
  JSON_stringify_object o = JSON_stringify_object o' -> o = o'.
Proof.
  intros Ho Ho' E.
  assert (Et : text (JObj o) ++ "" = text (JObj o') ++ "").
  { rewrite !append_nil_r. exact E. }
  apply (text_split (JObj o) Ho) in Et; try reflexivity; [|assumption].
  destruct Et as [Et _]. now injection Et.
Qed.

(** *** The identifier of a subscription *)

(** C1, as amended.  [subscribe] stores the continuation under, and sends,
    the serialization of its payload, which is [{ channel }] with the
    properties of [params] assigned to it.  Two payloads that are the same,
    that is, hold the same properties with the same values in the same
    order, have the same identifier.  Two payloads made of JSON data only
    ([null], booleans, finite numbers other than the negative zero, strings,
    arrays and objects of these) that have the same identifier are the
    same. *)
Theorem subscribe_identifier (channel channel' : string)
  (params params' : option (JsObject JsValue)) (s : State) :
  subscribe channel params s =
    (Normal (promises s),
     {| pendingSubscriptions :=
          obj_set (subscription_identifier channel params) (promises s)
            (pendingSubscriptions s);
        promises := S (promises s);
        effects :=
          (effects s ++
           [CableSend [("command", JStr "subscribe");
                       ("identifier",
                        JStr (subscription_identifier channel params))]])%list
     |}) /\
  (subscriptionPayload channel params = subscriptionPayload channel' params' ->
   subscription_identifier channel params =
   subscription_identifier channel' params') /\
  (json_data (JObj (subscriptionPayload channel params)) = true ->
   json_data (JObj (subscriptionPayload channel' params')) = true ->
   subscription_identifier channel params =
   subscription_identifier channel' params' ->
   subscriptionPayload channel params = subscriptionPayload channel' params').
Proof.
  split; [reflexivity | split].
  - unfold subscription_identifier. now intros ->.
  - unfold subscription_identifier. intros H H' E.
    now apply JSON_stringify_object_inj.
Qed.

(** A parameter that is [NaN] and one that is [null] are written alike. *)
Lemma nan_and_null_share_identifier :
  subscriptionPayload "chat" (Some [("room", JNum NNaN)]) <>
  subscriptionPayload "chat" (Some [("room", JNull)]) /\
  subscription_identifier "chat" (Some [("room", JNum NNaN)]) =
  subscription_identifier "chat" (Some [("room", JNull)]).
Proof.
  split; [discriminate | reflexivity].
Qed.

(** So are a parameter that is [undefined] and one that is not there. *)
Lemma undefined_parameter_is_dropped :
  subscriptionPayload "chat" (Some [("room", JUndefined)]) <>
  subscriptionPayload "chat" None /\
  subscription_identifier "chat" (Some [("room", JUndefined)]) =
  subscription_identifier "chat" None.
Proof.
  split; [discriminate | reflexivity].
Qed.

(** So are an infinite parameter and one that is [null], and the two
    zeros. *)
Lemma infinity_and_zero_sign_are_lost :
  subscription_identifier "chat" (Some [("room", JNum NInfinity)]) =
  subscription_identifier "chat" (Some [("room", JNull)]) /\
  subscription_identifier "chat" (Some [("room", JNum (NZero true))]) =
  subscription_identifier "chat" (Some [("room", JNum (NZero false))]).
Proof.
  split; reflexivity.
Qed.

(** A parameter [__proto__] is assigned to the payload, not defined on it:
    it reaches the setter of [Object.prototype] and the payload has no such
    property. *)
Lemma proto_parameter_is_not_copied :
  subscriptionPayload "chat"
    (Some [("__proto__", JObj [("admin", JBool true)]); ("room", JStr "a")])
  = [("channel", JStr "chat"); ("room", JStr "a")] /\
  subscription_identifier "chat"
    (Some [("__proto__", JObj [("admin", JBool true)]); ("room", JStr "a")])
  = subscription_identifier "chat" (Some [("room", JStr "a")]).
Proof.
  split; reflexivity.
Qed.

(** Numbers with a fraction, large and small ones, and strings beyond
    ASCII are data: 1.5, 10^21 and 10^-7, an accented letter, a character
    outside the basic plane and a surrogate without its partner. *)
Example data_beyond_integers :
  json_data
    (JArr [JNum (NFinite false 15 1); JNum (NInt (10 ^ 21));
           JNum (NFinite true 1 (-6));
           JStr (of_code_units [233%N]);
           JStr (of_code_units [55357%N; 56832%N]);
           JStr (of_code_units [56832%N])]) = true /\
  map number_to_string
    [NFinite false 15 1; NInt (10 ^ 21); NFinite true 1 (-6)]
  = ["1.5"; "1e+21"; "-1e-7"] /\
  quote_body (of_code_units [233%N]) = of_code_units [233%N] /\
  quote_body (of_code_units [55357%N; 56832%N])
  = of_code_units [55357%N; 56832%N] /\
  quote_body (of_code_units [56832%N])
  = String backslash "ude00".
Proof.
  repeat split.
Qed.

(** The same parameters given in another order have another identifier. *)
Lemma parameter_order_changes_identifier :
  subscription_identifier "chat"
    (Some [("room", JNum (NInt 1)); ("user", JNum (NInt 2))]) <>
  subscription_identifier "chat"
    (Some [("user", JNum (NInt 2)); ("room", JNum (NInt 1))]).
Proof.
  vm_compute. discriminate.
Qed.

(** The identifier of a channel without parameters. *)
Example identifier_of_chat :
  subscription_identifier "chat" None =
  "{" ++ quote "channel" ++ ":" ++ quote "chat" ++ "}".
Proof.
  reflexivity.
Qed.

End JsonFacts.

(** ** Strings as code units *)

Module StringFacts.
Import Js.
Import JsonFacts.

(** *** The model of a string determines its code units *)

(** The code units of a string of the model. *)
Fixpoint to_code_units (s : string) : list N :=
  match s with
  | EmptyString => []
  | String c0 r0 =>
      let b0 := N_of_ascii c0 in
      if (b0 <? 192)%N then b0 :: to_code_units r0
      else
        match r0 with
        | EmptyString => []
        | String c1 r1 =>
            let b1 := N_of_ascii c1 in
            if (b0 <? 224)%N
            then ((b0 - 192) * 64 + (b1 - 128))%N :: to_code_units r1
            else
              match r1 with
              | EmptyString => []
              | String c2 r2 =>
                  let b2 := N_of_ascii c2 in
                  if (b0 <? 240)%N
                  then ((b0 - 224) * 4096 + (b1 - 128) * 64 + (b2 - 128))%N
                       :: to_code_units r2
                  else
                    match r2 with
                    | EmptyString => []
                    | String c3 r3 =>
                        let b3 := N_of_ascii c3 in
                        let cp := ((b0 - 240) * 262144 + (b1 - 128) * 4096 +
                                   (b2 - 128) * 64 + (b3 - 128))%N in
                        (55296 + (cp - 65536) / 1024)%N ::
                        (56320 + (cp - 65536) mod 1024)%N ::
                        to_code_units r3
                    end
              end
        end
  end.

(** Arithmetic with quotients and remainders. *)
Ltac arith := zify; Z.to_euclidean_division_equations; lia.

(** A byte and its code. *)
Lemma byte_code (n : N) : (n < 256)%N -> N_of_ascii (ascii_of_N n) = n.
Proof. apply N_ascii_embedding. Qed.

(** The code units of a code point. *)
Definition units_of (cp : N) : list N :=
  if (cp <? 65536)%N then [cp]
  else [(55296 + (cp - 65536) / 1024)%N; (56320 + (cp - 65536) mod 1024)%N].

Lemma to_code_units_utf8 (cp : N) (s : string) :
  (cp < 1114112)%N ->
  to_code_units (utf8 cp ++ s) = (units_of cp ++ to_code_units s)%list.
Proof.
  intros Hcp. unfold utf8, units_of.
  destruct (N.ltb_spec cp 128) as [H1|H1].
  - cbn [append to_code_units]. rewrite byte_code by lia.
    destruct (N.ltb_spec cp 192); [|lia].
    destruct (N.ltb_spec cp 65536); [|lia]. reflexivity.
  - destruct (N.ltb_spec cp 2048) as [H2|H2].
    + cbn [append to_code_units]. rewrite !byte_code by arith.
      destruct (N.ltb_spec (192 + cp / 64) 192); [arith|].
      destruct (N.ltb_spec (192 + cp / 64) 224); [|arith].
      destruct (N.ltb_spec cp 65536); [|lia].
      cbn [List.app]. f_equal. arith.
    + destruct (N.ltb_spec cp 65536) as [H3|H3].
      * cbn [append to_code_units]. rewrite !byte_code by arith.
        destruct (N.ltb_spec (224 + cp / 4096) 192); [arith|].
        destruct (N.ltb_spec (224 + cp / 4096) 224); [arith|].
        destruct (N.ltb_spec (224 + cp / 4096) 240); [|arith].
        cbn [List.app]. f_equal. arith.
      * cbn [append to_code_units]. rewrite !byte_code by arith.
        destruct (N.ltb_spec (240 + cp / 262144) 192); [arith|].
        destruct (N.ltb_spec (240 + cp / 262144) 224); [arith|].
        destruct (N.ltb_spec (240 + cp / 262144) 240); [arith|].
        cbn [List.app].
        replace ((240 + cp / 262144 - 240) * 262144 +
                 (128 + (cp / 4096) mod 64 - 128) * 4096 +
                 (128 + (cp / 64) mod 64 - 128) * 64 +
                 (128 + cp mod 64 - 128))%N with cp by arith.
        reflexivity.
Qed.

Lemma of_code_units_cons (u : N) (r : list N) :
  of_code_units (u :: r) =
  match r with
  | v :: r' =>
      if leading_surrogate u && trailing_surrogate v
      then utf8 (65536 + (u - 55296) * 1024 + (v - 56320))%N ++
           of_code_units r'
      else utf8 u ++ of_code_units r
  | [] => utf8 u ++ ""
  end.
Proof.
  destruct r as [|v r']; [|reflexivity].
  simpl. generalize (utf8 u). intros s. induction s; simpl; congruence.
Qed.

(** A code unit has sixteen bits. *)
Definition code_unit (u : N) : Prop := (u < 65536)%N.

Lemma to_code_units_of_upto (n : nat) (l : list N) :
  List.length l <= n -> Forall code_unit l ->
  to_code_units (of_code_units l) = l.
Proof.
  revert l. induction n as [|n IH]; intros l Hn Hl.
  - destruct l; [reflexivity | simpl in Hn; lia].
  - destruct l as [|u r]; [reflexivity|].
    inversion Hl as [|? ? Hu Hr]; subst. unfold code_unit in Hu.
    rewrite of_code_units_cons. destruct r as [|v r'].
    + rewrite to_code_units_utf8 by lia. unfold units_of.
      destruct (N.ltb_spec u 65536); [reflexivity | lia].
    + inversion Hr as [|? ? Hv Hr']; subst. unfold code_unit in Hv.
      simpl in Hn.
      destruct (leading_surrogate u && trailing_surrogate v) eqn:E.
      * apply andb_true_iff in E. destruct E as [E1 E2].
        unfold leading_surrogate in E1. unfold trailing_surrogate in E2.
        apply andb_true_iff in E1, E2.
        destruct E1 as [E1 E1'], E2 as [E2 E2'].
        apply N.leb_le in E1, E2. apply N.ltb_lt in E1', E2'.
        rewrite to_code_units_utf8 by lia.
        rewrite (IH r') by (assumption || lia). unfold units_of.
        destruct (N.ltb_spec (65536 + (u - 55296) * 1024 + (v - 56320)) 65536);
          [lia|].
        cbn [List.app]. f_equal; [arith | f_equal; arith].
      * rewrite to_code_units_utf8 by lia.
        rewrite (IH (v :: r')) by (assumption || simpl; lia).
        unfold units_of.
        destruct (N.ltb_spec u 65536); [reflexivity | lia].
Qed.

(** Two sequences of code units with the same model are the same. *)
Theorem of_code_units_inj (l l' : list N) :
  Forall code_unit l -> Forall code_unit l' ->
  of_code_units l = of_code_units l' -> l = l'.
Proof.
  intros Hl Hl' E.
  rewrite <- (to_code_units_of_upto (List.length l) l (le_n _) Hl).
  rewrite <- (to_code_units_of_upto (List.length l') l' (le_n _) Hl').
  now rewrite E.
Qed.

(** *** Quoting, code unit by code unit *)

(** The first byte of a surrogate that stands alone. *)
Definition surrogate_byte : ascii := ascii_of_N 237.

(** [quote_body] on the first bytes of a string, when what it does there
    does not depend on the bytes that follow. *)
Fixpoint quote_prefix (fuel : nat) (w : string) : option string :=
  match fuel, w with
  | _, EmptyString => Some ""
  | O, _ => None
  | S fuel', String c r =>
      if (c =? surrogate_byte)%char then
        match r with
        | String c2 (String c3 r') =>
            match lone_surrogate c c2 c3 with
            | Some h =>
                option_map (append (surrogate_escape h)) (quote_prefix fuel' r')
            | None =>
                option_map (append (quote_char c)) (quote_prefix fuel' r)
            end
        | _ => None
        end
      else option_map (append (quote_char c)) (quote_prefix fuel' r)
  end.

Lemma quote_body_cons (c : ascii) (r : string) :
  c <> surrogate_byte -> quote_body (String c r) = quote_char c ++ quote_body r.
Proof.
  intros Hc. destruct r as [|c2 [|c3 r']]; try reflexivity.
  cbn [quote_body].
  destruct (lone_surrogate c c2 c3) eqn:E; [|reflexivity].
  exfalso. apply Hc. unfold lone_surrogate in E.
  destruct c as [[] [] [] [] [] [] [] []]; try discriminate E. reflexivity.
Qed.

Lemma quote_body_three (c c2 c3 : ascii) (r : string) :
  quote_body (String c (String c2 (String c3 r))) =
  match lone_surrogate c c2 c3 with
  | Some h => surrogate_escape h ++ quote_body r
  | None => quote_char c ++ quote_body (String c2 (String c3 r))
  end.
Proof. reflexivity. Qed.

Lemma quote_prefix_spec (fuel : nat) (w x s : string) :
  quote_prefix fuel w = Some x -> quote_body (w ++ s) = x ++ quote_body s.
Proof.
  revert w x. induction fuel as [|fuel IH]; intros w x H.
  - destruct w; [|discriminate]. injection H as <-. reflexivity.
  - destruct w as [|c r]; [injection H as <-; reflexivity|].
    cbn [quote_prefix] in H.
    destruct (Ascii.eqb_spec c surrogate_byte) as [->|Hc].
    + destruct r as [|c2 [|c3 r']]; try discriminate.
      cbn [append]. rewrite quote_body_three.
      destruct (lone_surrogate surrogate_byte c2 c3) as [h|].
      * destruct (quote_prefix fuel r') as [y|] eqn:E; [|discriminate].
        assert (Hx : x = surrogate_escape h ++ y)
          by (cbn [option_map] in H; congruence).
        rewrite Hx, (IH _ _ E). now rewrite append_assoc.
      * destruct (quote_prefix fuel (String c2 (String c3 r'))) as [y|] eqn:E;
          [|discriminate].
        assert (Hx : x = quote_char surrogate_byte ++ y)
          by (cbn [option_map] in H; congruence).
        rewrite Hx, append_assoc. f_equal. exact (IH _ _ E).
    + destruct (quote_prefix fuel r) as [y|] eqn:E; [|discriminate].
      assert (Hx : x = quote_char c ++ y)
        by (cbn [option_map] in H; congruence).
      rewrite Hx. cbn [append].
      rewrite (quote_body_cons c _ Hc), (IH _ _ E).
      now rewrite append_assoc.
Qed.

(** [P] holds of [count] numbers from [u] on. *)
Fixpoint all_from (P : N -> bool) (count : nat) (u : N) : bool :=
  match count with
  | O => true
  | S count' => P u && all_from P count' (N.succ u)
  end.

Lemma all_from_spec (P : N -> bool) (count : nat) (a u : N) :
  all_from P count a = true ->
  (a <= u)%N -> (u < a + N.of_nat count)%N -> P u = true.
Proof.
  revert a. induction count as [|count IH]; intros a H Ha Hu; [lia|].
  cbn [all_from] in H. apply andb_true_iff in H. destruct H as [H0 H].
  destruct (N.eq_dec a u) as [->|Hne]; [assumption|].
  apply (IH (N.succ a)); [assumption | lia | lia].
Qed.

(** The bytes of the code unit [u] are quoted as [QuoteJSONString] quotes
    [u]. *)
Definition unit_quoted (u : N) : bool :=
  match quote_prefix 4 (utf8 u) with
  | Some x => x =? of_code_units (quote_unit u)
  | None => false
  end.

Lemma units_quoted : all_from unit_quoted (N.to_nat 65536) 0 = true.
Proof. vm_compute. reflexivity. Qed.

Lemma quote_body_unit_utf8 (u : N) (s : string) :
  code_unit u ->
  quote_body (utf8 u ++ s) = of_code_units (quote_unit u) ++ quote_body s.
Proof.
  intros Hu. unfold code_unit in Hu.
  assert (H : unit_quoted u = true).
  { apply (all_from_spec unit_quoted (N.to_nat 65536) 0 u units_quoted); lia. }
  unfold unit_quoted in H.
  destruct (quote_prefix 4 (utf8 u)) as [x|] eqn:E; [|discriminate].
  apply String.eqb_eq in H. subst x. exact (quote_prefix_spec 4 _ _ s E).
Qed.

Lemma byte_differs (n m : N) :
  (n < 256)%N -> (m < 256)%N -> n <> m -> ascii_of_N n <> ascii_of_N m.
Proof.
  intros Hn Hm Hne E. apply Hne.
  now rewrite <- (byte_code n Hn), <- (byte_code m Hm), E.
Qed.

Lemma quote_char_high (c : ascii) :
  (128 <= N_of_ascii c)%N -> quote_char c = String c "".
Proof.
  destruct c as [[] [] [] [] [] [] [] []]; intros H;
    try reflexivity; vm_compute in H; now elim H.
Qed.

Lemma quote_body_high (n : N) (r : string) :
  (128 <= n)%N -> (n < 256)%N -> n <> 237%N ->
  quote_body (String (ascii_of_N n) r) = String (ascii_of_N n) (quote_body r).
Proof.
  intros H1 H2 H3. rewrite quote_body_cons.
  - rewrite quote_char_high; [reflexivity|]. rewrite byte_code; assumption.
  - unfold surrogate_byte. apply byte_differs; (assumption || lia).
Qed.

Lemma quote_body_pair_utf8 (cp : N) (s : string) :
  (65536 <= cp)%N -> (cp < 1114112)%N ->
  quote_body (utf8 cp ++ s) = utf8 cp ++ quote_body s.
Proof.
  intros H1 H2. unfold utf8.
  destruct (N.ltb_spec cp 128); [lia|].
  destruct (N.ltb_spec cp 2048); [lia|].
  destruct (N.ltb_spec cp 65536); [lia|].
  cbn [append]. rewrite !quote_body_high by arith. reflexivity.
Qed.

Lemma of_code_units_single (u : N) (r : list N) :
  leading_surrogate u = false ->
  of_code_units (u :: r) = utf8 u ++ of_code_units r.
Proof.
  intros H. rewrite of_code_units_cons. destruct r; [reflexivity|].
  now rewrite H.
Qed.

Lemma of_code_units_app (a b : list N) :
  forallb (fun u => negb (leading_surrogate u)) a = true ->
  of_code_units (a ++ b) = of_code_units a ++ of_code_units b.
Proof.
  induction a as [|u a IH]; intros H; [reflexivity|].
  cbn [forallb] in H. apply andb_true_iff in H. destruct H as [Hu Ha].
  apply negb_true_iff in Hu. rewrite <- List.app_comm_cons.
  rewrite !of_code_units_single by assumption.
  now rewrite IH, append_assoc.
Qed.

(** What a code unit is quoted as holds no leading surrogate. *)
Definition unit_plain (u : N) : bool :=
  forallb (fun v => negb (leading_surrogate v)) (quote_unit u).

Lemma units_plain : all_from unit_plain (N.to_nat 65536) 0 = true.
Proof. vm_compute. reflexivity. Qed.

Lemma quote_unit_plain (u : N) :
  code_unit u ->
  forallb (fun v => negb (leading_surrogate v)) (quote_unit u) = true.
Proof.
  intros Hu. unfold code_unit in Hu.
  apply (all_from_spec unit_plain (N.to_nat 65536) 0 u units_plain); lia.
Qed.

Lemma quote_units_cons (u : N) (r : list N) :
  quote_units (u :: r) =
  match r with
  | v :: r' =>
      if leading_surrogate u && trailing_surrogate v
      then u :: v :: quote_units r'
      else (quote_unit u ++ quote_units r)%list
  | [] => (quote_unit u ++ [])%list
  end.
Proof.
  destruct r; [|reflexivity]. simpl. now rewrite List.app_nil_r.
Qed.

Lemma quote_body_units_upto (n : nat) (l : list N) :
  List.length l <= n -> Forall code_unit l ->
  quote_body (of_code_units l) = of_code_units (quote_units l).
Proof.
  revert l. induction n as [|n IH]; intros l Hn Hl.
  - destruct l; [reflexivity | simpl in Hn; lia].
  - destruct l as [|u r]; [reflexivity|].
    inversion Hl as [|? ? Hu Hr]; subst.
    rewrite of_code_units_cons, quote_units_cons. destruct r as [|v r'].
    + rewrite quote_body_unit_utf8 by assumption.
      now rewrite of_code_units_app by now apply quote_unit_plain.
    + inversion Hr as [|? ? Hv Hr']; subst. simpl in Hn.
      destruct (leading_surrogate u && trailing_surrogate v) eqn:E.
      * rewrite (of_code_units_cons u), E.
        apply andb_true_iff in E. destruct E as [E1 E2].
        unfold leading_surrogate in E1. unfold trailing_surrogate in E2.
        apply andb_true_iff in E1, E2.
        destruct E1 as [E1 E1'], E2 as [E2 E2'].
        apply N.leb_le in E1, E2. apply N.ltb_lt in E1', E2'.
        rewrite quote_body_pair_utf8 by lia.
        now rewrite (IH r') by (assumption || lia).
      * rewrite quote_body_unit_utf8 by assumption.
        rewrite of_code_units_app by now apply quote_unit_plain.
        now rewrite (IH (v :: r')) by (assumption || simpl; lia).
Qed.

(** On every string, the quoting of the model is [QuoteJSONString]. *)
Theorem quote_body_units (l : list N) :
  Forall code_unit l ->
  quote_body (of_code_units l) = of_code_units (quote_units l).
Proof.
  exact (quote_body_units_upto (List.length l) l (le_n _)).
Qed.

(** [QuoteJSONString] tells any two strings apart. *)
Theorem quote_units_inj (l l' : list N) :
  Forall code_unit l -> Forall code_unit l' ->
  quote_units l = quote_units l' -> l = l'.
Proof.
  intros Hl Hl' E. apply of_code_units_inj; try assumption.
  assert (H : quote_body (of_code_units l) ++ String dquote "" =
              quote_body (of_code_units l') ++ String dquote "")
    by now rewrite !quote_body_units, E.
  exact (proj1 (quote_body_split_upto _ _ _ _ _ (le_n _) H)).
Qed.

(** A letter with an accent, a character outside the basic plane, a
    leading surrogate before an ASCII letter, and a line feed. *)
Example quote_units_sample :
  quote_units [233; 55357; 56832; 55357; 97; 10]%N
  = [233; 55357; 56832; 92; 117; 100; 56; 51; 100; 97; 92; 110]%N.
Proof. reflexivity. Qed.

End StringFacts.
(** ** More about the protocol *)

Module ProtocolCoverage.
Import Js.
Import ActionCable.
Import ObjectFacts.
Import ProtocolFacts.

(** *** Which frames [receive] routes *)

(** The five types [receive] knows. *)
Definition known_type (type : JsValue) : bool :=
  strict_eq type (JStr "ping") || strict_eq type (JStr "welcome") ||
  strict_eq type (JStr "disconnect") ||
  strict_eq type (JStr "confirm_subscription") ||
  strict_eq type (JStr "reject_subscription").

Lemma known_type_false type :
  known_type type = false ->
  strict_eq type (JStr "ping") = false /\
  strict_eq type (JStr "welcome") = false /\
  strict_eq type (JStr "disconnect") = false /\
  strict_eq type (JStr "confirm_subscription") = false /\
  strict_eq type (JStr "reject_subscription") = false.
Proof.
  unfold known_type. intros H.
  repeat (apply orb_false_iff in H; destruct H as [H ?]). tauto.
Qed.

(** A frame of no known type, on an object or an array. *)
Lemma receive_other (msg : JsValue) (s : State) :
  typeof msg = "object" -> msg <> JNull ->
  known_type (get_prop msg "type") = false ->
  receive msg s =
  if truthy (get_prop msg "message")
  then (Normal (RRouted (get_prop msg "identifier") (get_prop msg "message")),
        s)
  else
    match to_string (get_prop msg "type") with
    | Some name =>
        (Normal RUndefined,
         after s
           [LoggerWarn ("unknown message type: " ++ name) [("message", msg)]])
    | None => (Throw not_primitive, s)
    end.
Proof.
  intros Hobj Hnull Hk.
  destruct (known_type_false _ Hk) as (H1 & H2 & H3 & H4 & H5).
  rewrite (receive_outcome msg s Hobj Hnull). unfold frame_outcome.
  rewrite H1, H2, H3, H4, H5.
  destruct (truthy (get_prop msg "message")); [reflexivity|].
  now destruct (to_string (get_prop msg "type")).
Qed.

(** The type of a reply to [subscribe], and the method it calls. *)
Definition is_reply (type : JsValue) : bool :=
  strict_eq type (JStr "confirm_subscription") ||
  strict_eq type (JStr "reject_subscription").

Definition method_of (type : JsValue) : string :=
  if strict_eq type (JStr "confirm_subscription") then "resolve" else "reject".

Lemma strict_eq_string (v : JsValue) (t : string) :
  strict_eq v (JStr t) = true -> v = JStr t.
Proof.
  destruct v as [| |b|[]|u| |]; try discriminate. simpl.
  intros H. apply String.eqb_eq in H. now subst.
Qed.

(** A frame that is a reply. *)
Lemma receive_is_reply (msg : JsValue) (s : State) :
  typeof msg = "object" -> msg <> JNull ->
  is_reply (get_prop msg "type") = true ->
  receive msg s =
  reply (if strict_eq (get_prop msg "type") (JStr "confirm_subscription")
         then "confirm_subscription" else "reject_subscription")
    (get_prop msg "identifier") s.
Proof.
  intros Hobj Hnull Hr.
  rewrite (receive_outcome msg s Hobj Hnull). unfold frame_outcome.
  unfold is_reply in Hr. apply orb_true_iff in Hr.
  destruct Hr as [Hr|Hr]; apply strict_eq_string in Hr; rewrite Hr;
    reflexivity.
Qed.

(** X1.  With a cable and a logger whose methods return, [receive] throws
    in three situations and in no other, each time a [TypeError], and the
    state is then as before: for [null]; for a reply to [subscribe] whose
    identifier cannot be made a property key, or names, with no entry in
    the table, a member of [Object.prototype]; and for a frame of no known
    type without a truthy [message] whose type cannot be printed. *)
Theorem receive_throws (msg : JsValue) (s : State) (e : JsError) :
  (fst (receive msg s) = Throw e <->
   (msg = JNull /\
    e = TypeError
          "Cannot destructure property 'type' of 'msg' as it is null.") \/
   (typeof msg = "object" /\ msg <> JNull /\
    is_reply (get_prop msg "type") = true /\
    ((to_property_key (get_prop msg "identifier") = None /\
      e = TypeError "Cannot convert object to primitive value") \/
     (exists key,
        to_property_key (get_prop msg "identifier") = Some key /\
        obj_get key (pendingSubscriptions s) = None /\
        inherited key = true /\
        e = TypeError ("subscription." ++ method_of (get_prop msg "type") ++
                       " is not a function")))) \/
   (typeof msg = "object" /\ msg <> JNull /\
    known_type (get_prop msg "type") = false /\
    truthy (get_prop msg "message") = false /\
    to_string (get_prop msg "type") = None /\
    e = TypeError "Cannot convert object to primitive value")) /\
  (fst (receive msg s) = Throw e -> snd (receive msg s) = s).
Proof.
  destruct (String.eqb_spec (typeof msg) "object") as [Hobj|Hobj].
  2: { rewrite (receive_non_object msg s Hobj). split; [|discriminate].
       split; [discriminate|].
       intros [[-> _]|[(H & _)|(H & _)]]; contradiction || now elim Hobj. }
  destruct msg as [| |b|n|t|l|ps]; try discriminate Hobj.
  - split; [|reflexivity]. split.
    + intros [= <-]. now left.
    + intros [[_ ->]|[(_ & H & _)|(_ & H & _)]];
        [reflexivity | now elim H | now elim H].
  - split; [|discriminate]. split; [discriminate|].
    intros [[H _]|[(_ & _ & H & _)|(_ & _ & _ & _ & H & _)]]; discriminate.
  - assert (Hnull : JObj ps <> JNull) by discriminate.
    destruct (known_type (get_prop (JObj ps) "type")) eqn:Hk.
    + destruct (is_reply (get_prop (JObj ps) "type")) eqn:Hr.
      * rewrite (receive_is_reply _ s Hobj Hnull Hr).
        unfold reply, obj_lookup, method_of.
        destruct (to_property_key (get_prop (JObj ps) "identifier"))
          as [key|] eqn:Ekey.
        -- destruct (obj_get key (pendingSubscriptions s)) as [p|] eqn:Eget;
             [|destruct (inherited key) eqn:Einh].
           ++ split; [|discriminate]. split; [discriminate|].
              intros [[H _]|[(_ & _ & _ & [[H _]|(k & [= <-] & H & _)])|
                             (_ & _ & H & _)]]; congruence.
           ++ split; [|reflexivity]. split.
              ** intros [= <-]. right. left.
                 repeat (split; [assumption || reflexivity|]).
                 right. exists key. repeat split; try assumption.
                 unfold not_a_function, reply_method.
                 destruct (strict_eq _ _); reflexivity.
              ** intros [[H _]|[(_ & _ & _ & [[H _]|(k & _ & _ & _ & ->)])|
                                (_ & _ & H & _)]]; try congruence.
                 unfold not_a_function, reply_method.
                 destruct (strict_eq _ _); reflexivity.
           ++ split; [|discriminate]. split; [discriminate|].
              intros [[H _]|[(_ & _ & _ & [[H _]|(k & [= <-] & _ & H & _)])|
                             (_ & _ & H & _)]]; congruence.
        -- split; [|reflexivity]. split.
           ++ intros [= <-]. right. left.
              repeat (split; [assumption || reflexivity|]). now left.
           ++ intros [[H _]|[(_ & _ & _ & [[_ ->]|(k & H & _)])|
                             (_ & _ & H & _)]];
                first [reflexivity | congruence].
      * assert (Hn : forall e', fst (receive (JObj ps) s) <> Throw e').
        { intros e'. rewrite (receive_outcome _ s Hobj Hnull).
          unfold frame_outcome. unfold known_type, is_reply in Hk, Hr.
          destruct (strict_eq (get_prop (JObj ps) "type") (JStr "ping"));
            [discriminate|].
          destruct (strict_eq (get_prop (JObj ps) "type") (JStr "welcome"));
            [discriminate|].
          destruct (strict_eq (get_prop (JObj ps) "type") (JStr "disconnect"));
            [discriminate|].
          cbn [orb] in Hk. rewrite Hr in Hk. discriminate. }
        split; [|intros H; now elim (Hn e)]. split.
        -- intros H. now elim (Hn e).
        -- intros [[H _]|[(_ & _ & H & _)|(_ & _ & H & _)]]; congruence.
    + rewrite (receive_other _ s Hobj Hnull Hk).
      assert (Hr : is_reply (get_prop (JObj ps) "type") = false).
      { destruct (known_type_false _ Hk) as (_ & _ & _ & H4 & H5).
        unfold is_reply. now rewrite H4, H5. }
      destruct (truthy (get_prop (JObj ps) "message")) eqn:Ht.
      * split; [|discriminate]. split; [discriminate|].
        intros [[H _]|[(_ & _ & H & _)|(_ & _ & _ & H & _)]]; congruence.
      * destruct (to_string (get_prop (JObj ps) "type")) as [name|] eqn:En.
        -- split; [|discriminate]. split; [discriminate|].
           intros [[H _]|[(_ & _ & H & _)|(_ & _ & _ & _ & H & _)]];
             congruence.
        -- split; [|reflexivity]. split.
           ++ intros [= <-]. right. right. repeat split; assumption.
           ++ intros [[H _]|[(_ & _ & H & _)|(_ & _ & _ & _ & _ & ->)]];
                [discriminate | congruence | reflexivity].
Qed.

(** A frame of a known type is never routed. *)
Lemma receive_known_not_routed (msg : JsValue) (s : State) i m :
  known_type (get_prop msg "type") = true ->
  fst (receive msg s) <> Normal (RRouted i m).
Proof.
  intros Hk.
  destruct msg as [| |b|n|t|l|ps]; try discriminate.
  rewrite receive_outcome by (reflexivity || discriminate).
  unfold frame_outcome, known_type in *.
  repeat match goal with
         | |- context [if strict_eq ?a ?b then _ else _] =>
             destruct (strict_eq a b) eqn:?
         end;
    try discriminate Hk; try discriminate;
    unfold reply; destruct (to_property_key _); try discriminate;
    destruct (obj_lookup _ _); discriminate.
Qed.

(** X2.  [receive] returns a routed event exactly for a frame (an object or
    an array) whose type is none of the five known ones and whose [message]
    is truthy; the event carries the frame's [identifier] and [message], and
    the protocol's state and the trace are as before. *)
Theorem receive_routes (msg : JsValue) (s : State) (i m : JsValue) :
  (fst (receive msg s) = Normal (RRouted i m) <->
   typeof msg = "object" /\ msg <> JNull /\
   known_type (get_prop msg "type") = false /\
   truthy (get_prop msg "message") = true /\
   i = get_prop msg "identifier" /\ m = get_prop msg "message") /\
  (fst (receive msg s) = Normal (RRouted i m) -> snd (receive msg s) = s).
Proof.
  assert (Hfwd : fst (receive msg s) = Normal (RRouted i m) ->
                 typeof msg = "object" /\ msg <> JNull /\
                 known_type (get_prop msg "type") = false /\
                 truthy (get_prop msg "message") = true /\
                 i = get_prop msg "identifier" /\ m = get_prop msg "message").
  { intros H.
    assert (Hobj : typeof msg = "object")
      by (destruct msg; try reflexivity; discriminate H).
    assert (Hnull : msg <> JNull) by (intros ->; discriminate H).
    destruct (known_type (get_prop msg "type")) eqn:Hk.
    - exfalso. exact (receive_known_not_routed msg s i m Hk H).
    - rewrite (receive_other msg s Hobj Hnull Hk) in H.
      destruct (truthy (get_prop msg "message")); simpl in H;
        [|destruct (to_string (get_prop msg "type")); discriminate].
      injection H as <- <-. tauto. }
  split; [split; [exact Hfwd|] |].
  - intros (Hobj & Hnull & Hk & Ht & -> & ->).
    rewrite (receive_other msg s Hobj Hnull Hk), Ht. reflexivity.
  - intros H. destruct (Hfwd H) as (Hobj & Hnull & Hk & Ht & _).
    rewrite (receive_other msg s Hobj Hnull Hk), Ht. reflexivity.
Qed.

(** X3.  A frame of no known type whose [message] is absent or falsy ([0],
    the empty string, [false], [null], [NaN]) is not routed: [receive]
    reports it with one call of [logger.warn] that names the type, and
    returns [undefined].  When the type cannot be printed (an object with a
    property [toString] of its own), the template of the warning throws a
    [TypeError] instead, and nothing is logged. *)
Theorem receive_drops_falsy_message (msg : JsValue) (s : State) :
  typeof msg = "object" -> msg <> JNull ->
  known_type (get_prop msg "type") = false ->
  truthy (get_prop msg "message") = false ->
  receive msg s =
  match to_string (get_prop msg "type") with
  | Some name =>
      (Normal RUndefined,
       after s
         [LoggerWarn ("unknown message type: " ++ name) [("message", msg)]])
  | None =>
      (Throw (TypeError "Cannot convert object to primitive value"), s)
  end.
Proof.
  intros Hobj Hnull Hk Ht. now rewrite (receive_other msg s Hobj Hnull Hk), Ht.
Qed.

(** A data frame whose payload is the number zero, and a frame whose type
    is an object that cannot be printed. *)
Definition zero_frame : JsValue :=
  JObj [("identifier", JStr "chat"); ("message", JNum (NInt 0))].

Definition odd_frame : JsValue :=
  JObj [("type", JObj [("toString", JNum (NInt 1))])].

Lemma receive_drops_falsy_message_witness :
  (typeof zero_frame = "object" /\ zero_frame <> JNull /\
   known_type (get_prop zero_frame "type") = false /\
   truthy (get_prop zero_frame "message") = false) /\
  receive zero_frame constructor =
  (Normal RUndefined,
   after constructor
     [LoggerWarn "unknown message type: undefined"
        [("message", zero_frame)]]) /\
  receive odd_frame constructor =
  (Throw (TypeError "Cannot convert object to primitive value"), constructor).
Proof.
  split; [repeat split; discriminate|]. split.
  - apply (receive_drops_falsy_message zero_frame constructor);
      [reflexivity | discriminate | reflexivity | reflexivity].
  - apply (receive_drops_falsy_message odd_frame constructor);
      [reflexivity | discriminate | reflexivity | reflexivity].
Defined.

(** *** What a frame can do *)

Definition is_send (e : Effect) : bool :=
  match e with CableSend _ => true | _ => false end.

(** The promises a trace settles are among those of the table [t]. *)
Definition settles_within (t : JsObject PromiseId) (es : list Effect) : Prop :=
  forall q, ~ In q (map snd t) -> promise_state q es = Pending.

Lemma rejections_no_send err t :
  forallb (fun e => negb (is_send e)) (rejections err t) = true.
Proof.
  induction t as [|[k p] r IH]; simpl; auto.
Qed.

Lemma rejections_settle_within err t : settles_within t (rejections err t).
Proof.
  intros q Hq. rewrite promise_state_rejections.
  destruct (existsb (Nat.eqb q) (map snd t)) eqn:E; [|reflexivity].
  apply existsb_eqb_In in E. contradiction.
Qed.

Lemma settle_one_within (t : JsObject PromiseId) k p (e : Effect) :
  obj_get k t = Some p ->
  (forall q, q <> p -> promise_state q [e] = Pending) ->
  settles_within t [e].
Proof.
  intros Hk He q Hq. apply He. intros ->. apply Hq.
  exact (obj_get_In k p t Hk).
Qed.

(** What one frame adds to the trace. *)
Lemma receive_trace (msg : JsValue) (s : State) :
  promises (snd (receive msg s)) = promises s /\
  (pendingSubscriptions (snd (receive msg s)) = pendingSubscriptions s \/
   pendingSubscriptions (snd (receive msg s)) = []) /\
  exists es,
    effects (snd (receive msg s)) = (effects s ++ es)%list /\
    forallb (fun e => negb (is_send e)) es = true /\
    settles_within (pendingSubscriptions s) es.
Proof.
  assert (Hsame : promises s = promises s /\
            (pendingSubscriptions s = pendingSubscriptions s \/
             pendingSubscriptions s = []) /\
            exists es,
              effects s = (effects s ++ es)%list /\
              forallb (fun e => negb (is_send e)) es = true /\
              settles_within (pendingSubscriptions s) es).
  { split; [reflexivity|]. split; [now left|]. exists [].
    rewrite List.app_nil_r. repeat split. }
  assert (Hone : forall e,
            is_send e = false ->
            settles_within (pendingSubscriptions s) [e] ->
            promises (after s [e]) = promises s /\
            (pendingSubscriptions (after s [e]) = pendingSubscriptions s \/
             pendingSubscriptions (after s [e]) = []) /\
            exists es,
              effects (after s [e]) = (effects s ++ es)%list /\
              forallb (fun e => negb (is_send e)) es = true /\
              settles_within (pendingSubscriptions s) es).
  { intros e He Hw. split; [reflexivity|]. split; [now left|].
    exists [e]. split; [reflexivity|]. split; [|assumption].
    simpl. now rewrite He. }
  assert (Hquiet : forall e,
            (forall q, promise_state q [e] = Pending) ->
            settles_within (pendingSubscriptions s) [e]).
  { intros e He q _. apply He. }
  assert (Hreply : forall type i,
            promises (snd (reply type i s)) = promises s /\
            (pendingSubscriptions (snd (reply type i s))
             = pendingSubscriptions s \/
             pendingSubscriptions (snd (reply type i s)) = []) /\
            exists es,
              effects (snd (reply type i s)) = (effects s ++ es)%list /\
              forallb (fun e => negb (is_send e)) es = true /\
              settles_within (pendingSubscriptions s) es).
  { intros type i. unfold reply, obj_lookup.
    destruct (to_property_key i) as [key|]; [|exact Hsame].
    destruct (obj_get key (pendingSubscriptions s)) as [p|] eqn:Hget;
      [|destruct (inherited key); [exact Hsame|]].
    - apply Hone.
      + unfold settle_with. now destruct (type =? _).
      + apply (settle_one_within _ _ _ _ Hget). intros q Hq.
        unfold settle_with. destruct (type =? _); simpl;
          destruct (Nat.eqb_spec p q); congruence.
    - apply Hone; [reflexivity | now apply Hquiet]. }
  destruct msg as [| |b|n|t|l|ps];
    try (apply Hone; [reflexivity | now apply Hquiet]);
    try exact Hsame.
  rewrite receive_outcome by (reflexivity || discriminate).
  unfold frame_outcome.
  repeat match goal with
         | |- context [if ?b then _ else _] => destruct b
         end;
    try (apply Hone; [reflexivity | now apply Hquiet]);
    try apply Hreply; try exact Hsame.
  - simpl. split; [reflexivity|]. split; [now right|].
    eexists. split; [reflexivity|]. split.
    + rewrite forallb_app, rejections_no_send.
      now destruct (obj_get "reconnect" ps) as [[| |[]| | | |]|].
    + intros q Hq. rewrite promise_state_app,
        (rejections_settle_within _ _ q Hq).
      now destruct (obj_get "reconnect" ps) as [[| |[]| | | |]|].
  - destruct (to_string _);
      [apply Hone; [reflexivity | now apply Hquiet] | exact Hsame].
Qed.

Lemma filter_none {A} (f : A -> bool) (l : list A) :
  forallb (fun x => negb (f x)) l = true -> filter f l = [].
Proof.
  induction l as [|x r IH]; simpl; [reflexivity|].
  intros H. apply andb_true_iff in H. destruct H as [Hx Hr].
  apply negb_true_iff in Hx. rewrite Hx. auto.
Qed.

(** X4.  Whatever the frame, [receive] creates no promise and sends nothing
    on the cable: the commands sent are those sent before.  It only adds to
    the trace, changes the state of no promise whose continuation is not in
    the table, and leaves the table as it was or empties it. *)
Theorem receive_footprint (msg : JsValue) (s : State) :
  promises (snd (receive msg s)) = promises s /\
  (pendingSubscriptions (snd (receive msg s)) = pendingSubscriptions s \/
   pendingSubscriptions (snd (receive msg s)) = []) /\
  filter is_send (effects (snd (receive msg s))) = filter is_send (effects s) /\
  firstn (List.length (effects s)) (effects (snd (receive msg s)))
    = effects s /\
  (forall q, ~ In q (map snd (pendingSubscriptions s)) ->
     promise_state q (effects (snd (receive msg s)))
     = promise_state q (effects s)).
Proof.
  destruct (receive_trace msg s) as (Hn & Htab & es & Hes & Hsend & Hw).
  split; [exact Hn | split; [exact Htab|]]. rewrite Hes.
  split; [|split].
  - rewrite filter_app, (filter_none _ _ Hsend). apply List.app_nil_r.
  - rewrite firstn_app, Nat.sub_diag, firstn_all. simpl.
    apply List.app_nil_r.
  - intros q Hq. rewrite promise_state_app, (Hw q Hq).
    now destruct (promise_state q (effects s)).
Qed.

(** *** States a protocol object can reach *)

Lemma obj_set_values {A} (k : string) (v x : A) (o : JsObject A) :
  In x (map snd (obj_set k v o)) -> x = v \/ In x (map snd o).
Proof.
  unfold obj_set. destruct (obj_has k o).
  - induction o as [|[k' v'] r IH]; simpl; [tauto|].
    destruct (k' =? k); simpl; intuition auto.
  - destruct (k =? "__proto__"); [tauto|].
    destruct (array_index k) as [n|].
    + induction o as [|[k' v'] r IH]; simpl; [intuition auto|].
      destruct (array_index k') as [n'|]; [destruct (n' <? n)%N|]; simpl;
        intuition auto.
    + rewrite map_app, in_app_iff. simpl. intuition auto.
Qed.

(** Every continuation of the table belongs to a promise that [subscribe]
    created, and a promise that was not created yet is not settled. *)
Definition well_formed (s : State) : Prop :=
  (forall p, In p (map snd (pendingSubscriptions s)) -> p < promises s) /\
  (forall q, promises s <= q -> promise_state q (effects s) = Pending).

Lemma well_formed_settled s es :
  well_formed s -> settles_within (pendingSubscriptions s) es ->
  forall q, promises s <= q ->
    promise_state q (effects s ++ es)%list = Pending.
Proof.
  intros [Ht He] Hes q Hq. rewrite promise_state_app, (He q Hq).
  apply Hes. intros Hin. apply Ht in Hin. lia.
Qed.

Lemma call_well_formed (c : Call) (s : State) :
  well_formed s -> well_formed (call c s).
Proof.
  intros Hs. pose proof Hs as [Ht He].
  destruct c as [ch ps|i|i a pl|m|e]; unfold call.
  - rewrite subscribe_spec. simpl. split; simpl.
    + intros p Hp. apply obj_set_values in Hp. destruct Hp as [->|Hp];
        [lia | apply Ht in Hp; lia].
    + intros q Hq. rewrite promise_state_app, (He q ltac:(lia)). reflexivity.
  - split; simpl; [assumption|].
    intros q Hq. rewrite promise_state_app, (He q Hq). reflexivity.
  - split; simpl; [assumption|].
    intros q Hq. rewrite promise_state_app, (He q Hq). reflexivity.
  - destruct (receive_trace m s) as (Hn & Htab & es & Hes & _ & Hw).
    split.
    + rewrite Hn. destruct Htab as [-> | ->]; [assumption | intros p []].
    + rewrite Hn, Hes. now apply well_formed_settled.
  - rewrite reset_spec. split; simpl.
    + intros p [].
    + apply well_formed_settled; [assumption|].
      apply rejections_settle_within.
Qed.

Lemma run_well_formed (cs : list Call) (s : State) :
  well_formed s -> well_formed (run cs s).
Proof.
  revert s. induction cs as [|c r IH]; intros s Hs; simpl;
    [assumption | apply IH; now apply call_well_formed].
Qed.

Lemma constructor_well_formed : well_formed constructor.
Proof.
  split; [intros p [] | reflexivity].
Qed.

(** The frame with which the server answers a [subscribe]. *)
Definition reply_frame (type identifier : string) : JsValue :=
  JObj [("type", JStr type); ("identifier", JStr identifier)].

(** X5.  On a protocol object, after any calls, [subscribe] returns a
    promise that is new and pending; when the server's next frame confirms
    the identifier that was sent, the promise is fulfilled with that
    identifier, and when it rejects it, the promise is rejected with a
    [SubscriptionRejectedError]. *)
Theorem subscribe_reply_round_trip (cs : list Call) (channel : string)
  (params : option (JsObject JsValue)) :
  fst (subscribe channel params (run cs constructor))
    = Normal (promises (run cs constructor)) /\
  promise_state (promises (run cs constructor))
    (effects (snd (subscribe channel params (run cs constructor))))
    = Pending /\
  promise_state (promises (run cs constructor))
    (effects
       (snd (receive
               (reply_frame "confirm_subscription"
                  (subscription_identifier channel params))
               (snd (subscribe channel params (run cs constructor))))))
    = Fulfilled (JStr (subscription_identifier channel params)) /\
  promise_state (promises (run cs constructor))
    (effects
       (snd (receive
               (reply_frame "reject_subscription"
                  (subscription_identifier channel params))
               (snd (subscribe channel params (run cs constructor))))))
    = Rejected SubscriptionRejectedError.
Proof.
  set (s := run cs constructor).
  assert (Hs : well_formed s)
    by (apply run_well_formed, constructor_well_formed).
  assert (Hp : promise_state (promises s)
                 (effects (snd (subscribe channel params s))) = Pending).
  { rewrite subscribe_spec. simpl. rewrite promise_state_app.
    destruct Hs as [_ He]. now rewrite (He (promises s) (le_n _)). }
  split; [reflexivity | split; [exact Hp | split]].
  - unfold reply_frame.
    rewrite (receive_reply
               [("type", JStr "confirm_subscription");
                ("identifier", JStr (subscription_identifier channel params))]
               _ "confirm_subscription" (or_introl eq_refl) eq_refl).
    unfold reply, obj_lookup.
    change (to_property_key (get_prop _ "identifier"))
      with (Some (subscription_identifier channel params)).
    cbv iota. rewrite subscribe_spec in *. simpl pendingSubscriptions.
    rewrite obj_get_set_same by apply subscription_identifier_key.
    simpl in *.
    rewrite promise_state_app, Hp. simpl. now rewrite Nat.eqb_refl.
  - unfold reply_frame.
    rewrite (receive_reply
               [("type", JStr "reject_subscription");
                ("identifier", JStr (subscription_identifier channel params))]
               _ "reject_subscription" (or_intror eq_refl) eq_refl).
    unfold reply, obj_lookup.
    change (to_property_key (get_prop _ "identifier"))
      with (Some (subscription_identifier channel params)).
    cbv iota. rewrite subscribe_spec in *. simpl pendingSubscriptions.
    rewrite obj_get_set_same by apply subscription_identifier_key.
    simpl in *.
    rewrite promise_state_app, Hp. simpl. now rewrite Nat.eqb_refl.
Qed.

(** X6.  A [confirm_subscription] or [reject_subscription] frame changes
    the state of no promise but the one whose continuation is stored under
    the frame's identifier: subscriptions that are pending under other
    identifiers are not disturbed. *)
Theorem reply_settles_one (frame : JsObject JsValue) (s : State)
  (type : string) (q : PromiseId) :
  type = "confirm_subscription" \/ type = "reject_subscription" ->
  obj_get "type" frame = Some (JStr type) ->
  (forall key,
     to_property_key (get_prop (JObj frame) "identifier") = Some key ->
     obj_get key (pendingSubscriptions s) <> Some q) ->
  promise_state q (effects (snd (receive (JObj frame) s))) =
  promise_state q (effects s).
Proof.
  intros Htype H Hq. rewrite (receive_reply frame s type Htype H).
  unfold reply, obj_lookup.
  destruct (to_property_key (get_prop (JObj frame) "identifier"))
    as [key|]; [|reflexivity].
  specialize (Hq key eq_refl).
  destruct (obj_get key (pendingSubscriptions s)) as [p|];
    [|destruct (inherited key)]; simpl; try reflexivity;
    rewrite promise_state_app;
    destruct (promise_state q (effects s)); try reflexivity.
  unfold settle_with. destruct (type =? "confirm_subscription"); simpl;
    destruct (Nat.eqb_spec p q); congruence.
Qed.

(** Two channels are pending and the first is confirmed. *)
Definition two_pending : State :=
  run [CallSubscribe "chat" None; CallSubscribe "news" None] constructor.

Lemma reply_settles_one_witness :
  (obj_get "type"
     [("type", JStr "confirm_subscription");
      ("identifier", JStr (subscription_identifier "chat" None))]
   = Some (JStr "confirm_subscription") /\
   obj_get (subscription_identifier "chat" None)
     (pendingSubscriptions two_pending) <> Some 1) /\
  promise_state 1
    (effects
       (snd (receive
               (reply_frame "confirm_subscription"
                  (subscription_identifier "chat" None)) two_pending)))
  = Pending.
Proof.
  split; [split; [reflexivity | discriminate]|].
  unfold reply_frame.
  rewrite (reply_settles_one
             [("type", JStr "confirm_subscription");
              ("identifier", JStr (subscription_identifier "chat" None))]
             two_pending "confirm_subscription" 1
             (or_introl eq_refl) eq_refl).
  - reflexivity.
  - intros key [= <-]. discriminate.
Defined.

(** How the continuation found in the table is settled. *)
Definition reply_outcome (type : string) (identifier : JsValue)
  : PromiseState :=
  if type =? "confirm_subscription" then Fulfilled identifier
  else Rejected SubscriptionRejectedError.

(** X21.  On a [confirm_subscription] frame [receive] makes the frame's
    [identifier] a property key, looks it up in the table and calls
    [resolve(identifier)] on the continuation it finds, so that its
    promise, if pending, is fulfilled with the identifier; on a
    [reject_subscription] frame it calls [reject] with a
    [SubscriptionRejectedError].  When the table has no entry under the key
    and the key is no name of [Object.prototype], the only thing [receive]
    does is one call of [logger.error]; when it is such a name, [receive]
    throws.  The table and the promises created are as before.  The key of
    a string is the string, and so is the key of an array that holds
    nothing but that string. *)
Theorem reply_by_property_key (frame : JsObject JsValue) (s : State)
  (type key : string) :
  type = "confirm_subscription" \/ type = "reject_subscription" ->
  obj_get "type" frame = Some (JStr type) ->
  to_property_key (get_prop (JObj frame) "identifier") = Some key ->
  to_property_key (JStr key) = Some key /\
  to_property_key (JArr [JStr key]) = Some key /\
  pendingSubscriptions (snd (receive (JObj frame) s)) = pendingSubscriptions s /\
  promises (snd (receive (JObj frame) s)) = promises s /\
  match obj_get key (pendingSubscriptions s) with
  | Some p =>
      fst (receive (JObj frame) s) = Normal RUndefined /\
      effects (snd (receive (JObj frame) s)) =
        (effects s ++
         [settle_with type p (get_prop (JObj frame) "identifier")])%list /\
      (promise_state p (effects s) = Pending ->
       promise_state p (effects (snd (receive (JObj frame) s))) =
       reply_outcome type (get_prop (JObj frame) "identifier"))
  | None =>
      if inherited key then
        receive (JObj frame) s =
        (Throw (TypeError ("subscription." ++ reply_method type ++
                           " is not a function")), s)
      else
        fst (receive (JObj frame) s) =
          Normal
            (RResultOf
               (LoggerError "subscription not found"
                  [("identifier", get_prop (JObj frame) "identifier")])) /\
        effects (snd (receive (JObj frame) s)) =
          (effects s ++
           [LoggerError "subscription not found"
              [("identifier", get_prop (JObj frame) "identifier")]])%list
  end.
Proof.
  intros Htype H Hkey. rewrite (receive_reply frame s type Htype H).
  unfold reply, obj_lookup. rewrite Hkey.
  split; [reflexivity|]. split; [reflexivity|].
  destruct (obj_get key (pendingSubscriptions s)) as [p|];
    [|destruct (inherited key)]; simpl.
  - repeat split. intros Hp. rewrite promise_state_app, Hp.
    unfold settle_with, reply_outcome.
    destruct Htype as [-> | ->]; simpl; now rewrite Nat.eqb_refl.
  - repeat split.
  - repeat split.
Qed.

(** The server confirms a subscription and wraps the identifier in an
    array: the key is the same, and the promise is fulfilled with the
    array. *)
Definition wrapped_confirmation : JsObject JsValue :=
  [("type", JStr "confirm_subscription");
   ("identifier", JArr [JStr (subscription_identifier "chat" None)])].

Lemma reply_by_property_key_witness :
  (obj_get "type" wrapped_confirmation = Some (JStr "confirm_subscription") /\
   to_property_key (get_prop (JObj wrapped_confirmation) "identifier")
   = Some (subscription_identifier "chat" None)) /\
  promise_state 0
    (effects
       (snd (receive (JObj wrapped_confirmation)
               (snd (subscribe "chat" None constructor)))))
  = Fulfilled (JArr [JStr (subscription_identifier "chat" None)]).
Proof.
  split; [split; reflexivity|].
  pose proof (reply_by_property_key wrapped_confirmation
                (snd (subscribe "chat" None constructor))
                "confirm_subscription" (subscription_identifier "chat" None)
                (or_introl eq_refl) eq_refl eq_refl) as H.
  destruct H as (_ & _ & _ & _ & H).
  change (obj_get (subscription_identifier "chat" None)
            (pendingSubscriptions (snd (subscribe "chat" None constructor))))
    with (Some 0) in H.
  cbv iota in H. destruct H as (_ & _ & H). exact (H eq_refl).
Defined.

(** The state a [disconnect] frame leaves. *)
Lemma receive_disconnect_state (frame : JsObject JsValue) (s : State) :
  obj_get "type" frame = Some (JStr "disconnect") ->
  exists es,
    snd (receive (JObj frame) s) = cleared (after s es).
Proof.
  intros H. eexists. receive_frame H. rewrite disconnect_signal_spec.
  unfold bind. cbv beta. rewrite reset_spec.
  unfold emit, ret, cleared, after. simpl.
  rewrite <- List.app_assoc. reflexivity.
Qed.

(** X7.  Resetting twice is resetting once: after [reset], or after a
    [disconnect] frame, a further [reset] rejects nothing and changes
    nothing. *)
Theorem reset_idempotent (err err' : JsError) (s : State)
  (frame : JsObject JsValue) :
  reset err' (snd (reset err s)) = (Normal tt, snd (reset err s)) /\
  (obj_get "type" frame = Some (JStr "disconnect") ->
   reset err' (snd (receive (JObj frame) s))
   = (Normal tt, snd (receive (JObj frame) s))).
Proof.
  assert (Hc : forall t, reset err' (cleared t) = (Normal tt, cleared t)).
  { intros t. rewrite reset_spec. unfold cleared, after. simpl.
    now rewrite List.app_nil_r. }
  split.
  - rewrite (reset_spec err s). simpl snd. apply Hc.
  - intros H. destruct (receive_disconnect_state frame s H) as [es ->].
    apply Hc.
Qed.

(** *** The payload of [subscribe] *)

Lemma obj_assign_cons {A} (t : JsObject A) k v (r : JsObject A) :
  obj_assign t ((k, v) :: r) = obj_assign (obj_set k v t) r.
Proof.
  reflexivity.
Qed.

Lemma obj_assign_nodup {A} (t src : JsObject A) :
  NoDup (obj_keys t) -> NoDup (obj_keys (obj_assign t src)).
Proof.
  revert t. induction src as [|[k v] r IH]; intros t Ht; [assumption|].
  rewrite obj_assign_cons. apply IH. now apply obj_set_nodup.
Qed.

(** [Object.assign] on a source without repeated keys: the source's value
    where it has the key, the target's elsewhere. *)
Lemma obj_assign_get {A} (k : string) (t src : JsObject A) :
  NoDup (obj_keys src) -> k <> "__proto__" ->
  obj_get k (obj_assign t src) =
  match obj_get k src with
  | Some v => Some v
  | None => obj_get k t
  end.
Proof.
  intros Hsrc Hk. revert t Hsrc.
  induction src as [|[k0 v0] r IH]; intros t Hsrc; [reflexivity|].
  rewrite obj_assign_cons. simpl in Hsrc. inversion Hsrc as [|? ? Hk0 Hr]; subst.
  rewrite (IH _ Hr). simpl.
  destruct (String.eqb_spec k0 k) as [->|Hne].
  - apply obj_get_none_keys in Hk0. rewrite Hk0. now apply obj_get_set_same.
  - destruct (obj_get k r); [reflexivity|].
    apply obj_get_set_other. congruence.
Qed.

(** A target that has no property [__proto__] gets none. *)
Lemma obj_assign_proto {A} (t src : JsObject A) :
  obj_get "__proto__" t = None -> obj_get "__proto__" (obj_assign t src) = None.
Proof.
  revert t. induction src as [|[k v] r IH]; intros t Ht; [assumption|].
  rewrite obj_assign_cons. apply IH.
  destruct (String.eqb_spec k "__proto__") as [->|Hne].
  - now rewrite obj_set_proto.
  - rewrite obj_get_set_other by congruence. assumption.
Qed.

(** The properties of an object that [Object.assign] copies to a plain
    target. *)
Definition assignable {A} (src : JsObject A) : JsObject A :=
  filter (fun kv => negb (fst kv =? "__proto__")) src.

(** Assignment of keys that are new and no array indices appends them,
    but for [__proto__]. *)
Lemma obj_assign_append {A} (t src : JsObject A) :
  NoDup (obj_keys src) ->
  obj_get "__proto__" t = None ->
  (forall k, In k (obj_keys src) ->
             ~ In k (obj_keys t) /\ array_index k = None) ->
  obj_assign t src = (t ++ assignable src)%list.
Proof.
  revert t. induction src as [|[k v] r IH]; intros t Hnd Hp Hnew.
  - simpl. now rewrite List.app_nil_r.
  - rewrite obj_assign_cons. inversion Hnd as [|? ? Hk Hr]; subst.
    destruct (Hnew k (or_introl eq_refl)) as [Hkt Hidx].
    unfold assignable. cbn [filter fst].
    destruct (String.eqb_spec k "__proto__") as [->|Hne]; cbn [negb].
    + rewrite obj_set_proto by assumption. apply IH; try assumption.
      intros k' Hk'. apply Hnew. now right.
    + assert (Hset : obj_set k v t = (t ++ [(k, v)])%list).
      { unfold obj_set, obj_has.
        apply obj_get_none_keys in Hkt. rewrite Hkt, Hidx.
        destruct (String.eqb_spec k "__proto__"); [contradiction|].
        reflexivity. }
      rewrite Hset, IH; [now rewrite <- List.app_assoc | assumption | |].
      * rewrite obj_get_app, Hp. simpl.
        destruct (String.eqb_spec k "__proto__"); [contradiction|].
        reflexivity.
      * intros k' Hk'. destruct (Hnew k' (or_intror Hk')) as [Hk't Hidx'].
        split; [|assumption].
        unfold obj_keys. rewrite map_app, in_app_iff. simpl.
        intros [H|[H|[]]]; [contradiction|]. subst k'. contradiction.
Qed.

(** X8.  The payload [subscribe] serializes never has a key twice and
    always has the key [channel], whatever the parameters are. *)
Theorem payload_keys (channel : string) (params : option (JsObject JsValue)) :
  NoDup (obj_keys (subscriptionPayload channel params)) /\
  In "channel" (obj_keys (subscriptionPayload channel params)).
Proof.
  assert (Hc : NoDup (obj_keys [("channel", JStr channel)]))
    by (repeat constructor; simpl; tauto).
  destruct params as [ps|]; simpl; [|split; [assumption | now left]].
  split; [now apply obj_assign_nodup|].
  assert (H : forall (t : JsObject JsValue),
             In "channel" (obj_keys t) ->
             In "channel" (obj_keys (obj_assign t ps))).
  { induction ps as [|[k v] r IH]; intros t Ht; [assumption|].
    rewrite obj_assign_cons. apply IH.
    destruct (obj_get "channel" (obj_set k v t)) eqn:E.
    - destruct (in_dec string_dec "channel" (obj_keys (obj_set k v t)));
        [assumption|].
      apply obj_get_none_keys in n. congruence.
    - exfalso. destruct (String.eqb_spec "channel" k) as [<-|Hne].
      + rewrite obj_get_set_same in E by discriminate. discriminate.
      + rewrite obj_get_set_other in E by assumption.
        apply obj_get_none_keys in E. contradiction. }
  apply H. now left.
Qed.

(** X9.  In the payload, a parameter has the value the caller gave it, also
    the parameter [channel], which takes the place of the channel name; the
    key [channel] has the channel name when no parameter has that name; a
    parameter [__proto__] is not copied; and there are no other keys. *)
Theorem payload_lookup (channel : string) (params : JsObject JsValue)
  (k : string) :
  NoDup (obj_keys params) ->
  obj_get k (subscriptionPayload channel (Some params)) =
  if k =? "__proto__" then None
  else match obj_get k params with
       | Some v => Some v
       | None => if k =? "channel" then Some (JStr channel) else None
       end.
Proof.
  intros Hnd. unfold subscriptionPayload.
  destruct (String.eqb_spec k "__proto__") as [->|Hk].
  - now apply obj_assign_proto.
  - rewrite (obj_assign_get k _ params Hnd Hk). cbn [obj_get].
    rewrite (String.eqb_sym "channel" k).
    destruct (obj_get k params); [reflexivity|].
    now destruct (k =? "channel").
Qed.

(** Parameters that rename the channel and set a prototype. *)
Lemma payload_lookup_witness :
  NoDup (obj_keys [("id", JNum (NInt 1)); ("channel", JStr "other");
                   ("__proto__", JNull)]) /\
  obj_get "channel"
    (subscriptionPayload "chat"
       (Some [("id", JNum (NInt 1)); ("channel", JStr "other");
              ("__proto__", JNull)]))
  = Some (JStr "other") /\
  obj_get "__proto__"
    (subscriptionPayload "chat"
       (Some [("id", JNum (NInt 1)); ("channel", JStr "other");
              ("__proto__", JNull)]))
  = None.
Proof.
  assert (H : NoDup (obj_keys [("id", JNum (NInt 1));
                               ("channel", JStr "other");
                               ("__proto__", JNull)])).
  { repeat constructor; simpl; intuition discriminate. }
  split; [exact H|]. split.
  - exact (payload_lookup "chat"
             [("id", JNum (NInt 1)); ("channel", JStr "other");
              ("__proto__", JNull)] "channel" H).
  - exact (payload_lookup "chat"
             [("id", JNum (NInt 1)); ("channel", JStr "other");
              ("__proto__", JNull)] "__proto__" H).
Defined.

(** X10.  When the parameters have no key twice, no key [channel] and no
    key that is an array index, the payload is the channel followed by the
    parameters in the caller's order, without the parameter [__proto__] if
    there is one. *)
Theorem payload_order (channel : string) (params : JsObject JsValue) :
  NoDup (obj_keys params) ->
  (forall k, In k (obj_keys params) ->
             k <> "channel" /\ array_index k = None) ->
  subscriptionPayload channel (Some params)
  = ("channel", JStr channel) :: assignable params.
Proof.
  intros Hnd Hk. unfold subscriptionPayload.
  rewrite obj_assign_append; [reflexivity | assumption | reflexivity |].
  intros k Hin. destruct (Hk k Hin) as [Hne Hidx]. split; [|assumption].
  simpl. intros [H|[]]. congruence.
Qed.

Lemma payload_order_witness :
  (NoDup (obj_keys [("room", JStr "lobby"); ("__proto__", JObj []);
                    ("id", JNum (NInt 7))]) /\
   forall k, In k (obj_keys [("room", JStr "lobby"); ("__proto__", JObj []);
                             ("id", JNum (NInt 7))]) ->
             k <> "channel" /\ array_index k = None) /\
  subscriptionPayload "chat"
    (Some [("room", JStr "lobby"); ("__proto__", JObj []);
           ("id", JNum (NInt 7))])
  = [("channel", JStr "chat"); ("room", JStr "lobby"); ("id", JNum (NInt 7))].
Proof.
  assert (H1 : NoDup (obj_keys [("room", JStr "lobby"); ("__proto__", JObj []);
                                ("id", JNum (NInt 7))])).
  { repeat constructor; simpl; intuition discriminate. }
  assert (H2 : forall k,
             In k (obj_keys [("room", JStr "lobby"); ("__proto__", JObj []);
                             ("id", JNum (NInt 7))]) ->
             k <> "channel" /\ array_index k = None).
  { simpl. intros k [<-|[<-|[<-|[]]]]; split; (discriminate || reflexivity). }
  split; [split; assumption|].
  exact (payload_order "chat" _ H1 H2).
Defined.

(** *** The payload of [perform] *)

(** X19.  [perform] does not reorder the caller's payload: an [action] key
    the caller supplied keeps its place, and otherwise [action] is added
    after the caller's keys. *)
Theorem perform_keeps_order (action : JsValue) (payload : JsObject JsValue) :
  obj_keys (performPayload action (Some payload)) =
  if obj_has "action" payload then obj_keys payload
  else (obj_keys payload ++ ["action"])%list.
Proof.
  unfold performPayload, obj_set. destruct (obj_has "action" payload).
  - apply obj_keys_replace.
  - change ("action" =? "__proto__") with false.
    change (array_index "action") with (@None N).
    unfold obj_keys. now rewrite map_app.
Qed.

End ProtocolCoverage.

(** ** More about the factory *)

Module FactoryCoverage.
Import Js.
Import ActionCable.
Import CreateCable.
Import FactoryFacts.

(** *** The cable [createCable] returns *)

(** A successful [createCable], read backwards. *)
Lemma createCable_inversion env (u : UrlArg) (o : Options) (cable : Cable) :
  createCable env u (Some o) = Normal cable ->
  exists p enc fmt,
    select_protocol env (over DEFAULT_protocol (protocol o))
      (value (encoder o)) (value (websocketFormat o))
    = Normal (Some p, enc, fmt) /\
    (url_truthy u = true \/ value (transport o) <> None) /\
    cable_protocol cable = p /\
    cable_encoder cable = enc /\
    cable_transport cable =
      match value (transport o) with
      | Some t => GivenTransport t
      | None =>
          NewWebSocketTransport u (value (websocketImplementation o))
            (websocket_subprotocol o) fmt
      end /\
    cable_logger cable = logger_of o /\
    cable_lazy cable = over DEFAULT_lazy (lazy o) /\
    cable_tokenRefresher cable = value (tokenRefresher o) /\
    cable_monitor cable =
      match value (monitor o) with
      | Some MonitorFalse => None
      | Some (MonitorInstance m) => Some (GivenMonitor m)
      | None =>
          Some (NewMonitor (over DEFAULT_pingInterval (pingInterval o))
                  match value (reconnectStrategy o) with
                  | Some r => GivenStrategy r
                  | None =>
                      BackoffWithJitter
                        (over DEFAULT_pingInterval (pingInterval o))
                  end
                  (over DEFAULT_maxMissingPings (maxMissingPings o))
                  (over DEFAULT_maxReconnectAttempts (maxReconnectAttempts o))
                  (logger_of o))
      end.
Proof.
  rewrite createCable_steps.
  assert (Hgate : negb (url_truthy u) &&
                  negb (match value (transport o) with
                        | Some _ => true
                        | None => false
                        end) = false ->
                  url_truthy u = true \/ value (transport o) <> None).
  { destruct (url_truthy u); [now left|].
    destruct (value (transport o)); [right; discriminate | discriminate]. }
  destruct (negb (url_truthy u) && _); [discriminate|].
  specialize (Hgate eq_refl).
  destruct (select_protocol _ _ _ _) as [[[[p|] enc] fmt]|e];
    try discriminate.
  destruct (assemble_cases env u o p enc fmt) as [(e & -> & _) | ->];
    [discriminate|].
  intros [= <-]. exists p, enc, fmt. simpl.
  repeat split; assumption.
Qed.

Lemma select_protocol_named env name encoder format p enc fmt :
  select_protocol env (Some (ProtocolId name)) encoder format
  = Normal (Some p, enc, fmt) ->
  known_protocol name /\ p = NewActionCableProtocol /\
  (exists e, enc = Some e) /\
  (forall e, encoder = Some e -> enc = Some (GivenEncoder e)) /\
  (encoder = None -> name = "actioncable-v1-json" /\ enc = Some NewJSONEncoder) /\
  (exists f, fmt = Some f /\ f <> "" /\
     (name = "actioncable-v1-msgpack" -> f = "binary") /\
     (string_or format None = None ->
      f = if name =? "actioncable-v1-json" then "text" else "binary") /\
     (forall g, string_or format None = Some g ->
                name <> "actioncable-v1-msgpack" -> f = g)).
Proof.
  unfold select_protocol, known_protocol.
  protocol_name name; cbn [String.eqb Ascii.eqb Bool.eqb];
    try (destruct (new_ActionCableProtocol env); cbn [calling];
         [discriminate|]).
  - assert (H : match encoder with
                | Some _ =>
                    Normal (Some NewActionCableProtocol,
                            option_map GivenEncoder encoder,
                            string_or format (Some "text"))
                | None =>
                    calling (new_JSONEncoder env)
                      (Normal (Some NewActionCableProtocol,
                               Some NewJSONEncoder,
                               string_or format (Some "text")))
                end = Normal (Some p, enc, fmt) ->
                (Some NewActionCableProtocol,
                 match encoder with
                 | Some e => Some (GivenEncoder e)
                 | None => Some NewJSONEncoder
                 end, string_or format (Some "text")) = (Some p, enc, fmt)).
    { destruct encoder; simpl; [now intros [= <- <- <-]|].
      destruct (new_JSONEncoder env); cbn [calling]; [discriminate|].
      now intros [= <- <- <-]. }
    intros H0. apply H in H0. clear H. injection H0 as <- <- <-.
    split; [tauto|]. split; [reflexivity|].
    split; [destruct encoder; eauto|].
    split; [intros e ->; reflexivity|].
    split; [intros ->; split; reflexivity|].
    destruct format as [f|]; simpl.
    + destruct (String.eqb_spec f "") as [->|Hf].
      * exists "text". repeat split; try discriminate.
      * exists f. repeat split; try assumption; try discriminate.
        intros g [= <-] _. reflexivity.
    + exists "text". repeat split; try discriminate.
  - destruct encoder as [e|]; [|discriminate].
    intros [= <- <- <-]. split; [tauto|]. split; [reflexivity|].
    split; [eauto|]. split; [intros e' [= <-]; reflexivity|].
    split; [discriminate|].
    exists "binary". repeat split; try discriminate.
    intros g _ H. congruence.
  - destruct encoder as [e|]; [|discriminate].
    intros [= <- <- <-]. split; [tauto|]. split; [reflexivity|].
    split; [eauto|]. split; [intros e' [= <-]; reflexivity|].
    split; [discriminate|].
    destruct format as [f|]; simpl.
    + destruct (String.eqb_spec f "") as [->|Hf].
      * exists "binary". repeat split; try discriminate.
      * exists f. repeat split; try assumption; try discriminate.
        intros g [= <-] _. reflexivity.
    + exists "binary". repeat split; try discriminate.
  - discriminate.
Qed.




(** X12.  The cable has no monitor exactly when the option [monitor] is
    [false]; a monitor that is given is the one that watches the cable;
    otherwise a new monitor is made, which logs to the cable's own logger
    and, when no reconnect strategy is given, backs off from its own ping
    interval. *)
Theorem createCable_monitor (env : Imports) (url : UrlArg)
  (opts : option Options) (cable : Cable) :
  createCable env url opts = Normal cable ->
  (cable_monitor cable = None <->
   value (monitor (snd (arguments url opts))) = Some MonitorFalse) /\
  (forall m,
     value (monitor (snd (arguments url opts))) = Some (MonitorInstance m) ->
     cable_monitor cable = Some (GivenMonitor m)) /\
  (value (monitor (snd (arguments url opts))) = None ->
   exists ping strategy missing attempts,
     cable_monitor cable =
       Some (NewMonitor ping strategy missing attempts (cable_logger cable)) /\
     (value (reconnectStrategy (snd (arguments url opts))) = None ->
      strategy = BackoffWithJitter ping)).
Proof.
  rewrite createCable_arguments.
  generalize (fst (arguments url opts)) (snd (arguments url opts)).
  intros u o H.
  destruct (createCable_inversion env u o cable H)
    as (p & enc & fmt & _ & _ & _ & _ & _ & Hl & _ & _ & Hm).
  rewrite Hm, Hl. destruct (value (monitor o)) as [[|m]|].
  - repeat split; try discriminate; auto.
  - repeat split; try discriminate. intros m' [= <-]. reflexivity.
  - split; [split; discriminate|]. split; [discriminate|].
    intros _. do 4 eexists. split; [reflexivity|].
    intros ->. reflexivity.
Qed.

(** A cable without a monitor. *)
Definition unmonitored : Options :=
  mkOptions Absent Absent Absent Absent Absent Absent Absent Absent
    (Given MonitorFalse) Absent Absent Absent Absent Absent Absent.

Definition unmonitored_cable : Cable :=
  {| cable_protocol := NewActionCableProtocol;
     cable_transport :=
       NewWebSocketTransport (UrlString "ws://example") None
         (Some "actioncable-v1-json") (Some "text");
     cable_encoder := Some NewJSONEncoder;
     cable_logger := NewNoopLogger (Some "warn");
     cable_lazy := Some true;
     cable_monitor := None;
     cable_tokenRefresher := None |}.

Lemma createCable_monitor_witness :
  createCable returning (UrlString "ws://example") (Some unmonitored)
  = Normal unmonitored_cable /\
  (cable_monitor unmonitored_cable = None <->
   value (monitor unmonitored) = Some MonitorFalse).
Proof.
  split; [reflexivity|].
  exact (proj1 (createCable_monitor returning (UrlString "ws://example")
                  (Some unmonitored) unmonitored_cable eq_refl)).
Defined.

(** X13.  An encoder handed to [createCable] is the cable's encoder.  For a
    named protocol the cable has a new [ActionCableProtocol] and always an
    encoder: when none is given the protocol is the JSON one and the
    encoder a new [JSONEncoder].  A protocol object is used as it is, and
    is given no encoder when the options have none. *)
Theorem createCable_encoder (env : Imports) (url : UrlArg)
  (opts : option Options) (cable : Cable) :
  createCable env url opts = Normal cable ->
  (forall e, value (encoder (snd (arguments url opts))) = Some e ->
             cable_encoder cable = Some (GivenEncoder e)) /\
  (forall name,
     over DEFAULT_protocol (protocol (snd (arguments url opts)))
     = Some (ProtocolId name) ->
     cable_protocol cable = NewActionCableProtocol /\
     cable_encoder cable <> None /\
     (value (encoder (snd (arguments url opts))) = None ->
      name = "actioncable-v1-json" /\
      cable_encoder cable = Some NewJSONEncoder)) /\
  (forall h,
     protocol (snd (arguments url opts)) = Given (ProtocolInstance h) ->
     cable_protocol cable = GivenProtocol h /\
     (value (encoder (snd (arguments url opts))) = None ->
      cable_encoder cable = None)).
Proof.
  rewrite createCable_arguments.
  generalize (fst (arguments url opts)) (snd (arguments url opts)).
  intros u o H.
  destruct (createCable_inversion env u o cable H)
    as (p & enc & fmt & Hsel & _ & Hp & He & _).
  rewrite Hp, He. clear Hp He.
  destruct (over DEFAULT_protocol (protocol o)) as [[name|h]|] eqn:Hproto.
  - destruct (select_protocol_named _ _ _ _ _ _ _ Hsel)
      as (_ & Hp & [e0 He0] & Hgiven & Hnone & _).
    subst p enc.
    split; [intros e He; now apply Hgiven|].
    split.
    + intros name' [= <-]. split; [reflexivity|]. split; [discriminate|].
      intros Hno. destruct (Hnone Hno) as [-> [= ->]]. now split.
    + intros h Hh. rewrite Hh in Hproto. discriminate.
  - simpl in Hsel. injection Hsel as <- <- <-.
    split; [intros e ->; reflexivity|].
    split; [discriminate|].
    intros h' Hh. rewrite Hh in Hproto. simpl in Hproto.
    injection Hproto as <-. split; [reflexivity|]. now intros ->.
  - simpl in Hsel. discriminate.
Qed.

(** A cable for a protocol object, without an encoder. *)
Definition custom_protocol : Options :=
  mkOptions (Given (ProtocolInstance 7)) Absent Absent Absent Absent
    Absent Absent Absent Absent Absent Absent Absent Absent Absent Absent.

Definition custom_cable : Cable :=
  {| cable_protocol := GivenProtocol 7;
     cable_transport :=
       NewWebSocketTransport (UrlString "ws://example") None None None;
     cable_encoder := None;
     cable_logger := NewNoopLogger (Some "warn");
     cable_lazy := Some true;
     cable_monitor :=
       Some (NewMonitor (Some (NInt 3000))
               (BackoffWithJitter (Some (NInt 3000)))
               (Some (NInt 2)) (Some NInfinity)
               (NewNoopLogger (Some "warn")));
     cable_tokenRefresher := None |}.

Lemma createCable_encoder_witness :
  createCable returning (UrlString "ws://example") (Some custom_protocol)
  = Normal custom_cable /\
  cable_protocol custom_cable = GivenProtocol 7 /\
  cable_encoder custom_cable = None.
Proof.
  split; [reflexivity|].
  destruct (proj2 (proj2
              (createCable_encoder returning (UrlString "ws://example")
                 (Some custom_protocol) custom_cable eq_refl)) 7 eq_refl)
    as [Hp He].
  split; [exact Hp | exact (He eq_refl)].
Defined.

(** *** More on the token-refresh workflow *)

(** The events of one refresh that succeeds. *)
Definition refresh : list Event :=
  [Close (JStr "token_expired"); RefresherDone Settled; ConnectDone Settled;
   CallbackDone].

Fixpoint refreshes (n : nat) : list Event :=
  match n with
  | O => []
  | S m => (refresh ++ refreshes m)%list
  end.

(** X14.  A refresh that succeeds binds the listener again: after [n]
    expirations, each followed by a refresher and a [connect()] that
    resolve, the listener is bound, and the refresher, [cable.connect()]
    and the re-binding have each happened [n] times. *)
Theorem token_refresh_rearms (n : nat) :
  fst (run watchForExpiredToken (refreshes n)) = Listening /\
  count is_refresher_call (snd (run watchForExpiredToken (refreshes n))) = n /\
  count is_connect_call (snd (run watchForExpiredToken (refreshes n))) = n /\
  count is_bind (snd (run watchForExpiredToken (refreshes n))) = n /\
  count is_log (snd (run watchForExpiredToken (refreshes n))) = 0.
Proof.
  unfold watchForExpiredToken. induction n as [|n IH]; [repeat split|].
  change (refreshes (S n)) with (refresh ++ refreshes n)%list.
  rewrite run_app.
  change (run Listening refresh)
    with (Listening, [Unbind; CallTokenRefresher; CallConnect; Bind]).
  cbn [fst snd]. rewrite !count_app.
  destruct IH as (H0 & H1 & H2 & H3 & H4).
  rewrite H0, H1, H2, H3, H4. repeat split.
Qed.

(** What is under way in a state: a refresher call not yet answered by a
    call of [connect()], a [connect()] not yet answered by a re-binding, and
    a refresh that has neither failed nor re-bound yet. *)
Definition awaits_connect (w : Watch) : nat :=
  match w with AwaitingRefresher => 1 | _ => 0 end.

Definition awaits_bind (w : Watch) : nat :=
  match w with AwaitingConnect | AwaitingCallback true => 1 | _ => 0 end.

Definition in_flight (w : Watch) : nat :=
  match w with
  | AwaitingRefresher | AwaitingConnect | AwaitingCallback true => 1
  | _ => 0
  end.

Lemma step_accounts w ev :
  count is_connect_call (snd (step w ev)) + awaits_connect (fst (step w ev))
    <= count is_refresher_call (snd (step w ev)) + awaits_connect w /\
  count is_bind (snd (step w ev)) + awaits_bind (fst (step w ev))
    <= count is_connect_call (snd (step w ev)) + awaits_bind w /\
  count is_log (snd (step w ev)) + count is_bind (snd (step w ev)) +
    in_flight (fst (step w ev))
    = count is_refresher_call (snd (step w ev)) + in_flight w.
Proof.
  unfold count.
  destruct w as [| | |[]|], ev as [reason|[|err]|[|err]|]; simpl;
    try destruct (strict_eq reason (JStr "token_expired")); simpl; lia.
Qed.

Lemma run_accounts evs w :
  count is_connect_call (snd (run w evs)) + awaits_connect (fst (run w evs))
    <= count is_refresher_call (snd (run w evs)) + awaits_connect w /\
  count is_bind (snd (run w evs)) + awaits_bind (fst (run w evs))
    <= count is_connect_call (snd (run w evs)) + awaits_bind w /\
  count is_log (snd (run w evs)) + count is_bind (snd (run w evs)) +
    in_flight (fst (run w evs))
    = count is_refresher_call (snd (run w evs)) + in_flight w.
Proof.
  revert w. induction evs as [|ev r IH]; intros w.
  - simpl. unfold count. simpl. lia.
  - rewrite run_cons. simpl fst. simpl snd. rewrite !count_app.
    pose proof (step_accounts w ev). pose proof (IH (fst (step w ev))). lia.
Qed.

(** X15.  Whatever events arrive, the listener was never bound again more
    often than [cable.connect()] was called, nor [connect()] more often
    than the refresher; and every call of the refresher has ended in one
    log entry or in one re-binding, except the one that is still under
    way. *)
Theorem token_refresh_accounts (evs : list Event) :
  count is_bind (snd (run watchForExpiredToken evs))
    <= count is_connect_call (snd (run watchForExpiredToken evs)) /\
  count is_connect_call (snd (run watchForExpiredToken evs))
    <= count is_refresher_call (snd (run watchForExpiredToken evs)) /\
  count is_log (snd (run watchForExpiredToken evs)) +
    count is_bind (snd (run watchForExpiredToken evs)) +
    in_flight (fst (run watchForExpiredToken evs))
    = count is_refresher_call (snd (run watchForExpiredToken evs)).
Proof.
  destruct (run_accounts evs watchForExpiredToken) as (H1 & H2 & H3).
  simpl in H1, H2, H3. lia.
Qed.

(** A close for another reason. *)
Definition other_close (ev : Event) : bool :=
  match ev with
  | Close reason => negb (strict_eq reason (JStr "token_expired"))
  | _ => false
  end.

(** X16.  Closes whose reason is not the string [token_expired] (another
    string, no reason at all, or a value of another type) call nothing and
    leave the workflow where it was, in every state. *)
Theorem other_closes_ignored (w : Watch) (evs : list Event) :
  forallb other_close evs = true -> run w evs = (w, []).
Proof.
  induction evs as [|ev r IH]; [reflexivity|].
  simpl forallb. intros H. apply andb_true_iff in H. destruct H as [Hev Hr].
  rewrite run_cons.
  assert (Hs : step w ev = (w, [])).
  { destruct ev as [reason| | |]; try discriminate. simpl in Hev.
    apply negb_true_iff in Hev.
    destruct w as [| | |[]|]; simpl; try reflexivity. now rewrite Hev. }
  rewrite Hs. simpl fst. simpl snd. now rewrite (IH Hr).
Qed.

Lemma other_closes_ignored_witness :
  forallb other_close
    [Close JUndefined; Close (JStr "server_restart"); Close (JNum (NInt 1))]
  = true /\
  run watchForExpiredToken
    [Close JUndefined; Close (JStr "server_restart"); Close (JNum (NInt 1))]
  = (Listening, []).
Proof.
  split; [reflexivity|].
  exact (other_closes_ignored watchForExpiredToken
           [Close JUndefined; Close (JStr "server_restart");
            Close (JNum (NInt 1))] eq_refl).
Defined.

End FactoryCoverage.

(** ** Facts about the consumer *)

Module ConsumerFacts.
Import Js.
Import ActionCable.
Import CreateCable.
Import Consumer.
Import ObjectFacts.
Import ProtocolCoverage.

(** *** [delete] *)

Lemma obj_get_delete_same {A} (k : string) (o : JsObject A) :
  obj_get k (obj_delete k o) = None.
Proof.
  induction o as [|[k' v] r IH]; simpl; [reflexivity|].
  destruct (String.eqb_spec k' k) as [->|Hne]; simpl; [assumption|].
  destruct (String.eqb_spec k' k); [contradiction | assumption].
Qed.

Lemma obj_get_delete_other {A} (k k' : string) (o : JsObject A) :
  k' <> k -> obj_get k' (obj_delete k o) = obj_get k' o.
Proof.
  intros Hne. induction o as [|[k0 v] r IH]; simpl; [reflexivity|].
  destruct (String.eqb_spec k0 k) as [->|H0]; simpl.
  - destruct (String.eqb_spec k k'); [congruence | assumption].
  - now rewrite IH.
Qed.

Lemma obj_delete_absent {A} (k : string) (o : JsObject A) :
  ~ In k (obj_keys o) -> obj_delete k o = o.
Proof.
  induction o as [|[k' v] r IH]; simpl; [reflexivity|].
  intros H. destruct (String.eqb_spec k' k) as [->|Hne]; simpl.
  - exfalso. apply H. now left.
  - f_equal. apply IH. tauto.
Qed.

Lemma obj_delete_keys {A} (k x : string) (o : JsObject A) :
  In x (obj_keys (obj_delete k o)) -> In x (obj_keys o) /\ x <> k.
Proof.
  induction o as [|[k' v] r IH]; simpl; [tauto|].
  destruct (String.eqb_spec k' k) as [->|Hne]; simpl.
  - intros H. destruct (IH H). tauto.
  - intros [<-|H]; [tauto|]. destruct (IH H). tauto.
Qed.

Lemma obj_delete_nodup {A} (k : string) (o : JsObject A) :
  NoDup (obj_keys o) -> NoDup (obj_keys (obj_delete k o)).
Proof.
  induction o as [|[k' v] r IH]; simpl; [auto|].
  intros H. inversion H as [|? ? Hk Hr]; subst.
  destruct (String.eqb_spec k' k) as [->|Hne]; simpl; [auto|].
  constructor; [|auto]. intros Hin. apply obj_delete_keys in Hin. tauto.
Qed.

(** *** [create] *)


(** *** The functions of the mixin *)

Lemma install_get_from (mixin t : JsObject Member) (k : string) :
  NoDup (obj_keys mixin) ->
  obj_get ("_ac_" ++ k)
    (fold_left (fun this kv => obj_set ("_ac_" ++ fst kv) (snd kv) this)
       mixin t) =
  match obj_get k mixin with
  | Some v => Some v
  | None => obj_get ("_ac_" ++ k) t
  end.
Proof.
  revert t. induction mixin as [|[k0 v0] r IH]; intros t Hnd; [reflexivity|].
  simpl fold_left. inversion Hnd as [|? ? Hk0 Hr]; subst.
  rewrite (IH _ Hr). cbn [obj_get].
  destruct (String.eqb_spec k0 k) as [->|Hne].
  - apply obj_get_none_keys in Hk0. rewrite Hk0. apply obj_get_set_same.
    simpl. discriminate.
  - destruct (obj_get k r); [reflexivity|].
    apply obj_get_set_other. simpl. intros [= H]. congruence.
Qed.

(** The function of the mixin that answers an event, and its arguments. *)
Definition hook (ev : ChannelEvent) : string * list JsValue :=
  match ev with
  | OnConnect => ("connected", [])
  | OnDisconnect => ("disconnected", [allowReconnect true])
  | OnMessage val => ("received", [val])
  | OnClose (Some SubscriptionRejectedError) => ("rejected", [])
  | OnClose _ => ("disconnected", [allowReconnect false])
  end.

(** What is called for the key [k] of the mixin. *)
Definition answer (mixin : JsObject Member) (k : string)
  (args : list JsValue) : list Invocation :=
  match obj_get k mixin with
  | Some (Fn h) => [Invoke h args]
  | _ => []
  end.

(** X18.  A channel made from a mixin answers [connect] with the mixin's
    [connected], [message] with [received] and the message, [disconnect]
    with [disconnected] and [{ allowReconnect: true }], a [close] with a
    [SubscriptionRejectedError] with [rejected], and any other [close] with
    [disconnected] and [{ allowReconnect: false }]; [notify] of
    [_ac_initialized] calls [initialized].  A key the mixin lacks, or whose
    value is no function, is passed over in silence. *)
Theorem channel_answers (channelName params : JsValue)
  (mixin : JsObject Member) (ev : ChannelEvent) :
  NoDup (obj_keys mixin) ->
  on_event (new_channel channelName params mixin) ev
    = answer mixin (fst (hook ev)) (snd (hook ev)) /\
  notify (new_channel channelName params mixin) "_ac_initialized" []
    = answer mixin "initialized" [].
Proof.
  intros Hnd.
  assert (H : forall k args,
             notify (new_channel channelName params mixin) ("_ac_" ++ k) args
             = answer mixin k args).
  { intros k args. unfold notify, answer.
    change (members (new_channel channelName params mixin))
      with (install mixin).
    unfold install. rewrite (install_get_from mixin [] k Hnd).
    now destruct (obj_get k mixin). }
  split; [|exact (H "initialized" [])].
  destruct ev as [| |val|[[]|]]; simpl on_event; simpl hook;
    cbn [fst snd]; apply H.
Qed.

(** A mixin with a value that is no function under [connected]. *)
Definition partial_mixin : JsObject Member :=
  [("received", Fn 1); ("connected", Value (JStr "yes"))].

Lemma channel_answers_witness :
  NoDup (obj_keys partial_mixin) /\
  on_event (new_channel (JStr "chat") (JObj []) partial_mixin)
    (OnMessage (JStr "hello")) = [Invoke 1 [JStr "hello"]] /\
  on_event (new_channel (JStr "chat") (JObj []) partial_mixin) OnConnect = [].
Proof.
  assert (H : NoDup (obj_keys partial_mixin)).
  { repeat constructor; simpl; intuition discriminate. }
  split; [exact H|]. split.
  - exact (proj1 (channel_answers (JStr "chat") (JObj []) partial_mixin
                    (OnMessage (JStr "hello")) H)).
  - exact (proj1 (channel_answers (JStr "chat") (JObj []) partial_mixin
                    OnConnect H)).
Defined.

(** *** From [create] to the identifier *)

(** X20.  The name and the parameters [create] takes from an object, put
    together again by the payload of [subscribe], give the object's own
    properties but for [__proto__], which the payload never has: every
    other key has the value it had.  When [channel] is the object's first
    key and no other key is an array index, the payload is the object
    itself without its property [__proto__], so that the identifier is the
    serialization of that. *)
Theorem create_then_subscribe (o : JsObject JsValue) (name : string) :
  NoDup (obj_keys o) ->
  obj_get "channel" o = Some (JStr name) ->
  (forall k,
     obj_get k (subscriptionPayload name (Some (obj_delete "channel" o)))
     = if k =? "__proto__" then None else obj_get k o) /\
  (forall rest,
     o = ("channel", JStr name) :: rest ->
     (forall k, In k (obj_keys rest) -> array_index k = None) ->
     subscriptionPayload name (Some (obj_delete "channel" o))
     = assignable o).
Proof.
  intros Hnd Hc. split.
  - intros k. unfold subscriptionPayload.
    destruct (String.eqb_spec k "__proto__") as [->|Hp];
      [now apply obj_assign_proto|].
    rewrite obj_assign_get; [|now apply obj_delete_nodup|assumption].
    destruct (String.eqb_spec k "channel") as [->|Hne].
    + rewrite obj_get_delete_same, Hc. reflexivity.
    + rewrite (obj_get_delete_other "channel" k o Hne).
      destruct (obj_get k o); [reflexivity|]. cbn [obj_get].
      destruct (String.eqb_spec "channel" k); [congruence | reflexivity].
  - intros rest -> Hidx. simpl in Hnd. inversion Hnd as [|? ? Hk Hr]; subst.
    assert (Hdel : obj_delete "channel" (("channel", JStr name) :: rest)
                   = rest).
    { unfold obj_delete. cbn [filter fst]. rewrite String.eqb_refl.
      cbn [negb]. now apply obj_delete_absent. }
    rewrite Hdel. unfold subscriptionPayload.
    rewrite obj_assign_append; [reflexivity | assumption | reflexivity |].
    intros k Hin. split; [|now apply Hidx].
    simpl. intros [H|[]]. subst k. contradiction.
Qed.

(** An argument of [create] as a decoder may make it, with a property
    [__proto__] of its own. *)
Definition room : JsObject JsValue :=
  [("channel", JStr "ChatChannel"); ("id", JStr "2020");
   ("__proto__", JObj [("admin", JBool true)])].

Lemma create_then_subscribe_witness :
  (NoDup (obj_keys room) /\
   obj_get "channel" room = Some (JStr "ChatChannel")) /\
  subscriptionPayload "ChatChannel" (Some (obj_delete "channel" room))
  = [("channel", JStr "ChatChannel"); ("id", JStr "2020")].
Proof.
  assert (H : NoDup (obj_keys room)).
  { repeat constructor; simpl; intuition discriminate. }
  split; [split; [exact H | reflexivity]|].
  apply (proj2 (create_then_subscribe room "ChatChannel" H eq_refl)
           [("id", JStr "2020"); ("__proto__", JObj [("admin", JBool true)])]
           eq_refl).
  simpl. intros k [<-|[<-|[]]]; reflexivity.
Defined.

End ConsumerFacts.
